(** * rnxmonero: blockchain utilities, checkpoints and the bootstrap container

    A shallow embedding of
      - the [checkpoints] class                     (src/checkpoints/checkpoints.cpp),
      - the scan, the loader and [prune_spent_outputs]
                                (src/blockchain_utilities/blockchain_prune_known_spent_data.cpp),
      - the [BootstrapFile] writer (second half of src/blockchain_utilities/blockchain_export.cpp),
      - [posix::fork]                               (src/daemonizer/posix_fork.cpp),
      - the walk of monero-blockchain-depth,
    followed by the properties the design document states about them and
    by further properties of the code.

    Integers of the source are [Z] with the wrap-around of their C++ type
    written out; byte strings are [list Byte.byte]; [std::map] is a [gmap]
    where only lookups matter and its ascending iteration sequence where the
    code iterates over it. *)

From Stdlib Require Import ZArith Lia List Bool String.
From stdpp Require Import gmap list sorting.
Import ListNotations.
Open Scope Z_scope.

(** ** Machine integers *)

Definition wrap32 (z : Z) : Z := z mod 2 ^ 32.
Definition wrap64 (z : Z) : Z := z mod 2 ^ 64.

(** [long] on an LP64 target: the signed reading of the low 64 bits. *)
Definition to_long (z : Z) : Z := (z + 2 ^ 63) mod 2 ^ 64 - 2 ^ 63.

(** [crypto::hash] is a 32-byte POD; it is kept as the 256-bit number its
    bytes spell, and [crypto::null_hash] is the all-zero one. *)
Definition hash := Z.
Definition null_hash : hash := 0.

(** ** [std::map] with integer keys

    A [std::map<uint64_t, T>] is a [gmap Z T]; a range-for over it, its
    [rbegin()] and its [upper_bound] go through the entries by ascending
    key, which is the list [iteration]. *)

Definition key_le {A : Type} : relation (Z * A) := fun p q => p.1 <= q.1.

#[export] Instance key_le_dec {A : Type} : RelDecision (@key_le A) :=
  fun p q => decide (p.1 <= q.1).

Definition iteration {A : Type} (m : gmap Z A) : list (Z * A) :=
  merge_sort key_le (map_to_list m).

(** [m.upper_bound(k)] as a position in the iteration: the number of
    entries in front of the first one whose key is greater than [k]. *)
Fixpoint upper_bound {A : Type} (entries : list (Z * A)) (k : Z) : nat :=
  match entries with
  | [] => O
  | entry :: rest => if k <? entry.1 then O else S (upper_bound rest k)
  end.

(** ** Checkpoints *)

Module Checkpoints.

(** The two ordered maps of [class checkpoints], keyed by block height. *)
Record checkpoints := {
  m_points : gmap Z hash;
  m_difficulty_points : gmap Z Z
}.

(** [bool check_block(uint64_t height, const crypto::hash& h, bool& is_a_checkpoint) const].
    The result pairs the returned [bool] with the value left in the
    reference parameter [is_a_checkpoint]. *)
Definition check_block (c : checkpoints) (height : Z) (h : hash) : bool * bool :=
  let it := m_points c !! height in
  let is_a_checkpoint := bool_decide (it ≠ None) in
  if negb is_a_checkpoint then (true, is_a_checkpoint)
  else match it with
       | Some second =>
           if bool_decide (second = h) then (true, is_a_checkpoint)
           else (false, is_a_checkpoint)
       | None => (true, is_a_checkpoint)
       end.

(** The two-argument overload drops the flag. *)
Definition check_block2 (c : checkpoints) (height : Z) (h : hash) : bool :=
  fst (check_block c height h).

(** [add_checkpoint] once its strings are parsed: [parsed_hash] is the result
    of [hex_to_pod] ([None] when the string is not a hash), [difficulty] is
    [None] for an empty difficulty string and [Some None] for one that does
    not parse. *)
Definition add_checkpoint (c : checkpoints) (height : Z)
    (parsed_hash : option hash) (difficulty : option (option Z))
  : bool * checkpoints :=
  match parsed_hash with
  | None => (false, c)
  | Some h =>
      if bool_decide (is_Some (m_points c !! height))
         && negb (bool_decide (m_points c !! height = Some h))
      then (false, c)
      else
        let c1 := {| m_points := <[height := h]> (m_points c);
                     m_difficulty_points := m_difficulty_points c |} in
        match difficulty with
        | None => (true, c1)
        | Some None => (false, c1)
        | Some (Some d) =>
            if bool_decide (is_Some (m_difficulty_points c1 !! height))
               && negb (bool_decide (m_difficulty_points c1 !! height = Some d))
            then (false, c1)
            else (true, {| m_points := m_points c1;
                           m_difficulty_points := <[height := d]> (m_difficulty_points c1) |})
        end
  end.

(** [m_points.rbegin()->first], when [m_points] is not empty. *)
Definition rbegin_first (c : checkpoints) : option Z :=
  fst <$> last (iteration (m_points c)).

(** [is_in_checkpoint_zone]: [!m_points.empty() && height <= m_points.rbegin()->first]. *)
Definition is_in_checkpoint_zone (c : checkpoints) (height : Z) : bool :=
  match rbegin_first c with
  | None => false
  | Some top => height <=? top
  end.

(** [is_alternative_block_allowed].  [it] is the position [upper_bound]
    returns; position 0 is [m_points.begin()], and [--it] steps one entry
    back, where there always is one. *)
Definition is_alternative_block_allowed (c : checkpoints)
    (blockchain_height block_height : Z) : bool :=
  if block_height =? 0 then false
  else
    let it := upper_bound (iteration (m_points c)) blockchain_height in
    if (it =? 0)%nat then true
    else
      match iteration (m_points c) !! (it - 1)%nat with
      | Some entry => entry.1 <? block_height
      | None => false
      end.

(** [get_max_height]. *)
Definition get_max_height (c : checkpoints) : Z :=
  match rbegin_first c with
  | None => 0
  | Some top => top
  end.

Definition get_points (c : checkpoints) : gmap Z hash := m_points c.

Definition get_difficulty_points (c : checkpoints) : gmap Z Z := m_difficulty_points c.

(** The range-for of [check_for_conflicts], which returns at the first
    point of [other] stored here with another hash. *)
Fixpoint conflicts_loop (c : checkpoints) (points : list (Z * hash)) : bool :=
  match points with
  | [] => true
  | pt :: rest =>
      if bool_decide (is_Some (m_points c !! pt.1))
         && negb (bool_decide (m_points c !! pt.1 = Some pt.2))
      then false
      else conflicts_loop c rest
  end.

Definition check_for_conflicts (c other : checkpoints) : bool :=
  conflicts_loop c (iteration (get_points other)).

Definition empty_checkpoints : checkpoints :=
  {| m_points := ∅; m_difficulty_points := ∅ |}.

(** The first two mainnet entries of [init_default_checkpoints], as numbers. *)
Definition sample_checkpoints : checkpoints :=
  snd (add_checkpoint (snd (add_checkpoint empty_checkpoints 1 (Some 771) (Some (Some 2))))
         10 (Some 387) (Some (Some 174452))).

End Checkpoints.

(** ** Pruning of known-spent outputs *)

Module PruneKnownSpent.

(** What [prune_spent_outputs] needs from [BlockchainDB] and from
    cryptonote_format_utils ([is_valid_decomposed_amount]); none of them is
    defined in the files at hand. *)
Class Database := {
  BlockchainDB : Type;
  get_num_outputs : BlockchainDB -> Z -> Z;
  prune_outputs : BlockchainDB -> Z -> BlockchainDB;
  is_valid_decomposed_amount : Z -> bool
}.

(** The five [size_t] tallies printed at the end. *)
Record tallies := {
  num_total_outputs : Z;
  num_prunable_outputs : Z;
  num_known_spent_outputs : Z;
  num_eligible_outputs : Z;
  num_eligible_known_spent_outputs : Z
}.

Definition no_tallies : tallies :=
  {| num_total_outputs := 0; num_prunable_outputs := 0;
     num_known_spent_outputs := 0; num_eligible_outputs := 0;
     num_eligible_known_spent_outputs := 0 |}.

(** The state threaded through the loop: the database, the calls
    [db->prune_outputs(amount)] made so far (each with the database it was
    made on), the amounts reported through [MERROR], and the tallies. *)
Record run `{Database} := {
  db : BlockchainDB;
  prune_calls : list (Z * BlockchainDB);
  reported : list Z;
  counts : tallies
}.

Section Loop.
Context `{Database}.

(** One iteration of the range-for, on the entry [(amount, spent_count)]. *)
Definition prune_entry (dry_run : bool) (st : run) (entry : Z * Z) : run :=
  let '(amount, spent_count) := entry in
  let num_outputs := get_num_outputs (db st) amount in
  let t := counts st in
  let t1 := {| num_total_outputs := wrap64 (num_total_outputs t + num_outputs);
               num_prunable_outputs := num_prunable_outputs t;
               num_known_spent_outputs := wrap64 (num_known_spent_outputs t + spent_count);
               num_eligible_outputs := num_eligible_outputs t;
               num_eligible_known_spent_outputs := num_eligible_known_spent_outputs t |} in
  if (amount =? 0) || is_valid_decomposed_amount amount then
    {| db := db st; prune_calls := prune_calls st; reported := reported st; counts := t1 |}
  else
    let t2 := {| num_total_outputs := num_total_outputs t1;
                 num_prunable_outputs := num_prunable_outputs t1;
                 num_known_spent_outputs := num_known_spent_outputs t1;
                 num_eligible_outputs := wrap64 (num_eligible_outputs t1 + num_outputs);
                 num_eligible_known_spent_outputs :=
                   wrap64 (num_eligible_known_spent_outputs t1 + spent_count) |} in
    if num_outputs >? spent_count then
      {| db := db st; prune_calls := prune_calls st; reported := reported st; counts := t2 |}
    else if num_outputs <? spent_count then
      {| db := db st; prune_calls := prune_calls st;
         reported := reported st ++ [amount]; counts := t2 |}
    else
      let t3 := {| num_total_outputs := num_total_outputs t2;
                   num_prunable_outputs := wrap64 (num_prunable_outputs t2 + spent_count);
                   num_known_spent_outputs := num_known_spent_outputs t2;
                   num_eligible_outputs := num_eligible_outputs t2;
                   num_eligible_known_spent_outputs := num_eligible_known_spent_outputs t2 |} in
      if negb dry_run then
        {| db := prune_outputs (db st) amount;
           prune_calls := prune_calls st ++ [(amount, db st)];
           reported := reported st; counts := t3 |}
      else
        {| db := db st; prune_calls := prune_calls st; reported := reported st; counts := t3 |}.

(** [prune_spent_outputs(db, known_spent_outputs, verbose, dry_run)];
    [known_spent_outputs] is the map's iteration sequence.  [verbose] only
    selects log lines; [batch_start]/[batch_stop] bracket the loop and read
    or change no output. *)
Definition prune_spent_outputs (d : BlockchainDB) (known_spent_outputs : list (Z * Z))
    (verbose dry_run : bool) : run :=
  fold_left (prune_entry dry_run) known_spent_outputs
    {| db := d; prune_calls := []; reported := []; counts := no_tallies |}.

End Loop.

(** *** Where the known spent counts come from *)

(** Transactions as [scan_for_spent_outputs] reads them (cryptonote_basic.h
    is not among the sources): the kind of every input and of every output
    target, the amounts, and the version. *)
Inductive txin_v :=
| txin_gen (height : Z)
| txin_to_script
| txin_to_scripthash
| txin_to_key (amount : Z) (key_offsets : list Z).

Inductive txout_target_v :=
| txout_to_script
| txout_to_scripthash
| txout_to_key
| txout_to_tagged_key.

Record tx_out := {
  amount : Z;
  target : txout_target_v
}.

Record transaction := {
  version : Z;
  vin : list txin_v;
  vout : list tx_out
}.

(** [outputs[amount].first++] and [outputs[amount].second++]: [operator[]]
    makes the pair (0, 0) for an amount that has none. *)
Definition count_output (outputs : gmap Z (Z * Z)) (amount : Z) : gmap Z (Z * Z) :=
  let entry := default (0, 0) (outputs !! amount) in
  <[amount := (wrap64 (entry.1 + 1), entry.2)]> outputs.

Definition count_spend (outputs : gmap Z (Z * Z)) (amount : Z) : gmap Z (Z * Z) :=
  let entry := default (0, 0) (outputs !! amount) in
  <[amount := (entry.1, wrap64 (entry.2 + 1))]> outputs.

(** The body of the loop over [tx.vin]. *)
Definition scan_input (outputs : gmap Z (Z * Z)) (i : txin_v) : gmap Z (Z * Z) :=
  match i with
  | txin_to_key amount _ => if amount =? 0 then outputs else count_spend outputs amount
  | _ => outputs
  end.

(** The body of the loop over [tx.vout]. *)
Definition scan_output (is_miner_tx : bool) (tx_version : Z)
    (outputs : gmap Z (Z * Z)) (out : tx_out) : gmap Z (Z * Z) :=
  let amount := if is_miner_tx && (2 <=? tx_version) then 0 else amount out in
  if (amount =? 0)
     || negb (match target out with txout_to_key => true | _ => false end)
  then outputs
  else count_output outputs amount.

(** The callback handed to [for_all_transactions]; it always returns true,
    so no transaction is skipped. *)
Definition scan_transaction (outputs : gmap Z (Z * Z)) (tx : transaction)
  : gmap Z (Z * Z) :=
  let is_miner_tx :=
    (length (vin tx) =? 1)%nat
    && match vin tx with
       | txin_gen _ :: _ => true
       | _ => false
       end in
  let outputs := fold_left scan_input (vin tx) outputs in
  fold_left (scan_output is_miner_tx (version tx)) (vout tx) outputs.

(** [scan_for_spent_outputs]; [transactions] are the transactions of the
    database in the order [for_all_transactions] visits them.  The second
    loop copies the spent count of every entry. *)
Definition scan_for_spent_outputs (transactions : list (hash * transaction)) : gmap Z Z :=
  let outputs := fold_left (fun outputs entry => scan_transaction outputs entry.2)
                   transactions ∅ in
  snd <$> outputs.

(** How many inputs of [transactions] spend an output of [amount], and how
    many outputs of that amount the scan counts. *)
Definition spends_of (a : Z) (i : txin_v) : bool :=
  match i with
  | txin_to_key amount _ => amount =? a
  | _ => false
  end.

Definition spends (a : Z) (transactions : list (hash * transaction)) : nat :=
  length (List.filter (spends_of a)
            (concat (map (fun entry => vin entry.2) transactions))).

Definition counts_as (a : Z) (out : tx_out) : bool :=
  (amount out =? a)
  && match target out with txout_to_key => true | _ => false end.

Definition counted_outputs_of (a : Z) (tx : transaction) : nat :=
  match vin tx with
  | [txin_gen _] => if 2 <=? version tx then O
                    else length (List.filter (counts_as a) (vout tx))
  | _ => length (List.filter (counts_as a) (vout tx))
  end.

Definition counted_outputs (a : Z) (transactions : list (hash * transaction)) : nat :=
  foldr (fun entry n => (counted_outputs_of a entry.2 + n)%nat) O transactions.

(** What the scan holds for the amount [a] once it has counted [c] outputs
    and [s] spends of it. *)
Definition tallied (a : Z) (outputs : gmap Z (Z * Z)) (c s : nat) : Prop :=
  outputs !! a = if ((c =? 0) && (s =? 0))%nat then None
                 else Some (wrap64 (Z.of_nat c), wrap64 (Z.of_nat s)).

(** *** Known spent counts from a file *)

Definition INVALID_AMOUNT : Z := 2 ^ 64 - 1.

(** [fgets(line, size, f)] on the bytes the stream has left: the characters
    up to and with the first newline, [size - 1] of them at most, and what
    is left of the stream; [None] at the end of the file. *)
Fixpoint fgets_read (n : nat) (stream : list Byte.byte) : list Byte.byte * list Byte.byte :=
  match n, stream with
  | O, _ => ([], stream)
  | _, [] => ([], [])
  | S n', ch :: rest =>
      if Byte.eqb ch Byte.x0a then ([ch], rest)
      else let '(more, unread) := fgets_read n' rest in (ch :: more, unread)
  end.

Definition fgets (size : nat) (stream : list Byte.byte)
  : option (list Byte.byte * list Byte.byte) :=
  match stream with
  | [] => None
  | _ => Some (fgets_read (size - 1) stream)
  end.

(** The C string in a buffer: the characters in front of the first NUL. *)
Fixpoint c_str (buffer : list Byte.byte) : list Byte.byte :=
  match buffer with
  | [] => []
  | ch :: rest => if Byte.eqb ch Byte.x00 then [] else ch :: c_str rest
  end.

(** [if (len > 0 && line[len - 1] == '\n') line[len - 1] = '\0';] *)
Definition strip_newline (line : list Byte.byte) : list Byte.byte :=
  match last line with
  | Some ch => if Byte.eqb ch Byte.x0a then take (length line - 1) line else line
  | None => line
  end.

(** The lines the [while (fgets(line, sizeof(line), f))] loop sees, with
    [char line[256]]; [fuel] bounds the number of calls, and the length of
    the file is enough of it. *)
Fixpoint fgets_lines (fuel : nat) (stream : list Byte.byte) : list (list Byte.byte) :=
  match fuel with
  | O => []
  | S fuel' =>
      match fgets 256 stream with
      | None => []
      | Some (buffer, unread) => strip_newline (c_str buffer) :: fgets_lines fuel' unread
      end
  end.

(** The three [sscanf] calls, on a C string: whether the call returns the
    number of conversions the code compares it with, and the values it then
    stored. *)
Class Scanf := {
  sscanf_amount : list Byte.byte -> option Z;
  sscanf_offsets : list Byte.byte -> option (Z * Z);
  sscanf_offset : list Byte.byte -> option Z
}.

Section Load.
Context `{Scanf}.

(** [outputs[amount] += n]. *)
Definition add_outputs (outputs : gmap Z Z) (amount n : Z) : gmap Z Z :=
  <[amount := wrap64 (default 0 (outputs !! amount) + n)]> outputs.

(** The body of the loop: the state is the local [amount] and [outputs]. *)
Definition load_line (st : Z * gmap Z Z) (line : list Byte.byte) : Z * gmap Z Z :=
  let '(amount, outputs) := st in
  match line with
  | [] => st
  | _ =>
      match sscanf_amount line with
      | Some announced => (announced, outputs)
      | None =>
          if amount =? INVALID_AMOUNT then st
          else
            match sscanf_offsets line with
            | Some (offset, num_offsets) =>
                if num_offsets <? wrap64 (INVALID_AMOUNT - offset)
                then (amount, add_outputs outputs amount num_offsets)
                else match sscanf_offset line with
                     | Some _ => (amount, add_outputs outputs amount 1)
                     | None => st
                     end
            | None =>
                match sscanf_offset line with
                | Some _ => (amount, add_outputs outputs amount 1)
                | None => st
                end
            end
      end
  end.

(** [load_outputs_from_file]; [file] is [None] when [fopen] fails. *)
Definition load_outputs_from_file (file : option (list Byte.byte)) : gmap Z Z :=
  match file with
  | None => ∅
  | Some bytes =>
      (fold_left load_line (fgets_lines (length bytes) bytes) (INVALID_AMOUNT, ∅)).2
  end.

(** The amount [a] is named by a header among [lines]. *)
Definition announced (lines : list (list Byte.byte)) (a : Z) : Prop :=
  a <> INVALID_AMOUNT /\ exists line, line ∈ lines /\ sscanf_amount line = Some a.

(** The state of the loop names only amounts the headers among [lines]
    announced. *)
Definition loaded (lines : list (list Byte.byte)) (st : Z * gmap Z Z) : Prop :=
  (st.1 = INVALID_AMOUNT \/ announced lines st.1)
  /\ forall a n, st.2 !! a = Some n -> announced lines a /\ 0 <= n < 2 ^ 64.

End Load.

(** *** The tool as a whole *)

Section Main.
Context `{Database} `{Scanf}.

(** [main] from the point where the options are read: [loaded] is what
    [load_blockchain_db] returns, [transactions] are the transactions
    [for_all_transactions] visits, and [input] is [None] for an empty
    [--input] and otherwise what [fopen] gives for the path.  The value is
    the exit status, with the run of [prune_spent_outputs] when there is
    one. *)
Definition main (loaded : option BlockchainDB) (transactions : list (hash * transaction))
    (input : option (option (list Byte.byte))) (opt_verbose opt_dry_run : bool)
  : Z * option run :=
  match loaded with
  | None => (1, None)
  | Some d =>
      let known_spent_outputs :=
        match input with
        | None => scan_for_spent_outputs transactions
        | Some file => load_outputs_from_file file
        end in
      (0, Some (prune_spent_outputs d (iteration known_spent_outputs)
                  opt_verbose opt_dry_run))
  end.

End Main.

(** A database for examples: the number of outputs stored per amount;
    pruning an amount leaves the counts as they are, and the decomposed
    amounts are one digit followed by zeros (as far as the examples go). *)
#[export] Instance table_database : Database := {|
  BlockchainDB := Z -> Z;
  get_num_outputs := fun d amount => d amount;
  prune_outputs := fun d _ => d;
  is_valid_decomposed_amount :=
    fun a => existsb (Z.eqb a) [1; 2; 3; 4; 5; 6; 7; 8; 9; 10; 20; 30; 100; 2000]
|}.

Definition sample_outputs : @BlockchainDB table_database :=
  fun amount => if amount =? 11 then 3 else if amount =? 12 then 4
                else if amount =? 13 then 1 else 0.

Definition sample_start : @run table_database :=
  {| db := sample_outputs; prune_calls := []; reported := []; counts := no_tallies |}.

(** Transactions for examples: a coinbase of version 2, a coinbase of
    version 1 paying 70, and two transactions spending outputs of 70 and 50. *)
Definition sample_transactions : list (hash * transaction) :=
  [(1, {| version := 2; vin := [txin_gen 0];
          vout := [{| amount := 70; target := txout_to_key |}] |});
   (2, {| version := 1; vin := [txin_gen 1];
          vout := [{| amount := 70; target := txout_to_key |}] |});
   (3, {| version := 1; vin := [txin_to_key 70 [5]; txin_to_key 0 [1]];
          vout := [{| amount := 50; target := txout_to_key |};
                   {| amount := 20; target := txout_to_script |}] |});
   (4, {| version := 1; vin := [txin_to_key 70 [2; 3]; txin_to_key 50 [1]];
          vout := [] |})].

(** A database that stores two outputs of amount 70 and five of every
    other amount. *)
Definition sample_counts : @BlockchainDB table_database :=
  fun amount => if amount =? 70 then 2 else 5.

(** A scanner for examples: unsigned decimal numbers without blanks or
    signs, reduced to 64 bits. *)
Fixpoint scan_digits (line : list Byte.byte) (acc : option Z)
  : option Z * list Byte.byte :=
  match line with
  | [] => (acc, [])
  | ch :: rest =>
      let d := Z.of_N (Byte.to_N ch) - 48 in
      if (0 <=? d) && (d <=? 9)
      then scan_digits rest (Some (wrap64 (10 * default 0 acc + d)))
      else (acc, line)
  end.

#[export] Instance sample_scanf : Scanf := {|
  sscanf_amount := fun line =>
    match line with
    | ch :: rest => if Byte.eqb ch Byte.x40 then (scan_digits rest None).1 else None
    | [] => None
    end;
  sscanf_offsets := fun line =>
    match scan_digits line None with
    | (Some offset, ch :: rest) =>
        if Byte.eqb ch Byte.x2a
        then match (scan_digits rest None).1 with
             | Some num_offsets => Some (offset, num_offsets)
             | None => None
             end
        else None
    | _ => None
    end;
  sscanf_offset := fun line => (scan_digits line None).1
|}.

(** The file of the four lines 7, @5, 1 and 2*3: an offset in front of any header, then the
    amount 5 with one offset and a run of three. *)
Definition sample_file : list Byte.byte :=
  [Byte.x37; Byte.x0a;
   Byte.x40; Byte.x35; Byte.x0a;
   Byte.x31; Byte.x0a;
   Byte.x32; Byte.x2a; Byte.x33; Byte.x0a].

End PruneKnownSpent.

(** ** The bootstrap container writer *)

Module Bootstrap.

Definition blobdata := list Byte.byte.

Definition byte_of_Z (z : Z) : Byte.byte :=
  default Byte.x00 (Byte.of_N (Z.to_N (z mod 256))).

Definition Z_of_byte (b : Byte.byte) : Z := Z.of_N (Byte.to_N b).

(** Modelled from the spec: [serialization::dump_binary] at [uint32_t]
    (serialization/binary_utils.h is not among the sources).  The design
    document fixes the width, 32 bits, of the magic, the record sizes and the
    chunk length, and asks for one byte order on both sides; the low byte
    goes first here.  It cannot fail at this type, so the [throw] of
    [write_binary] is never reached. *)
Definition dump_binary (value : Z) : option blobdata :=
  Some [byte_of_Z value; byte_of_Z (value / 2 ^ 8);
        byte_of_Z (value / 2 ^ 16); byte_of_Z (value / 2 ^ 24)].

(** The anonymous namespace of the writer. *)
Definition blockchain_raw_magic : Z := 0x28721586.
Definition header_size : Z := 1024.

(** Header records; bootstrap_serialization.h is not among the sources, the
    field order is the one of the aggregate initialisers
    [{1, 0, header_size}] and [{first_block, last_block, 0}]. *)
Record file_info := {
  major_version : Z;
  minor_version : Z;
  fi_header_size : Z
}.

Record blocks_info := {
  first_block_height : Z;
  last_block_height_hint : Z;
  reserved : Z
}.

(** The input variant of a transaction. *)
Inductive txin :=
| txin_gen (height : Z)
| txin_to_script
| txin_to_scripthash
| txin_to_key (amount : Z).

(** Blocks and transactions come from cryptonote_basic, which is not among
    the sources: the writer only reads the coinbase inputs and the hash list
    of a block, and default-constructs one ([block blk;]). *)
Class Cryptonote := {
  block : Type;
  transaction : Type;
  block_default : block;
  miner_tx_vin : block -> list txin;
  tx_hashes : block -> list hash
}.

Record block_package `{Cryptonote} := {
  bp_block : block;
  txs : list transaction;
  block_weight : Z;
  cumulative_difficulty : Z;
  coins_generated : Z
}.

(** The record serialisation of the project: [t_serializable_object_to_blob]
    and, for the reading side, the parser of one record at the front of a
    byte string. *)
Class Serializable (A : Type) := {
  t_serializable_object_to_blob : A -> blobdata;
  parse_record : blobdata -> option (A * blobdata)
}.

(** Everything else the writer takes from outside the files at hand:
    - the three serialisable records;
    - the chunking interval [NUM_BLOCKS_PER_CHUNK] of bootstrap_file.h
      ([BUFFER_SIZE] only selects a warning and is left out);
    - the flag [include_extra_block_data], and what the members of a
      [block_package] hold when it is off and they are never assigned;
    - whether the stream built over [m_buffer] keeps the bytes written to
      it in a buffer of its own until it is flushed (what a stream whose
      buffer is larger than the header does), or hands every write to
      [m_buffer] at once: [initialize_file_content] reads [m_buffer]
      without flushing, so the two differ there, and the properties below
      are stated for both;
    - [count_blocks], on the bytes of the file: [None] when it throws, else
      the number of blocks and the first height. *)
Class Externals `{Cryptonote} := {
  file_info_serializable :: Serializable file_info;
  blocks_info_serializable :: Serializable blocks_info;
  block_package_serializable :: Serializable block_package;
  NUM_BLOCKS_PER_CHUNK : Z;
  include_extra_block_data : bool;
  unset_block_weight : Z;
  unset_cumulative_difficulty : Z;
  unset_coins_generated : Z;
  output_stream_buffered : bool;
  count_blocks : blobdata -> option (Z * Z)
}.

(** The block source: [Blockchain] and its [BlockchainDB].  A lookup that
    throws in the source is [None] here. *)
Record Blockchain `{Cryptonote} := {
  get_current_blockchain_height : Z;
  get_block_id_by_height : Z -> hash;
  get_block_by_hash : hash -> option block;
  get_tx : hash -> option transaction;
  get_block_weight : Z -> option Z;
  get_block_cumulative_difficulty : Z -> option Z;
  get_block_already_generated_coins : Z -> option Z
}.

(** [std::ofstream]: the bytes that reached the file, the fail state, and
    how many more bytes the device takes before a write comes up short. *)
Record ofstream := {
  written : blobdata;
  failed : bool;
  room : nat
}.

Definition ofstream_closed : ofstream :=
  {| written := []; failed := false; room := 0 |}.

Definition ofstream_write (d : blobdata) (f : ofstream) : ofstream :=
  if failed f then f
  else if (length d <=? room f)%nat
       then {| written := written f ++ d; failed := false;
               room := room f - length d |}
       else {| written := written f ++ take (room f) d; failed := true; room := 0 |}.

(** [tellp()]: [-1] once the stream has failed. *)
Definition tellp (f : ofstream) : Z :=
  if failed f then -1 else Z.of_nat (length (written f)).

(** What [open_writer] finds at the path. *)
Inductive parent_dir :=
| NoParent
| ParentIsDirectory
| ParentIsFile
| ParentAbsent (create_directory : bool).

Record target := {
  parent_path : parent_dir;
  existing : option blobdata;
  opens : bool;
  space : nat
}.

Section Writer.
Context `{Externals}.

(** The members of [BootstrapFile] the writer touches.  [m_output_stream]
    is the put area of the stream over [m_buffer]: bytes written to the
    stream and not yet pushed into [m_buffer]. *)
Record BootstrapFile := {
  m_blockchain_storage : Blockchain;
  m_raw_data_file : ofstream;
  m_buffer : blobdata;
  m_output_stream : blobdata;
  m_height : Z;
  m_cur_height : Z;
  m_max_chunk : Z
}.

Definition set_storage (b : Blockchain) (s : BootstrapFile) : BootstrapFile :=
  {| m_blockchain_storage := b; m_raw_data_file := m_raw_data_file s;
     m_buffer := m_buffer s; m_output_stream := m_output_stream s;
     m_height := m_height s; m_cur_height := m_cur_height s;
     m_max_chunk := m_max_chunk s |}.

Definition set_file (f : ofstream) (s : BootstrapFile) : BootstrapFile :=
  {| m_blockchain_storage := m_blockchain_storage s; m_raw_data_file := f;
     m_buffer := m_buffer s; m_output_stream := m_output_stream s;
     m_height := m_height s; m_cur_height := m_cur_height s;
     m_max_chunk := m_max_chunk s |}.

Definition set_buffer (b : blobdata) (s : BootstrapFile) : BootstrapFile :=
  {| m_blockchain_storage := m_blockchain_storage s;
     m_raw_data_file := m_raw_data_file s;
     m_buffer := b; m_output_stream := m_output_stream s;
     m_height := m_height s; m_cur_height := m_cur_height s;
     m_max_chunk := m_max_chunk s |}.

Definition set_stream (p : blobdata) (s : BootstrapFile) : BootstrapFile :=
  {| m_blockchain_storage := m_blockchain_storage s;
     m_raw_data_file := m_raw_data_file s;
     m_buffer := m_buffer s; m_output_stream := p;
     m_height := m_height s; m_cur_height := m_cur_height s;
     m_max_chunk := m_max_chunk s |}.

Definition set_height (h : Z) (s : BootstrapFile) : BootstrapFile :=
  {| m_blockchain_storage := m_blockchain_storage s;
     m_raw_data_file := m_raw_data_file s;
     m_buffer := m_buffer s; m_output_stream := m_output_stream s;
     m_height := h; m_cur_height := m_cur_height s;
     m_max_chunk := m_max_chunk s |}.

Definition set_cur_height (h : Z) (s : BootstrapFile) : BootstrapFile :=
  {| m_blockchain_storage := m_blockchain_storage s;
     m_raw_data_file := m_raw_data_file s;
     m_buffer := m_buffer s; m_output_stream := m_output_stream s;
     m_height := m_height s; m_cur_height := h;
     m_max_chunk := m_max_chunk s |}.

Definition set_max_chunk (c : Z) (s : BootstrapFile) : BootstrapFile :=
  {| m_blockchain_storage := m_blockchain_storage s;
     m_raw_data_file := m_raw_data_file s;
     m_buffer := m_buffer s; m_output_stream := m_output_stream s;
     m_height := m_height s; m_cur_height := m_cur_height s;
     m_max_chunk := c |}.

(** A method either returns, leaves through an exception, steps outside the
    language (an empty [vin], a zero chunking interval), or is still in its
    loop when the fuel of the model is spent. *)
Inductive outcome (A : Type) : Type :=
| Ok (a : A) (s : BootstrapFile)
| Throw (what : string) (s : BootstrapFile)
| Undefined
| OutOfFuel.

Definition Writer (A : Type) : Type := BootstrapFile -> outcome A.

#[local] Instance Writer_ret : MRet Writer := fun A a s => Ok A a s.

#[local] Instance Writer_bind : MBind Writer := fun A B f m s =>
  match m s with
  | Ok _ a s' => f a s'
  | Throw _ what s' => Throw B what s'
  | Undefined _ => Undefined B
  | OutOfFuel _ => OutOfFuel B
  end.

Definition throw {A : Type} (what : string) : Writer A := fun s => Throw A what s.
Definition undefined {A : Type} : Writer A := fun _ => Undefined A.
Definition get : Writer BootstrapFile := fun s => Ok _ s s.
Definition modify (f : BootstrapFile -> BootstrapFile) : Writer unit :=
  fun s => Ok _ tt (f s).

(** [*m_raw_data_file << blob] and the [std::copy] into the file. *)
Definition file_append (d : blobdata) (s : BootstrapFile) : BootstrapFile :=
  set_file (ofstream_write d (m_raw_data_file s)) s.

Definition file_put (d : blobdata) : Writer unit := modify (file_append d).

(** [m_output_stream->flush()]: the put area goes into [m_buffer]. *)
Definition stream_flushed (s : BootstrapFile) : BootstrapFile :=
  set_stream [] (set_buffer (m_buffer s ++ m_output_stream s) s).

Definition stream_flush : Writer unit := modify stream_flushed.

(** [m_output_stream->write(data, size)]: the bytes join the put area, and
    a stream that does not buffer pushes them through at once. *)
Definition stream_put (d : blobdata) (s : BootstrapFile) : BootstrapFile :=
  let s' := set_stream (m_output_stream s ++ d) s in
  if output_stream_buffered then s' else stream_flushed s'.

Definition stream_write (d : blobdata) : Writer unit := modify (stream_put d).

(** [reset_output_stream]: a new stream over [m_buffer] replaces the old
    one, which is flushed as it is destroyed. *)
Definition reset_output_stream : Writer unit := stream_flush.

(** [write_binary]: the four bytes go to the file, not to the stream. *)
Definition write_binary (value : Z) : Writer unit :=
  match dump_binary value with
  | None => throw "Error in serialization"
  | Some blob => file_put blob
  end.

(** [write_serialized_object]: the size through [write_binary], the record
    into the stream. *)
Definition write_serialized_object {A : Type} `{Serializable A} (object : A)
  : Writer unit :=
  let bd := t_serializable_object_to_blob object in
  let size := wrap32 (Z.of_nat (length bd)) in
  write_binary size;;
  stream_write bd.

(** [initialize_file_content].  In
    [std::string padding(header_size - m_buffer.size(), 0)] the difference
    is taken in [size_t], and a count past the largest string throws.
    [m_buffer] is copied to the file and not cleared. *)
Definition initialize_file_content (first_block last_block : Z) : Writer unit :=
  let file_magic := blockchain_raw_magic in
  write_binary file_magic;;
  let bfi := {| major_version := 1; minor_version := 0;
                fi_header_size := header_size |} in
  let bbi := {| first_block_height := first_block;
                last_block_height_hint := last_block; reserved := 0 |} in
  write_serialized_object bfi;;
  write_serialized_object bbi;;
  s ← get;
  let count := wrap64 (header_size - Z.of_nat (length (m_buffer s))) in
  if 2 ^ 63 <=? count then throw "std::length_error"
  else
    let padding := replicate (Z.to_nat count) Byte.x00 in
    stream_write padding;;
    s' ← get;
    file_put (m_buffer s').

(** [flush_chunk].  [chunk_size] is a [uint32_t]; the two positions are
    [long], and their difference is compared as [unsigned long]. *)
Definition flush_chunk : Writer unit :=
  stream_flush;;
  s ← get;
  let chunk_size := wrap32 (Z.of_nat (length (m_buffer s))) in
  write_binary chunk_size;;
  modify (fun s => if m_max_chunk s <? chunk_size
                   then set_max_chunk chunk_size s else s);;
  s1 ← get;
  let pos_before := to_long (tellp (m_raw_data_file s1)) in
  file_put (m_buffer s1);;
  s2 ← get;
  let num_chars_written := to_long (tellp (m_raw_data_file s2) - pos_before) in
  if negb (wrap64 num_chars_written =? chunk_size)
  then throw "Error writing chunk"
  else
    modify (set_buffer []);;
    reset_output_stream.

Fixpoint fetch_loop (ids : list hash) (acc : list transaction)
  : Writer (list transaction) :=
  match ids with
  | [] => mret acc
  | tx_id :: rest =>
      if bool_decide (tx_id = null_hash) then throw "Transaction ID is null"
      else
        s ← get;
        match get_tx (m_blockchain_storage s) tx_id with
        | None => throw "TX_DNE"
        | Some tx => fetch_loop rest (acc ++ [tx])
        end
  end.

(** [fetch_transactions]: the transactions of the hashes, in their order. *)
Definition fetch_transactions (ids : list hash) : Writer (list transaction) :=
  fetch_loop ids [].

(** A lookup of the database that throws when the height is unknown. *)
Definition db_lookup (field : Blockchain -> Z -> option Z) (height : Z) : Writer Z :=
  s ← get;
  match field (m_blockchain_storage s) height with
  | None => throw "BLOCK_DNE"
  | Some v => mret v
  end.

(** [write_block]: [vin.front()] of an empty [vin] is undefined, and
    [boost::get<txin_gen>] throws on another kind of input. *)
Definition write_block (blk : block) : Writer unit :=
  match miner_tx_vin blk with
  | [] => undefined
  | front :: _ =>
      block_height ← match front with
                     | txin_gen height => mret height
                     | _ => throw "boost::bad_get"
                     end;
      fetched ← fetch_transactions (tx_hashes blk);
      bp ← (if include_extra_block_data then
              w ← db_lookup get_block_weight block_height;
              d ← db_lookup get_block_cumulative_difficulty block_height;
              c ← db_lookup get_block_already_generated_coins block_height;
              mret {| bp_block := blk; txs := fetched; block_weight := w;
                      cumulative_difficulty := d; coins_generated := c |}
            else
              mret {| bp_block := blk; txs := fetched;
                      block_weight := unset_block_weight;
                      cumulative_difficulty := unset_cumulative_difficulty;
                      coins_generated := unset_coins_generated |});
      let bd := t_serializable_object_to_blob bp in
      stream_write bd
  end.

(** [close]. *)
Definition close : Writer bool :=
  s ← get;
  if failed (m_raw_data_file s) then mret false else mret true.

(** [determine_block_stop]; the subtraction is the one of [uint64_t]. *)
Definition determine_block_stop (requested_block_stop : Z) : Writer Z :=
  s ← get;
  let block_stop :=
    wrap64 (get_current_blockchain_height (m_blockchain_storage s) - 1) in
  if (0 <? requested_block_stop) && (requested_block_stop <? block_stop)
  then mret requested_block_stop
  else mret block_stop.

(** [open_writer].  The file is truncated when the path is new and opened
    for appending otherwise; [display_progress] and the log lines of the
    other methods have no counterpart here. *)
Definition open_writer (t : target) (start_block stop_block : Z) : Writer bool :=
  match parent_path t with
  | ParentIsFile => mret false
  | ParentAbsent false => mret false
  | _ =>
      modify (set_file ofstream_closed);;
      let initialize_file := bool_decide (existing t = None) in
      counted ← match existing t with
                | None => mret (0, 0)
                | Some bytes =>
                    match count_blocks bytes with
                    | None => throw "count_blocks"
                    | Some r => mret r
                    end
                end;
      let '(num_blocks, block_first) := counted in
      modify (set_height (wrap64 (num_blocks + block_first)));;
      modify (set_file
                {| written := (if initialize_file then [] else default [] (existing t));
                   failed := negb (opens t);
                   room := if opens t then space t else 0%nat |});;
      s ← get;
      if failed (m_raw_data_file s) then mret false
      else
        reset_output_stream;;
        (if initialize_file then initialize_file_content start_block stop_block
         else mret tt);;
        mret true
  end.

(** One pass of the body of the [for] loop, its increment included. *)
Definition store_block : Writer unit :=
  s ← get;
  let hash := get_block_id_by_height (m_blockchain_storage s) (m_cur_height s) in
  let blk := default block_default (get_block_by_hash (m_blockchain_storage s) hash) in
  write_block blk;;
  (if NUM_BLOCKS_PER_CHUNK =? 0 then undefined
   else if m_cur_height s mod NUM_BLOCKS_PER_CHUNK =? 0 then flush_chunk
        else mret tt);;
  modify (fun s' => set_cur_height (wrap64 (m_cur_height s' + 1)) s').

(** The [for] loop of [store_blockchain_raw], [fuel] passes at most. *)
Fixpoint store_loop (fuel : nat) (block_stop : Z) : Writer unit :=
  fun s =>
    if m_cur_height s <=? block_stop then
      match fuel with
      | O => OutOfFuel unit
      | S fuel' => (store_block;; store_loop fuel' block_stop) s
      end
    else Ok unit tt s.

(** [store_blockchain_raw]. *)
Definition store_blockchain_raw (fuel : nat) (blockchain_storage : Blockchain)
    (output_file : target) (start_block requested_block_stop : Z) : Writer bool :=
  modify (set_storage blockchain_storage);;
  block_stop ← determine_block_stop requested_block_stop;
  opened ← open_writer output_file start_block block_stop;
  if negb opened then mret false
  else
    modify (fun s => set_cur_height (Z.max start_block (m_height s)) s);;
    store_loop fuel block_stop;;
    s ← get;
    (if NUM_BLOCKS_PER_CHUNK =? 0 then undefined
     else if negb (m_cur_height s mod NUM_BLOCKS_PER_CHUNK =? 0) then flush_chunk
          else mret tt);;
    close.

(** A [BootstrapFile] as its constructor leaves it. *)
Definition fresh (b : Blockchain) : BootstrapFile :=
  {| m_blockchain_storage := b; m_raw_data_file := ofstream_closed;
     m_buffer := []; m_output_stream := []; m_height := 0; m_cur_height := 0;
     m_max_chunk := 0 |}.

End Writer.

End Bootstrap.

(** ** What the export loop serialises, as functions of the block source *)

Module Packages.
Import Bootstrap.

(** A record type whose parser undoes its serialisation, whatever follows
    the record, and whose records take at least one byte. *)
Class Lossless (A : Type) `{Serializable A} := {
  parse_blob : forall (a : A) (rest : blobdata),
    parse_record (t_serializable_object_to_blob a ++ rest) = Some (a, rest);
  blob_not_empty : forall a : A, t_serializable_object_to_blob a <> []
}.

(** A path [open_writer] gets through to: the parent directory is there or
    can be made, and the file opens. *)
Definition reachable (t : target) : Prop :=
  (parent_path t = NoParent \/ parent_path t = ParentIsDirectory
   \/ parent_path t = ParentAbsent true) /\ opens t = true.

Section Packages.
Context `{Externals}.

(** The block the loop hands to [write_block] at height [h]: the one
    [get_block_by_hash] fills in, or the default-constructed one. *)
Definition block_at_height (b : Blockchain) (h : Z) : block :=
  default block_default (get_block_by_hash b (get_block_id_by_height b h)).

(** A transaction hash [fetch_transactions] stops at. *)
Definition unresolved (b : Blockchain) (tx_id : hash) : Prop :=
  tx_id = null_hash \/ get_tx b tx_id = None.

Fixpoint resolve_all (b : Blockchain) (ids : list hash) : option (list transaction) :=
  match ids with
  | [] => Some []
  | tx_id :: rest =>
      if bool_decide (tx_id = null_hash) then None
      else match get_tx b tx_id, resolve_all b rest with
           | Some tx, Some more => Some (tx :: more)
           | _, _ => None
           end
  end.

(** The package [write_block] builds of [blk], when it builds one. *)
Definition package_of (b : Blockchain) (blk : block) : option block_package :=
  match miner_tx_vin blk with
  | txin_gen block_height :: _ =>
      match resolve_all b (tx_hashes blk) with
      | None => None
      | Some fetched =>
          if include_extra_block_data then
            match get_block_weight b block_height,
                  get_block_cumulative_difficulty b block_height,
                  get_block_already_generated_coins b block_height with
            | Some w, Some d, Some c =>
                Some {| bp_block := blk; txs := fetched; block_weight := w;
                        cumulative_difficulty := d; coins_generated := c |}
            | _, _, _ => None
            end
          else
            Some {| bp_block := blk; txs := fetched;
                    block_weight := unset_block_weight;
                    cumulative_difficulty := unset_cumulative_difficulty;
                    coins_generated := unset_coins_generated |}
      end
  | _ => None
  end.

(** The value [determine_block_stop] returns on the chain [b]. *)
Definition block_stop_of (b : Blockchain) (requested_block_stop : Z) : Z :=
  let top := wrap64 (get_current_blockchain_height b - 1) in
  if (0 <? requested_block_stop) && (requested_block_stop <? top)
  then requested_block_stop else top.

(** The heights [first, first + 1, ...], [count] of them. *)
Fixpoint heights_from (first : Z) (count : nat) : list Z :=
  match count with
  | O => []
  | S count' => first :: heights_from (first + 1) count'
  end.

(** The chunk payloads the loop flushes and the bytes it leaves unflushed,
    when it appends the blobs [blobs] for the heights [h, h + 1, ...] to a
    stream that already holds [pending]. *)
Fixpoint chunking (h : Z) (blobs : list blobdata) (pending : blobdata)
  : list blobdata * blobdata :=
  match blobs with
  | [] => ([], pending)
  | bd :: rest =>
      if h mod NUM_BLOCKS_PER_CHUNK =? 0
      then let '(chunks, leftover) := chunking (h + 1) rest [] in
           ((pending ++ bd) :: chunks, leftover)
      else chunking (h + 1) rest (pending ++ bd)
  end.

(** Four bytes, low byte first: what [write_binary] puts in the file. *)
Definition le32 (value : Z) : blobdata := default [] (dump_binary value).

(** A chunk on disk. *)
Definition chunk (payload : blobdata) : blobdata :=
  le32 (Z.of_nat (length payload)) ++ payload.

(** The bytes of the stream over [m_buffer], pushed or not. *)
Definition held (s : BootstrapFile) : blobdata := m_buffer s ++ m_output_stream s.

(** The file takes the chunks [payloads]: the stream is good, the device has
    room for them, every payload has a length of 32 bits, and the file
    stays below the largest offset of a [long]. *)
Definition takes (f : ofstream) (payloads : list blobdata) : Prop :=
  failed f = false
  /\ (length (concat (map chunk payloads)) <= room f)%nat
  /\ Forall (fun payload => Z.of_nat (length payload) < 2 ^ 32) payloads
  /\ Z.of_nat (length (written f)) + Z.of_nat (length (concat (map chunk payloads)))
     < 2 ^ 63.

(** What the whole export appends to the file and what it leaves in the
    stream, when it starts at the height [first] on a stream holding
    [pending]: the chunks of the loop, and the leftover as a last chunk
    when the height after the last block is not a multiple of the
    interval. *)
Definition export_plan (first : Z) (blobs : list blobdata) (pending : blobdata)
  : list blobdata * blobdata :=
  let plan := chunking first blobs pending in
  if negb ((first + Z.of_nat (length blobs)) mod NUM_BLOCKS_PER_CHUNK =? 0)
  then (fst plan ++ [snd plan], [])
  else plan.

(** [chunking] on the packages themselves: the packages of every chunk, and
    those left unflushed. *)
Fixpoint grouping (h : Z) (pkgs : list block_package) (pending : list block_package)
  : list (list block_package) * list block_package :=
  match pkgs with
  | [] => ([], pending)
  | bp :: rest =>
      if h mod NUM_BLOCKS_PER_CHUNK =? 0
      then let '(groups, leftover) := grouping (h + 1) rest [] in
           ((pending ++ [bp]) :: groups, leftover)
      else grouping (h + 1) rest (pending ++ [bp])
  end.

(** The payload of a chunk holding [group]. *)
Definition payload_of (group : list block_package) : blobdata :=
  concat (map t_serializable_object_to_blob group).

(** The packages [pkgs] are those of the blocks the source returns at the
    heights [first, first + 1, ...]. *)
Definition packages_from (b : Blockchain) (first : Z) (pkgs : list block_package) : Prop :=
  Forall2 (fun h bp => package_of b (block_at_height b h) = Some bp)
    (heights_from first (length pkgs)) pkgs.

(** The state a call leaves behind when it returns or throws. *)
Definition state_after {A : Type} (r : outcome A) : option BootstrapFile :=
  match r with
  | Ok _ _ s | Throw _ _ s => Some s
  | _ => None
  end.

(** The file of [s'] is the file of [s] with bytes added at its end. *)
Definition appends_to (s s' : BootstrapFile) : Prop :=
  exists added, written (m_raw_data_file s') = written (m_raw_data_file s) ++ added.

(** The largest chunk size on record once the chunks [payloads] have been
    flushed, [start] being the size on record before: [flush_chunk] keeps
    the length of a payload in a [uint32_t]. *)
Definition largest (start : Z) (payloads : list blobdata) : Z :=
  fold_left (fun m payload => Z.max m (wrap32 (Z.of_nat (length payload)))) payloads start.

(** The transactions [fetched] are those of the hashes [ids], one by one. *)
Definition fetched_in_order (b : Blockchain) (ids : list hash)
    (fetched : list transaction) : Prop :=
  Forall2 (fun tx_id tx => tx_id <> null_hash /\ get_tx b tx_id = Some tx) ids fetched.

End Packages.

End Packages.
(** ** The container reader of the design document

    No source file reads a container (the writer calls [count_blocks], which
    is declared elsewhere).  The reader below follows sections 3, 4.3, 6
    and 7 of the design document. *)

Module Reader.
Import Bootstrap.

(** Modelled from the spec: the errors of section 7 a reader can signal. *)
Inductive read_error := FormatError | VersionError | CorruptionError.

(** Modelled from the spec: what a reading operation answers, a value or
    one of the errors. *)
Inductive read_result (A : Type) : Type :=
| Read (a : A)
| Rejected (e : read_error).
Arguments Read {A} a.
Arguments Rejected {A} e.

(** Modelled from the spec: the reading side of the 32-bit fields, "a fixed
    byte width (32-bit) and consistent byte order between writer and
    reader": four bytes, low byte first, as [dump_binary] writes them. *)
Definition parse_u32 (bs : blobdata) : option (Z * blobdata) :=
  match bs with
  | b0 :: b1 :: b2 :: b3 :: rest =>
      Some (Z_of_byte b0 + 2 ^ 8 * Z_of_byte b1 + 2 ^ 16 * Z_of_byte b2
            + 2 ^ 24 * Z_of_byte b3, rest)
  | _ => None
  end.

Section Reader.
Context `{Cryptonote}.
Context {fi_ser : Serializable file_info} {bi_ser : Serializable blocks_info}
        {bp_ser : Serializable block_package}.

(** Modelled from the spec: a chunk of section 3, [{length(4-byte count),
    payload(length bytes)}]. *)
Definition chunk_bytes (payload : blobdata) : blobdata :=
  default [] (dump_binary (Z.of_nat (length payload))) ++ payload.

(** Modelled from the spec: the container file of sections 3 and 6, which
    no source file builds or reads in this shape:
    [MAGIC(4) | FileInfo | BlocksInfo | padding-to-HEADER_SIZE | Chunk*],
    the first chunk at offset 1024, every chunk payload the concatenation
    of the serialised packages of the chunk. *)
Definition container_header (first_height last_height_hint : Z) : blobdata :=
  let records :=
    default [] (dump_binary blockchain_raw_magic)
    ++ t_serializable_object_to_blob
         {| major_version := 1; minor_version := 0; fi_header_size := header_size |}
    ++ t_serializable_object_to_blob
         {| first_block_height := first_height;
            last_block_height_hint := last_height_hint; reserved := 0 |} in
  records ++ replicate (Z.to_nat header_size - length records) Byte.x00.

(** Modelled from the spec: the header region followed by the chunks, back
    to back. *)
Definition container_file (first_height last_height_hint : Z)
    (chunks : list (list block_package)) : blobdata :=
  container_header first_height last_height_hint
  ++ concat (map (fun packages =>
                    chunk_bytes (concat (map t_serializable_object_to_blob packages)))
               chunks).

(** Modelled from the spec: [open_for_read] of section 4.3 (the reading code
    is not among the sources): check the magic, read FileInfo and reject a
    major version other than 1, read BlocksInfo, and continue at the end of
    the padded header region. *)
Definition open_for_read (file : blobdata)
  : read_result (file_info * blocks_info * blobdata) :=
  match parse_u32 file with
  | None => Rejected FormatError
  | Some (magic, after_magic) =>
      if negb (magic =? blockchain_raw_magic) then Rejected FormatError
      else match parse_record after_magic with
           | None => Rejected FormatError
           | Some (bfi, after_file_info) =>
               if negb (major_version bfi =? 1) then Rejected VersionError
               else match parse_record after_file_info with
                    | None => Rejected FormatError
                    | Some (bbi, _) =>
                        Read (bfi, bbi, drop (Z.to_nat header_size) file)
                    end
           end
  end.

(** Modelled from the spec: the packages of one payload, "the concatenation
    of one or more serialized BlockPackage records"; every record has to
    take at least one byte.  [None] when the payload is not a sequence of
    records. *)
Fixpoint decode_payload (fuel : nat) (payload : blobdata)
  : option (list block_package) :=
  match payload with
  | [] => Some []
  | _ :: _ =>
      match fuel with
      | O => None
      | S fuel' =>
          match parse_record payload with
          | None => None
          | Some (bp, rest) =>
              if (length rest <? length payload)%nat
              then option_map (cons bp) (decode_payload fuel' rest)
              else None
          end
      end
  end.

(** Modelled from the spec: [read_blocks] of section 4.3: chunk after chunk,
    each payload decoded whole; the end of the file at a chunk boundary ends
    the sequence, anything else that does not fit is a [CorruptionError]. *)
Fixpoint read_chunks (fuel : nat) (bytes : blobdata)
  : read_result (list block_package) :=
  match bytes with
  | [] => Read []
  | _ :: _ =>
      match fuel with
      | O => Rejected CorruptionError
      | S fuel' =>
          match parse_u32 bytes with
          | None => Rejected CorruptionError
          | Some (len, rest) =>
              if (Z.to_nat len <=? length rest)%nat then
                match decode_payload (length rest) (take (Z.to_nat len) rest) with
                | None => Rejected CorruptionError
                | Some packages =>
                    match read_chunks fuel' (drop (Z.to_nat len) rest) with
                    | Read more => Read (packages ++ more)
                    | Rejected e => Rejected e
                    end
                end
              else Rejected CorruptionError
          end
      end
  end.

(** Modelled from the spec: the whole sequence [read_blocks] yields on a
    file, after [open_for_read]. *)
Definition read_blocks (file : blobdata) : read_result (list block_package) :=
  match open_for_read file with
  | Rejected e => Rejected e
  | Read (_, _, chunks) => read_chunks (length chunks) chunks
  end.

(** Modelled from the spec: the structural scan [count_blocks] of section
    4.3: the packages of every complete chunk are tallied; a tail chunk that
    is cut short ends the scan.  The result is the tally and the offset
    just past the last complete chunk. *)
Fixpoint scan_chunks (fuel : nat) (bytes : blobdata) (tally offset : Z)
  : option (Z * Z) :=
  match fuel with
  | O => Some (tally, offset)
  | S fuel' =>
      match parse_u32 bytes with
      | None => Some (tally, offset)
      | Some (len, rest) =>
          if (Z.to_nat len <=? length rest)%nat then
            match decode_payload (length rest) (take (Z.to_nat len) rest) with
            | None => None
            | Some packages =>
                scan_chunks fuel' (drop (Z.to_nat len) rest)
                  (tally + Z.of_nat (length packages)) (offset + 4 + len)
            end
          else Some (tally, offset)
      end
  end.

(** Modelled from the spec: [count_blocks(path) -> (num_blocks, end_offset,
    first_height)]; [None] when the header is rejected or a complete chunk
    does not decode. *)
Definition count_blocks_scan (file : blobdata) : option (Z * Z * Z) :=
  match open_for_read file with
  | Rejected _ => None
  | Read (_, bbi, chunks) =>
      match scan_chunks (length chunks) chunks 0 header_size with
      | None => None
      | Some (num_blocks, end_offset) =>
          Some (num_blocks, end_offset, first_block_height bbi)
      end
  end.

End Reader.

End Reader.

(** ** A small chain to run the writer on *)

Module Sample.
Import Bootstrap Reader.

(** Integers are written as varints: seven bits a byte, low bits first, the
    high bit set on every byte but the last. *)
Fixpoint write_varint (fuel : nat) (i : Z) : blobdata :=
  match fuel with
  | O => []
  | S fuel' =>
      if i <? 128 then [byte_of_Z i]
      else byte_of_Z (Z.lor (Z.land i 127) 128) :: write_varint fuel' (Z.shiftr i 7)
  end.

Definition varint (i : Z) : blobdata := write_varint 19 i.

Fixpoint read_varint (fuel : nat) (shift acc : Z) (bs : blobdata)
  : option (Z * blobdata) :=
  match fuel, bs with
  | S fuel', b :: rest =>
      let v := Z_of_byte b in
      let acc' := acc + Z.shiftl (Z.land v 127) shift in
      if v <? 128 then Some (acc', rest)
      else read_varint fuel' (shift + 7) acc' rest
  | _, _ => None
  end.

Definition parse_varint (bs : blobdata) : option (Z * blobdata) :=
  read_varint 19 0 0 bs.

Fixpoint parse_many {A : Type} (p : blobdata -> option (A * blobdata))
    (n : nat) (bs : blobdata) : option (list A * blobdata) :=
  match n with
  | O => Some ([], bs)
  | S n' =>
      match p bs with
      | None => None
      | Some (a, rest) =>
          match parse_many p n' rest with
          | None => None
          | Some (more, rest') => Some (a :: more, rest')
          end
      end
  end.

Definition blob_of_list {A : Type} (f : A -> blobdata) (l : list A) : blobdata :=
  varint (Z.of_nat (length l)) ++ concat (map f l).

Definition parse_list {A : Type} (p : blobdata -> option (A * blobdata))
    (bs : blobdata) : option (list A * blobdata) :=
  match parse_varint bs with
  | None => None
  | Some (n, rest) => parse_many p (Z.to_nat n) rest
  end.

Definition blob_of_txin (i : txin) : blobdata :=
  match i with
  | txin_gen height => Byte.xff :: varint height
  | txin_to_script => [Byte.x00]
  | txin_to_scripthash => [Byte.x01]
  | txin_to_key amount => Byte.x02 :: varint amount
  end.

Definition parse_txin (bs : blobdata) : option (txin * blobdata) :=
  match bs with
  | Byte.xff :: rest =>
      match parse_varint rest with
      | Some (h, rest') => Some (txin_gen h, rest')
      | None => None
      end
  | Byte.x00 :: rest => Some (txin_to_script, rest)
  | Byte.x01 :: rest => Some (txin_to_scripthash, rest)
  | Byte.x02 :: rest =>
      match parse_varint rest with
      | Some (a, rest') => Some (txin_to_key a, rest')
      | None => None
      end
  | _ => None
  end.

(** A block is its coinbase inputs, its transaction hashes and a nonce; a
    transaction is a number. *)
Record sample_block := {
  sb_vin : list txin;
  sb_tx_hashes : list hash;
  sb_nonce : Z
}.

#[export] Instance sample_cryptonote : Cryptonote := {|
  block := sample_block;
  transaction := Z;
  block_default := {| sb_vin := []; sb_tx_hashes := []; sb_nonce := 0 |};
  miner_tx_vin := sb_vin;
  tx_hashes := sb_tx_hashes
|}.

Definition blob_of_block (b : sample_block) : blobdata :=
  blob_of_list blob_of_txin (sb_vin b) ++ blob_of_list varint (sb_tx_hashes b)
  ++ varint (sb_nonce b).

Definition parse_block (bs : blobdata) : option (sample_block * blobdata) :=
  match parse_list parse_txin bs with
  | None => None
  | Some (vin, r1) =>
      match parse_list parse_varint r1 with
      | None => None
      | Some (hashes, r2) =>
          match parse_varint r2 with
          | None => None
          | Some (nonce, r3) =>
              Some ({| sb_vin := vin; sb_tx_hashes := hashes; sb_nonce := nonce |}, r3)
          end
      end
  end.

#[export] Instance sample_file_info : Serializable file_info := {|
  t_serializable_object_to_blob := fun bfi =>
    varint (major_version bfi) ++ varint (minor_version bfi)
    ++ varint (fi_header_size bfi);
  parse_record := fun bs =>
    match parse_many parse_varint 3 bs with
    | Some ([a; b; c], rest) =>
        Some ({| major_version := a; minor_version := b; fi_header_size := c |}, rest)
    | _ => None
    end
|}.

#[export] Instance sample_blocks_info : Serializable blocks_info := {|
  t_serializable_object_to_blob := fun bbi =>
    varint (first_block_height bbi) ++ varint (last_block_height_hint bbi)
    ++ varint (reserved bbi);
  parse_record := fun bs =>
    match parse_many parse_varint 3 bs with
    | Some ([a; b; c], rest) =>
        Some ({| first_block_height := a; last_block_height_hint := b;
                 reserved := c |}, rest)
    | _ => None
    end
|}.

#[export] Instance sample_block_package : Serializable block_package := {|
  t_serializable_object_to_blob := fun bp =>
    blob_of_block (bp_block bp) ++ blob_of_list varint (txs bp)
    ++ varint (block_weight bp) ++ varint (cumulative_difficulty bp)
    ++ varint (coins_generated bp);
  parse_record := fun bs =>
    match parse_block bs with
    | None => None
    | Some (b, r1) =>
        match parse_list parse_varint r1 with
        | None => None
        | Some (ts, r2) =>
            match parse_many parse_varint 3 r2 with
            | Some ([w; d; c], rest) =>
                Some ({| bp_block := b; txs := ts; block_weight := w;
                         cumulative_difficulty := d; coins_generated := c |}, rest)
            | _ => None
            end
        end
    end
|}.

(** The writer built with chunking interval [interval], over a stream that
    buffers or not, resuming through the scan of the design document. *)
Definition sample_externals (interval : Z) (buffered : bool) : Externals := {|
  file_info_serializable := sample_file_info;
  blocks_info_serializable := sample_blocks_info;
  block_package_serializable := sample_block_package;
  NUM_BLOCKS_PER_CHUNK := interval;
  include_extra_block_data := true;
  unset_block_weight := 0;
  unset_cumulative_difficulty := 0;
  unset_coins_generated := 0;
  output_stream_buffered := buffered;
  count_blocks := fun file =>
    match count_blocks_scan file with
    | Some (num_blocks, _, first) => Some (num_blocks, first)
    | None => None
    end
|}.

(** A chain: the block at height [h] has id [h + 1]; the transaction with
    hash [t] is known when [t] is in [pool], and is the number [t + 7]. *)
Definition sample_chain (blocks : list sample_block) (pool : list hash) : Blockchain := {|
  get_current_blockchain_height := Z.of_nat (length blocks);
  get_block_id_by_height := fun h =>
    if (0 <=? h) && (h <? Z.of_nat (length blocks)) then h + 1 else null_hash;
  get_block_by_hash := fun id =>
    if 1 <=? id then blocks !! Z.to_nat (id - 1) else None;
  get_tx := fun t => if existsb (Z.eqb t) pool then Some (t + 7) else None;
  get_block_weight := fun h =>
    if (0 <=? h) && (h <? Z.of_nat (length blocks)) then Some (80 + h) else None;
  get_block_cumulative_difficulty := fun h =>
    if (0 <=? h) && (h <? Z.of_nat (length blocks)) then Some (h + 1) else None;
  get_block_already_generated_coins := fun h =>
    if (0 <=? h) && (h <? Z.of_nat (length blocks)) then Some (600 * (h + 1)) else None
|}.

(** The block of height [h] carrying the transactions [hashes]. *)
Definition block_at (h : Z) (hashes : list hash) : sample_block :=
  {| sb_vin := [txin_gen h]; sb_tx_hashes := hashes; sb_nonce := 3 * h + 1 |}.

(** The package [write_block] makes of [block_at h hashes] on a chain that
    knows the transactions. *)
Definition package_at (h : Z) (hashes : list hash) : block_package :=
  {| bp_block := block_at h hashes; txs := map (fun t => t + 7) hashes;
     block_weight := 80 + h; cumulative_difficulty := h + 1;
     coins_generated := 600 * (h + 1) |}.

(** A path that does not exist yet, in an existing directory, on a device
    with [n] bytes left. *)
Definition new_file (n : nat) : target :=
  {| parent_path := ParentIsDirectory; existing := None; opens := true; space := n |}.

Definition old_file (bytes : blobdata) (n : nat) : target :=
  {| parent_path := ParentIsDirectory; existing := Some bytes; opens := true;
     space := n |}.

(** What is left on disk when the call is over. *)
Definition file_after {A : Type} (r : outcome A) : blobdata :=
  match r with
  | Ok _ _ s => written (m_raw_data_file s)
  | Throw _ _ s => written (m_raw_data_file s)
  | _ => []
  end.

(** The writer flushing after every block, and after every other block. *)
Definition every_block : Externals := sample_externals 1 false.
Definition every_block_buffered : Externals := sample_externals 1 true.
Definition every_other_block : Externals := sample_externals 2 false.

Definition two_blocks : Blockchain :=
  sample_chain [block_at 0 []; block_at 1 []] [].

Definition four_blocks : Blockchain :=
  sample_chain [block_at 0 []; block_at 1 [41]; block_at 2 []; block_at 3 [42; 43]]
    [41; 42; 43].


(** Two blocks; the second lists the null hash, and a hash not in the pool. *)
Definition null_hash_block : Blockchain :=
  sample_chain [block_at 0 [41]; block_at 1 [41; 0]] [41].

Definition unknown_hash_block : Blockchain :=
  sample_chain [block_at 0 [41]; block_at 1 [41; 44]] [41].

(** A writer with an empty file open on a device with 5000 bytes left,
    about to export the height [first]. *)
Definition ready (b : Blockchain) (first : Z) : BootstrapFile :=
  set_cur_height first
    (set_file {| written := []; failed := false; room := 5000 |} (fresh b)).

(** A whole export by a writer just constructed. *)
Definition export (E : Externals) (b : Blockchain) (t : target)
    (start_block requested_block_stop : Z) : outcome bool :=
  @store_blockchain_raw _ E 20 b t start_block requested_block_stop (fresh b).

(** A file of the documented layout holding the first two blocks of
    [four_blocks], one chunk each. *)
Definition two_block_container : blobdata :=
  container_file 0 3 [[package_at 0 []]; [package_at 1 [41]]].

(** A chain without blocks, and a chain of one block with a file of the
    documented layout that holds it. *)
Definition no_blocks : Blockchain := sample_chain [] [].

Definition one_block : Blockchain := sample_chain [block_at 0 []] [].

Definition one_block_container : blobdata :=
  container_file 0 0 [[package_at 0 []]].


End Sample.
(** ** The daemonizer *)

Module PosixFork.

Inductive open_flags := O_RDONLY | O_WRONLY.

(** What a descriptor is open on: [/dev/null], or whatever the process was
    started with. *)
Inductive description :=
| dev_null (flags : open_flags)
| inherited (what : Z).

Definition STDIN_FILENO : nat := 0.
Definition STDOUT_FILENO : nat := 1.
Definition STDERR_FILENO : nat := 2.

(** [open] and [dup] hand out the lowest-numbered descriptor that is not
    open; a table of [size] entries has one among the first [size + 1]
    numbers. *)
Fixpoint lowest_from (fuel n : nat) (fds : gmap nat description) : nat :=
  match fuel with
  | O => n
  | S fuel' =>
      match fds !! n with
      | None => n
      | Some _ => lowest_from fuel' (S n) fds
      end
  end.

Definition lowest_free (fds : gmap nat description) : nat :=
  lowest_from (size fds) 0 fds.

(** What the system answers to the process that runs [fork]:
    - the PID file read through [pidrifs >> oldpid]: [None] when it does
      not open, [Some None] when no number can be read from it;
    - the value of [kill(pid, 0)];
    - the value of the n-th call of [::fork()];
    - whether the PID file opens for writing, and [::getpid()];
    - whether the two [open] calls and the [dup] call go through. *)
Record system := {
  pid_file_read : option (option Z);
  kill0 : Z -> Z;
  fork_value : nat -> Z;
  pid_file_opens : bool;
  getpid : Z;
  null_opens_for_reading : bool;
  null_opens_for_writing : bool;
  dup_goes_through : bool
}.

(** The process: its descriptors, the calls of [::fork()] and [setsid()] it
    has made, and what it has written into the PID file. *)
Record process := {
  fds : gmap nat description;
  forks : nat;
  setsid_called : bool;
  pid_file_written : option Z
}.

(** A function returns, ends the process through [exit], or leaves through
    the exception of [quit]. *)
Inductive outcome :=
| Returns (p : process)
| Exits (status : Z) (p : process)
| Quits (message : string) (p : process).


(** [quit]: the message is logged and thrown. *)
Definition quit (message : string) (p : process) : outcome := Quits message p.




Definition with_fds (table : gmap nat description) (p : process) : process :=
  {| fds := table; forks := forks p; setsid_called := setsid_called p;
     pid_file_written := pid_file_written p |}.

(** [close(fd)], [open("/dev/null", flags)] and [dup(fd)] on the table; the
    last two give the new descriptor, or -1. *)
Definition sys_close (fd : nat) (table : gmap nat description) : gmap nat description :=
  delete fd table.

Definition sys_open (goes_through : bool) (flags : open_flags) (table : gmap nat description)
  : Z * gmap nat description :=
  if goes_through
  then (Z.of_nat (lowest_free table), <[lowest_free table := dev_null flags]> table)
  else (-1, table).

Definition sys_dup (goes_through : bool) (fd : nat) (table : gmap nat description)
  : Z * gmap nat description :=
  match table !! fd with
  | Some d =>
      if goes_through
      then (Z.of_nat (lowest_free table), <[lowest_free table := d]> table)
      else (-1, table)
  | None => (-1, table)
  end.

(** [redirect_streams], built without [DEBUG_TMPDIR_LOG]. *)
Definition redirect_streams (sys : system) (p : process) : outcome :=
  let t1 := sys_close STDERR_FILENO (sys_close STDOUT_FILENO (sys_close STDIN_FILENO (fds p))) in
  let '(r2, t2) := sys_open (null_opens_for_reading sys) O_RDONLY t1 in
  if r2 <? 0 then quit "Unable to open /dev/null for reading" (with_fds t2 p)
  else
    let '(r3, t3) := sys_open (null_opens_for_writing sys) O_WRONLY t2 in
    if r3 <? 0 then quit "Unable to open /dev/null for writing" (with_fds t3 p)
    else
      let '(r4, t4) := sys_dup (dup_goes_through sys) STDOUT_FILENO t3 in
      if r4 <? 0 then quit "Unable to dup output descriptor" (with_fds t4 p)
      else Returns (with_fds t4 p).


(** A process started by a shell, with a terminal on its three standard
    streams and a log file on descriptor 5. *)
Definition started : process :=
  {| fds := <[5%nat := inherited 9]> (<[2%nat := inherited 1]>
              (<[1%nat := inherited 1]> (<[0%nat := inherited 1]> ∅)));
     forks := 0; setsid_called := false; pid_file_written := None |}.

(** The process that is the child of both forks, on a system where every
    call goes through and the PID file names the process 4321, which is
    gone. *)
Definition in_the_daemon : system :=
  {| pid_file_read := Some (Some 4321); kill0 := fun _ => -1; fork_value := fun _ => 0;
     pid_file_opens := true; getpid := 777;
     null_opens_for_reading := true; null_opens_for_writing := true;
     dup_goes_through := true |}.

End PosixFork.

(** ** The depth of a transaction (monero-blockchain-depth) *)

Module BlockchainDepth.

(** Transactions and blocks as the walk reads them (cryptonote_basic.h is
    not among the sources): the inputs with their kind, amount and key
    offsets, the targets of the outputs with their key, and the hash list
    of a block. *)
Inductive txin_v :=
| txin_gen (height : Z)
| txin_to_script
| txin_to_scripthash
| txin_to_key (amount : Z) (key_offsets : list Z).

Inductive txout_target_v :=
| txout_to_script
| txout_to_scripthash
| txout_to_key (key : Z)
| txout_to_tagged_key (key : Z).

Record tx_out := {
  amount : Z;
  target : txout_target_v
}.

Record transaction := {
  vin : list txin_v;
  vout : list tx_out
}.

Record block := {
  miner_tx : transaction;
  tx_hashes : list hash
}.

(** What the walk takes from the database and from cryptonote_format_utils;
    [None] stands for a call that throws or returns false, each of which
    makes [main] return 1:
    - [get_pruned_tx_blob] followed by [parse_and_validate_tx_base_from_blob];
    - [get_output_key], of which the walk reads the height and the key;
    - [get_block_hash_from_height], [get_block_blob] and
      [parse_and_validate_block_from_blob], one after the other;
    - [get_transaction_hash] and [relative_output_offsets_to_absolute]. *)
Class Source := {
  get_tx : hash -> option transaction;
  get_output_key : Z -> Z -> option (Z * Z);
  get_block_at : Z -> option block;
  get_transaction_hash : transaction -> hash;
  relative_output_offsets_to_absolute : list Z -> list Z
}.

Section Walk.
Context `{Source}.

(** [std::any_of] with [match_txout_key]: the outputs are tried in turn;
    [boost::get<txout_to_key>] throws on another kind of target; the first
    output with the key [pubkey] appends [tx_hash] to [new_txids] and ends
    the search. *)
Fixpoint any_of_match (pubkey : Z) (tx_hash : hash) (outs : list tx_out)
    (new_txids : list hash) : option (bool * list hash) :=
  match outs with
  | [] => Some (false, new_txids)
  | out :: rest =>
      match target out with
      | txout_to_key key =>
          if key =? pubkey then Some (true, new_txids ++ [tx_hash])
          else any_of_match pubkey tx_hash rest new_txids
      | _ => None
      end
  end.

(** The loop over [b.tx_hashes], left at the first transaction that holds
    the key. *)
Fixpoint scan_block_txs (pubkey : Z) (hashes : list hash) (new_txids : list hash)
  : option (list hash) :=
  match hashes with
  | [] => Some new_txids
  | block_txid :: rest =>
      match get_tx block_txid with
      | None => None
      | Some tx2 =>
          match any_of_match pubkey block_txid (vout tx2) new_txids with
          | None => None
          | Some (true, new_txids') => Some new_txids'
          | Some (false, new_txids') => scan_block_txs pubkey rest new_txids'
          end
      end
  end.

(** The loop over the absolute offsets of one input; a key found in the
    miner transaction of its block ends the loop, the offsets after it are
    not looked up. *)
Fixpoint scan_offsets (amount : Z) (offsets : list Z) (new_txids : list hash)
  : option (list hash) :=
  match offsets with
  | [] => Some new_txids
  | offset :: rest =>
      match get_output_key amount offset with
      | None => None
      | Some (height, pubkey) =>
          match get_block_at height with
          | None => None
          | Some b =>
              match any_of_match pubkey (get_transaction_hash (miner_tx b))
                      (vout (miner_tx b)) new_txids with
              | None => None
              | Some (true, new_txids') => Some new_txids'
              | Some (false, new_txids') =>
                  match scan_block_txs pubkey (tx_hashes b) new_txids' with
                  | None => None
                  | Some new_txids'' => scan_offsets amount rest new_txids''
                  end
              end
          end
      end
  end.

(** The loop over [tx.vin]: a [txin_gen] input sets [coinbase] and ends the
    loop; an input that is neither [txin_gen] nor [txin_to_key] makes
    [main] return 1. *)
Fixpoint scan_inputs (inputs : list txin_v) (st : bool * list hash)
  : option (bool * list hash) :=
  match inputs with
  | [] => Some st
  | input :: rest =>
      match input with
      | txin_gen _ => Some (true, st.2)
      | txin_to_key amount key_offsets =>
          match scan_offsets amount (relative_output_offsets_to_absolute key_offsets) st.2 with
          | None => None
          | Some new_txids => scan_inputs rest (st.1, new_txids)
          end
      | _ => None
      end
  end.

(** The loop over [txids]; it goes on to the next transaction after one
    with a [txin_gen] input. *)
Fixpoint scan_txids (txids : list hash) (st : bool * list hash)
  : option (bool * list hash) :=
  match txids with
  | [] => Some st
  | txid :: rest =>
      match get_tx txid with
      | None => None
      | Some tx =>
          match scan_inputs (vin tx) st with
          | None => None
          | Some st' => scan_txids rest st'
          end
      end
  end.

(** What becomes of the walk from one start transaction: it finds a depth,
    makes [main] return 1, or is still in its [while] loop after [fuel]
    rounds. *)
Inductive walk_result :=
| Depth (depth : Z)
| Fails
| StillWalking.

(** The [while (!coinbase)] loop, from the round that starts with [depth]
    and [txids]. *)
Fixpoint walk (fuel : nat) (depth : Z) (txids : list hash) : walk_result :=
  match fuel with
  | O => StillWalking
  | S fuel' =>
      match scan_txids txids (false, []) with
      | None => Fails
      | Some (true, _) => Depth depth
      | Some (false, new_txids) => walk fuel' (wrap64 (depth + 1)) new_txids
      end
  end.

(** The start transactions: the one named, or those of the block at
    [opt_height], with its coinbase when asked for. *)
Definition start_txids (opt_txid : option hash) (opt_height : Z)
    (opt_include_coinbase : bool) : option (list hash) :=
  match opt_txid with
  | Some txid => Some [txid]
  | None =>
      match get_block_at opt_height with
      | None => None
      | Some b =>
          Some (tx_hashes b
                ++ (if opt_include_coinbase
                    then [get_transaction_hash (miner_tx b)] else []))
      end
  end.

(** The depths [main] collects, one walk after the other; [None] when
    [main] returns 1 or a walk does not end within [fuel] rounds. *)
Fixpoint depths (fuel : nat) (txids : list hash) : option (list Z) :=
  match txids with
  | [] => Some []
  | start_txid :: rest =>
      match walk fuel 0 [start_txid] with
      | Depth depth =>
          match depths fuel rest with
          | Some more => Some (depth :: more)
          | None => None
          end
      | _ => None
      end
  end.

(** The transaction [h] is a coinbase as the walk sees one: it has a
    [txin_gen] among its inputs. *)
Definition has_coinbase_input (h : hash) : Prop :=
  exists tx height, get_tx h = Some tx /\ txin_gen height ∈ vin tx.

(** The transaction [h'] of the block [b] pays to the key [pubkey]: it is
    the miner transaction of [b] or one of its hash list, and one of its
    outputs has the key. *)
Definition pays (pubkey : Z) (b : block) (h' : hash) : Prop :=
  (h' = get_transaction_hash (miner_tx b)
   /\ exists out, out ∈ vout (miner_tx b) /\ target out = txout_to_key pubkey)
  \/ (h' ∈ tx_hashes b
      /\ exists tx2 out, get_tx h' = Some tx2 /\ out ∈ vout tx2
                         /\ target out = txout_to_key pubkey).

(** The transaction [h'] holds an output one of the inputs of [h] may
    spend: one of the key offsets of an input leads to an output key that
    [h'], a transaction of the block at the height of the output, pays
    to. *)
Definition refers (h h' : hash) : Prop :=
  exists tx amount key_offsets offset height pubkey b,
    get_tx h = Some tx
    /\ txin_to_key amount key_offsets ∈ vin tx
    /\ offset ∈ relative_output_offsets_to_absolute key_offsets
    /\ get_output_key amount offset = Some (height, pubkey)
    /\ get_block_at height = Some b
    /\ pays pubkey b h'.

(** A chain of references from [h] that ends, after [n] steps, at a
    transaction with a coinbase input. *)
Fixpoint leads_to_coinbase (n : nat) (h : hash) : Prop :=
  match n with
  | O => has_coinbase_input h
  | S n' => exists h', refers h h' /\ leads_to_coinbase n' h'
  end.

End Walk.

(** A database for examples.  The block at height 0 holds the coinbase 100,
    paying to the key 7; the block at height 1 holds the coinbase 101 and
    the transaction 200, which spends the output of key 7 and pays to the
    key 8; the transaction 300 spends the output of key 8; the transaction
    400 has no input at all. *)
Definition sample_tx (h : hash) : option transaction :=
  if h =? 100 then Some {| vin := [txin_gen 0];
                           vout := [{| amount := 0; target := txout_to_key 7 |}] |}
  else if h =? 101 then Some {| vin := [txin_gen 1];
                                vout := [{| amount := 0; target := txout_to_key 9 |}] |}
  else if h =? 200 then Some {| vin := [txin_to_key 0 [0]];
                                vout := [{| amount := 0; target := txout_to_key 8 |}] |}
  else if h =? 300 then Some {| vin := [txin_to_key 0 [1]]; vout := [] |}
  else if h =? 400 then Some {| vin := []; vout := [] |}
  else None.

#[export] Instance sample_source : Source := {|
  get_tx := sample_tx;
  get_output_key := fun _ offset =>
    if offset =? 0 then Some (0, 7) else if offset =? 1 then Some (1, 8) else None;
  get_block_at := fun height =>
    if height =? 0
    then Some {| miner_tx := {| vin := [txin_gen 0];
                                vout := [{| amount := 0; target := txout_to_key 7 |}] |};
                 tx_hashes := [] |}
    else if height =? 1
         then Some {| miner_tx := {| vin := [txin_gen 1];
                                     vout := [{| amount := 0; target := txout_to_key 9 |}] |};
                      tx_hashes := [200] |}
         else None;
  get_transaction_hash := fun tx =>
    match vin tx with
    | [txin_gen height] => 100 + height
    | _ => 0
    end;
  relative_output_offsets_to_absolute := fun offsets => offsets
|}.

End BlockchainDepth.

(** * Properties *)

Module MapFacts.

#[export] Instance key_le_total {A : Type} : Total (@key_le A).
Proof. intros p q. unfold key_le. lia. Qed.

#[export] Instance key_le_trans {A : Type} : Transitive (@key_le A).
Proof. intros p q r. unfold key_le. lia. Qed.

(** The iteration goes through the entries of the map, each once. *)
Lemma elem_of_iteration {A : Type} (m : gmap Z A) (k : Z) (v : A) :
  (k, v) ∈ iteration m <-> m !! k = Some v.
Proof.
  unfold iteration. rewrite merge_sort_Permutation. apply elem_of_map_to_list.
Qed.

Lemma iteration_sorted {A : Type} (m : gmap Z A) : StronglySorted key_le (iteration m).
Proof. apply StronglySorted_merge_sort; apply _. Qed.

Lemma iteration_nil {A : Type} (m : gmap Z A) : iteration m = [] <-> m = ∅.
Proof.
  split.
  - intros Hnil. apply map_empty. intros k. destruct (m !! k) as [v|] eqn:Hk; [|reflexivity].
    apply elem_of_iteration in Hk. rewrite Hnil in Hk. inversion Hk.
  - intros ->. unfold iteration. rewrite map_to_list_empty. reflexivity.
Qed.

(** The last entry of a sorted list has the greatest key. *)
Lemma sorted_last {A : Type} (l : list (Z * A)) (top : Z * A) :
  StronglySorted key_le l -> last l = Some top ->
  forall p, p ∈ l -> p.1 <= top.1.
Proof.
  induction 1 as [|x l Hsorted IH Hall]; intros Hlast p Hp; [inversion Hp|].
  destruct l as [|y l].
  - cbn in Hlast. inversion Hlast; subst. apply list_elem_of_singleton in Hp as ->. lia.
  - change (last (x :: y :: l)) with (last (y :: l)) in Hlast.
    apply elem_of_cons in Hp as [->|Hp].
    + assert (Hin : top ∈ y :: l) by (apply last_Some_elem_of; exact Hlast).
      rewrite Forall_forall in Hall. exact (Hall top Hin).
    + apply IH; assumption.
Qed.

(** On a sorted list [upper_bound] is 0 when every key is greater than [k];
    otherwise the entry in front of it has the greatest key that is at
    most [k]. *)
Lemma upper_bound_sorted {A : Type} (l : list (Z * A)) (k : Z) :
  StronglySorted key_le l ->
  match upper_bound l k with
  | O => forall p, p ∈ l -> k < p.1
  | S i => exists prev, l !! i = Some prev /\ prev.1 <= k
                        /\ forall p, p ∈ l -> p.1 <= k -> p.1 <= prev.1
  end.
Proof.
  induction 1 as [|x l Hsorted IH Hall]; cbn [upper_bound].
  - intros p Hp. inversion Hp.
  - rewrite Forall_forall in Hall. destruct (Z.ltb_spec k x.1) as [Hlt|Hge].
    + intros p Hp. apply elem_of_cons in Hp as [->|Hp]; [exact Hlt|].
      specialize (Hall p Hp). unfold key_le in Hall. lia.
    + destruct (upper_bound l k) as [|i].
      * exists x. split; [reflexivity|]. split; [exact Hge|].
        intros p Hp Hle. apply elem_of_cons in Hp as [->|Hp]; [lia|].
        specialize (IH p Hp). lia.
      * destruct IH as (prev & Hprev & Hle & Hmax). exists prev.
        split; [exact Hprev|]. split; [exact Hle|].
        intros p Hp Hpk. apply elem_of_cons in Hp as [->|Hp]; [|exact (Hmax p Hp Hpk)].
        apply list_elem_of_lookup_2 in Hprev. specialize (Hall prev Hprev).
        exact Hall.
Qed.

Lemma fold_left_invariant {A B : Type} (P : A -> Prop) (f : A -> B -> A) (l : list B) :
  (forall a b, P a -> P (f a b)) -> forall a, P a -> P (fold_left f l a).
Proof.
  intros Hstep. induction l as [|b l IH]; intros a Ha; cbn [fold_left]; [exact Ha|].
  apply IH, Hstep, Ha.
Qed.

End MapFacts.

Module CheckpointsFacts.
Import Checkpoints MapFacts.

Lemma check_block_no_entry c height h :
  m_points c !! height = None -> check_block c height h = (true, false).
Proof.
  intros Hnone. unfold check_block. rewrite Hnone.
  rewrite bool_decide_eq_false_2 by (intros Hne; apply Hne; reflexivity).
  reflexivity.
Qed.

Lemma check_block_entry c height h stored :
  m_points c !! height = Some stored ->
  check_block c height h = (bool_decide (stored = h), true).
Proof.
  intros Hsome. unfold check_block. rewrite Hsome.
  rewrite bool_decide_eq_true_2 by discriminate. cbn.
  destruct (bool_decide (stored = h)); reflexivity.
Qed.

(** C9.  [check_block(height, h, is_a_checkpoint)]: at a height without a
    checkpoint entry the flag is cleared and the call returns true whatever
    [h] is; at a height with an entry the flag is set and the call returns
    true exactly when [h] is the stored hash. *)
Theorem check_block_spec (c : checkpoints) (height : Z) (h : hash) :
  (m_points c !! height = None ->
     snd (check_block c height h) = false /\ fst (check_block c height h) = true)
  /\ (forall stored, m_points c !! height = Some stored ->
        snd (check_block c height h) = true
        /\ (fst (check_block c height h) = true <-> h = stored)).
Proof.
  split.
  - intros Hnone. rewrite (check_block_no_entry _ _ _ Hnone). split; reflexivity.
  - intros stored Hsome. rewrite (check_block_entry _ _ _ _ Hsome). cbn.
    split; [reflexivity|]. rewrite bool_decide_eq_true. split; congruence.
Qed.

(** On the two sample checkpoints: height 5 has no entry, height 10 has the
    hash 387. *)
Lemma check_block_spec_witness :
  (snd (check_block sample_checkpoints 5 42) = false
   /\ fst (check_block sample_checkpoints 5 42) = true)
  /\ (snd (check_block sample_checkpoints 10 387) = true
      /\ (fst (check_block sample_checkpoints 10 387) = true <-> 387 = 387))
  /\ fst (check_block sample_checkpoints 10 388) = false.
Proof.
  destruct (check_block_spec sample_checkpoints 5 42) as [Hno _].
  destruct (check_block_spec sample_checkpoints 10 387) as [_ Hyes].
  split; [apply Hno; vm_compute; reflexivity|].
  split; [apply (Hyes 387); vm_compute; reflexivity|].
  vm_compute; reflexivity.
Defined.

(** *** The zone of the checkpoints *)

Lemma rbegin_first_none c : rbegin_first c = None <-> m_points c = ∅.
Proof.
  unfold rbegin_first. rewrite fmap_None, last_None. apply iteration_nil.
Qed.

Lemma rbegin_first_some c top :
  rbegin_first c = Some top ->
  is_Some (m_points c !! top)
  /\ forall k, is_Some (m_points c !! k) -> k <= top.
Proof.
  unfold rbegin_first. intros Hlast. apply fmap_Some in Hlast as ([k0 h0] & Hlast & ->).
  cbn [fst]. split.
  - exists h0. apply elem_of_iteration. apply last_Some_elem_of. exact Hlast.
  - intros k [h Hk]. apply elem_of_iteration in Hk.
    exact (sorted_last _ _ (iteration_sorted _) Hlast _ Hk).
Qed.

(** X1.  [get_max_height] is 0 on an empty table; otherwise it is the height
    of a checkpoint, and no checkpoint lies above it. *)
Theorem get_max_height_is_greatest (c : checkpoints) :
  (m_points c = ∅ -> get_max_height c = 0)
  /\ (m_points c <> ∅ -> is_Some (m_points c !! get_max_height c))
  /\ (forall k, is_Some (m_points c !! k) -> k <= get_max_height c).
Proof.
  unfold get_max_height. destruct (rbegin_first c) as [top|] eqn:Htop.
  - destruct (rbegin_first_some _ _ Htop) as [Hin Hmax].
    split; [|split; [intros _; exact Hin|exact Hmax]].
    intros Hempty. apply rbegin_first_none in Hempty. congruence.
  - apply rbegin_first_none in Htop. split; [reflexivity|]. split; [contradiction|].
    intros k [h Hk]. rewrite Htop, lookup_empty in Hk. discriminate.
Qed.

(** On the two sample checkpoints the greatest height is 10. *)
Lemma get_max_height_is_greatest_witness :
  is_Some (m_points sample_checkpoints !! get_max_height sample_checkpoints)
  /\ 1 <= get_max_height sample_checkpoints.
Proof.
  destruct (get_max_height_is_greatest sample_checkpoints) as (_ & Hin & Hmax). split.
  - apply Hin. intros Hempty.
    pose proof (f_equal (fun m : gmap Z hash => m !! 1) Hempty) as Hone.
    vm_compute in Hone. discriminate.
  - apply Hmax. exists 771. vm_compute. reflexivity.
Defined.

(** X2.  [is_in_checkpoint_zone(height)] holds exactly when some checkpoint
    sits at [height] or above it; on an empty table it never holds. *)
Theorem checkpoint_zone_reaches_last_checkpoint (c : checkpoints) (height : Z) :
  is_in_checkpoint_zone c height = true
  <-> exists k, is_Some (m_points c !! k) /\ height <= k.
Proof.
  unfold is_in_checkpoint_zone. destruct (rbegin_first c) as [top|] eqn:Htop.
  - destruct (rbegin_first_some _ _ Htop) as [Hin Hmax]. rewrite Z.leb_le. split.
    + intros Hle. exists top. split; assumption.
    + intros (k & Hk & Hle). specialize (Hmax k Hk). lia.
  - apply rbegin_first_none in Htop. split; [discriminate|].
    intros (k & [h Hk] & _). rewrite Htop, lookup_empty in Hk. discriminate.
Qed.

(** With the sample checkpoints, whose last one is at height 10, height 5
    is in the zone. *)
Lemma checkpoint_zone_reaches_last_checkpoint_witness :
  is_in_checkpoint_zone sample_checkpoints 5 = true.
Proof.
  apply (proj2 (checkpoint_zone_reaches_last_checkpoint sample_checkpoints 5)).
  exists 10. split; [exists 387; vm_compute; reflexivity|lia].
Defined.

(** X3.  Above the last checkpoint [check_block] accepts every hash and
    reports that the height is no checkpoint. *)
Theorem check_block_passes_outside_zone (c : checkpoints) (height : Z) (h : hash) :
  is_in_checkpoint_zone c height = false ->
  check_block c height h = (true, false).
Proof.
  intros Hzone. apply check_block_no_entry.
  destruct (m_points c !! height) as [stored|] eqn:Hk; [exfalso|reflexivity].
  unfold is_in_checkpoint_zone in Hzone. destruct (rbegin_first c) as [top|] eqn:Htop.
  - destruct (rbegin_first_some _ _ Htop) as [_ Hmax].
    assert (height <= top) by (apply Hmax; eauto). apply Z.leb_gt in Hzone. lia.
  - apply rbegin_first_none in Htop. rewrite Htop, lookup_empty in Hk. discriminate.
Qed.

(** With the sample checkpoints height 11 is past the zone, and a block
    there passes with any hash. *)
Lemma check_block_passes_outside_zone_witness :
  is_in_checkpoint_zone sample_checkpoints 11 = false
  /\ check_block sample_checkpoints 11 42 = (true, false).
Proof.
  split; [vm_compute; reflexivity|].
  apply (check_block_passes_outside_zone sample_checkpoints 11 42). vm_compute. reflexivity.
Defined.

(** *** Alternative blocks *)

(** X4.  [is_alternative_block_allowed(blockchain_height, block_height)]
    holds exactly when [block_height] is not 0 and lies above every
    checkpoint the chain has reached, that is every checkpoint at a height
    up to [blockchain_height]. *)
Theorem alternative_block_allowed_above_passed_checkpoints
    (c : checkpoints) (blockchain_height block_height : Z) :
  is_alternative_block_allowed c blockchain_height block_height = true
  <-> block_height <> 0
      /\ forall k, is_Some (m_points c !! k) -> k <= blockchain_height -> k < block_height.
Proof.
  unfold is_alternative_block_allowed.
  destruct (Z.eqb_spec block_height 0) as [->|Hnz].
  { split; [discriminate|]. intros [Hne _]. contradiction. }
  pose proof (upper_bound_sorted (iteration (m_points c)) blockchain_height
                (iteration_sorted _)) as Hub.
  destruct (upper_bound (iteration (m_points c)) blockchain_height) as [|i].
  - cbn [Nat.eqb]. split; [|reflexivity]. intros _. split; [exact Hnz|].
    intros k [h Hk] Hle. apply elem_of_iteration in Hk. specialize (Hub _ Hk). cbn in Hub. lia.
  - cbn [Nat.eqb]. rewrite Nat.sub_succ, Nat.sub_0_r.
    destruct Hub as ([k0 h0] & Hprev & Hle & Hmax). rewrite Hprev. cbn [fst] in *.
    rewrite Z.ltb_lt. split.
    + intros Hlt. split; [exact Hnz|]. intros k [h Hk] Hkle.
      apply elem_of_iteration in Hk. specialize (Hmax _ Hk Hkle). cbn in Hmax. lia.
    + intros [_ Hall]. apply Hall; [|exact Hle].
      exists h0. apply elem_of_iteration. eapply list_elem_of_lookup_2. exact Hprev.
Qed.

(** With checkpoints at 1 and 10 and a chain of height 12, a block at
    height 11 may be replaced and one at height 10 may not. *)
Lemma alternative_block_allowed_above_passed_checkpoints_witness :
  is_alternative_block_allowed sample_checkpoints 12 11 = true
  /\ is_alternative_block_allowed sample_checkpoints 12 10 = false.
Proof.
  split; [|vm_compute; reflexivity].
  apply (proj2 (alternative_block_allowed_above_passed_checkpoints sample_checkpoints 12 11)).
  split; [discriminate|]. intros k Hk _.
  destruct (rbegin_first_some sample_checkpoints 10) as [_ Hmax]; [vm_compute; reflexivity|].
  specialize (Hmax k Hk). lia.
Defined.

(** *** Two tables *)

Lemma conflicts_loop_true c (points : list (Z * hash)) :
  conflicts_loop c points = true
  <-> forall k h stored, (k, h) ∈ points -> m_points c !! k = Some stored -> stored = h.
Proof.
  induction points as [|[k0 h0] rest IH]; cbn [conflicts_loop fst snd].
  - split; [|reflexivity]. intros _ k h stored Hin. inversion Hin.
  - destruct (m_points c !! k0) as [s0|] eqn:Hk0.
    + rewrite bool_decide_eq_true_2 by eauto. cbn [andb].
      destruct (decide (s0 = h0)) as [->|Hne].
      * rewrite bool_decide_eq_true_2 by reflexivity. cbn [negb]. rewrite IH. split.
        -- intros Hall k h stored Hin Hk. apply elem_of_cons in Hin as [Heq|Hin].
           ++ inversion Heq; subst. congruence.
           ++ exact (Hall k h stored Hin Hk).
        -- intros Hall k h stored Hin. apply Hall. right. exact Hin.
      * rewrite bool_decide_eq_false_2 by congruence. cbn [negb]. split; [discriminate|].
        intros Hall. exfalso. apply Hne. apply (Hall k0 h0 s0); [left|exact Hk0].
    + rewrite bool_decide_eq_false_2 by (intros [x Hx]; discriminate). cbn [andb].
      rewrite IH. split.
      * intros Hall k h stored Hin Hk. apply elem_of_cons in Hin as [Heq|Hin].
        -- inversion Heq; subst. congruence.
        -- exact (Hall k h stored Hin Hk).
      * intros Hall k h stored Hin. apply Hall. right. exact Hin.
Qed.

(** X5.  [check_for_conflicts(other)] holds exactly when the two tables give
    the same hash at every height both have a checkpoint for; so it does
    not matter which of the two tables is asked. *)
Theorem check_for_conflicts_agreement (c other : checkpoints) :
  (check_for_conflicts c other = true
   <-> forall k h h', m_points c !! k = Some h -> m_points other !! k = Some h' -> h = h')
  /\ check_for_conflicts c other = check_for_conflicts other c.
Proof.
  assert (Hchar : forall a b,
            check_for_conflicts a b = true
            <-> forall k h h', m_points a !! k = Some h -> m_points b !! k = Some h' -> h = h').
  { intros a b. unfold check_for_conflicts, get_points. rewrite conflicts_loop_true. split.
    - intros Hall k h h' Ha Hb. apply (Hall k h' h); [|exact Ha].
      apply elem_of_iteration. exact Hb.
    - intros Hall k h stored Hin Ha. apply elem_of_iteration in Hin.
      exact (Hall k stored h Ha Hin). }
  split; [apply Hchar|].
  destruct (check_for_conflicts c other) eqn:Hco, (check_for_conflicts other c) eqn:Hoc;
    try reflexivity; exfalso.
  - apply not_true_iff_false in Hoc. apply Hoc. apply (proj2 (Hchar other c)).
    pose proof (proj1 (Hchar c other) Hco) as Hagree.
    intros k h h' Ho Hc. symmetry. exact (Hagree k h' h Hc Ho).
  - apply not_true_iff_false in Hco. apply Hco. apply (proj2 (Hchar c other)).
    pose proof (proj1 (Hchar other c) Hoc) as Hagree.
    intros k h h' Hc Ho. symmetry. exact (Hagree k h' h Ho Hc).
Qed.

(** The sample checkpoints do not conflict with an empty set. *)
Lemma check_for_conflicts_agreement_witness :
  check_for_conflicts sample_checkpoints empty_checkpoints = true.
Proof.
  apply (proj2 (proj1 (check_for_conflicts_agreement sample_checkpoints empty_checkpoints))).
  intros k h h' _ Hother. vm_compute in Hother. discriminate.
Defined.

(** *** Adding a checkpoint *)

(** The value and the table [add_checkpoint] returns, case by case. *)
Lemma add_checkpoint_cases c height p d :
  match p with
  | None => add_checkpoint c height p d = (false, c)
  | Some h =>
      match m_points c !! height with
      | Some stored =>
          stored <> h /\ add_checkpoint c height p d = (false, c)
          \/ stored = h
             /\ exists ok dp, add_checkpoint c height p d
                = (ok, {| m_points := <[height := h]> (m_points c);
                          m_difficulty_points := dp |})
      | None =>
          exists ok dp, add_checkpoint c height p d
                = (ok, {| m_points := <[height := h]> (m_points c);
                          m_difficulty_points := dp |})
      end
  end.
Proof.
  unfold add_checkpoint. destruct p as [h|]; [|reflexivity].
  destruct (m_points c !! height) as [stored|] eqn:Hk.
  - rewrite bool_decide_eq_true_2 by eauto. cbn [andb].
    destruct (decide (stored = h)) as [->|Hne].
    + rewrite bool_decide_eq_true_2 by reflexivity. cbn [negb]. right.
      split; [reflexivity|]. cbn [m_points m_difficulty_points].
      destruct d as [[v|]|]; try (eexists _, _; reflexivity).
      match goal with |- context [if ?b then _ else _] => destruct b end;
        eexists _, _; reflexivity.
    + rewrite bool_decide_eq_false_2 by congruence. cbn [negb]. left. split; [exact Hne|reflexivity].
  - rewrite bool_decide_eq_false_2 by (intros [x Hx]; discriminate). cbn [andb].
    cbn [m_points m_difficulty_points].
    destruct d as [[v|]|]; try (eexists _, _; reflexivity).
    match goal with |- context [if ?b then _ else _] => destruct b end;
      eexists _, _; reflexivity.
Qed.

(** X6.  [add_checkpoint] returns true exactly when the hash string parses,
    the height has no checkpoint yet or has this very hash, and the
    difficulty string is empty or parses to a difficulty the height does
    not contradict. *)
Theorem add_checkpoint_accepts (c : checkpoints) (height : Z)
    (parsed_hash : option hash) (difficulty : option (option Z)) :
  fst (add_checkpoint c height parsed_hash difficulty) = true
  <-> exists h,
        parsed_hash = Some h
        /\ (m_points c !! height = None \/ m_points c !! height = Some h)
        /\ (difficulty = None
            \/ exists d, difficulty = Some (Some d)
                 /\ (m_difficulty_points c !! height = None
                     \/ m_difficulty_points c !! height = Some d)).
Proof.
  unfold add_checkpoint. destruct parsed_hash as [h|].
  2:{ cbn. split; [discriminate|]. intros (h & Hh & _). discriminate. }
  destruct (m_points c !! height) as [stored|] eqn:Hk.
  - rewrite bool_decide_eq_true_2 by eauto. cbn [andb].
    destruct (decide (stored = h)) as [->|Hne].
    + rewrite bool_decide_eq_true_2 by reflexivity. cbn [negb m_points m_difficulty_points].
      destruct difficulty as [[d|]|]; cbn [fst].
      * destruct (m_difficulty_points c !! height) as [sd|] eqn:Hd.
        -- rewrite bool_decide_eq_true_2 by eauto. cbn [andb].
           destruct (decide (sd = d)) as [->|Hned].
           ++ rewrite bool_decide_eq_true_2 by reflexivity. cbn. split; [|reflexivity].
              intros _. exists h. repeat split; eauto 8.
           ++ rewrite bool_decide_eq_false_2 by congruence. cbn. split; [discriminate|].
              intros (h' & _ & _ & [Hd'|(d' & Hd' & [Hn|Hs])]); congruence.
        -- rewrite bool_decide_eq_false_2 by (intros [x Hx]; discriminate). cbn.
           split; [|reflexivity]. intros _. exists h. repeat split; eauto 8.
      * split; [discriminate|]. intros (h' & _ & _ & [Hd'|(d' & Hd' & _)]); congruence.
      * split; [|reflexivity]. intros _. exists h. repeat split; eauto.
    + rewrite bool_decide_eq_false_2 by congruence. cbn. split; [discriminate|].
      intros (h' & Hh' & [Hn|Hs] & _); congruence.
  - rewrite bool_decide_eq_false_2 by (intros [x Hx]; discriminate).
    cbn [andb negb m_points m_difficulty_points].
    destruct difficulty as [[d|]|]; cbn [fst].
    + destruct (m_difficulty_points c !! height) as [sd|] eqn:Hd.
      * rewrite bool_decide_eq_true_2 by eauto. cbn [andb].
        destruct (decide (sd = d)) as [->|Hned].
        -- rewrite bool_decide_eq_true_2 by reflexivity. cbn. split; [|reflexivity].
           intros _. exists h. repeat split; eauto 8.
        -- rewrite bool_decide_eq_false_2 by congruence. cbn. split; [discriminate|].
           intros (h' & _ & _ & [Hd'|(d' & Hd' & [Hn|Hs])]); congruence.
      * rewrite bool_decide_eq_false_2 by (intros [x Hx]; discriminate). cbn.
        split; [|reflexivity]. intros _. exists h. repeat split; eauto 8.
    + split; [discriminate|]. intros (h' & _ & _ & [Hd'|(d' & Hd' & _)]); congruence.
    + split; [|reflexivity]. intros _. exists h. repeat split; eauto.
Qed.

(** On the sample checkpoints a new checkpoint at height 20 is accepted,
    and another hash at height 10 is refused. *)
Lemma add_checkpoint_accepts_witness :
  fst (add_checkpoint sample_checkpoints 20 (Some 5) (Some (Some 9))) = true
  /\ fst (add_checkpoint sample_checkpoints 10 (Some 5) None) = false.
Proof.
  split; [|vm_compute; reflexivity].
  apply (proj2 (add_checkpoint_accepts sample_checkpoints 20 (Some 5) (Some (Some 9)))).
  exists 5. split; [reflexivity|]. split; [left; vm_compute; reflexivity|].
  right. exists 9. split; [reflexivity|]. left. vm_compute. reflexivity.
Defined.

(** X7.  After [add_checkpoint] has returned true for a height and a hash,
    [check_block] at that height accepts this hash and no other, and its
    answers at the other heights are the ones it gave before. *)
Theorem add_checkpoint_then_check_block (c c' : checkpoints) (height : Z)
    (h : hash) (difficulty : option (option Z)) :
  add_checkpoint c height (Some h) difficulty = (true, c') ->
  (forall fetched, check_block c' height fetched = (bool_decide (h = fetched), true))
  /\ (forall k fetched, k <> height -> check_block c' k fetched = check_block c k fetched).
Proof.
  intros Hadd. pose proof (add_checkpoint_cases c height (Some h) difficulty) as Hcases.
  cbv beta iota in Hcases.
  assert (Hpoints : m_points c' = <[height := h]> (m_points c)).
  { destruct (m_points c !! height) as [s0|].
    - destruct Hcases as [[_ Hrej]|[_ (ok & dp & Hacc)]]; [congruence|].
      rewrite Hacc in Hadd. inversion Hadd. reflexivity.
    - destruct Hcases as (ok & dp & Hacc). rewrite Hacc in Hadd. inversion Hadd. reflexivity. }
  split.
  - intros fetched. unfold check_block. rewrite Hpoints, lookup_insert_eq.
    rewrite bool_decide_eq_true_2 by discriminate. cbn [negb].
    destruct (bool_decide (h = fetched)); reflexivity.
  - intros k fetched Hne. unfold check_block. rewrite Hpoints.
    rewrite lookup_insert_ne by congruence. reflexivity.
Qed.

(** Once hash 5 is added at height 20, a block there passes with hash 5
    and fails with hash 6. *)
Lemma add_checkpoint_then_check_block_witness :
  check_block (snd (add_checkpoint sample_checkpoints 20 (Some 5) None)) 20 5 = (true, true)
  /\ check_block (snd (add_checkpoint sample_checkpoints 20 (Some 5) None)) 20 6
     = (false, true).
Proof.
  destruct (add_checkpoint_then_check_block sample_checkpoints
              (snd (add_checkpoint sample_checkpoints 20 (Some 5) None)) 20 5 None)
    as [Hat _]; [vm_compute; reflexivity|].
  split; [exact (Hat 5)|exact (Hat 6)].
Defined.

(** X8.  [add_checkpoint] never changes the hash or the difficulty stored
    for a height, whatever it is called with and whatever it returns. *)
Theorem add_checkpoint_keeps_stored_entries (c : checkpoints) (height : Z)
    (parsed_hash : option hash) (difficulty : option (option Z)) (k : Z) :
  let c' := snd (add_checkpoint c height parsed_hash difficulty) in
  (forall stored, m_points c !! k = Some stored -> m_points c' !! k = Some stored)
  /\ (forall stored, m_difficulty_points c !! k = Some stored ->
        m_difficulty_points c' !! k = Some stored).
Proof.
  cbv zeta. unfold add_checkpoint. destruct parsed_hash as [h|]; [|split; intros; assumption].
  destruct (m_points c !! height) as [s0|] eqn:Hh.
  - rewrite bool_decide_eq_true_2 by eauto. cbn [andb].
    destruct (decide (s0 = h)) as [->|Hne].
    + rewrite bool_decide_eq_true_2 by reflexivity. cbn [negb m_points m_difficulty_points].
      assert (Hpoints : forall stored, m_points c !! k = Some stored ->
                <[height := h]> (m_points c) !! k = Some stored).
      { intros stored Hk. destruct (decide (k = height)) as [->|Hother].
        - rewrite lookup_insert_eq. congruence.
        - rewrite lookup_insert_ne by congruence. exact Hk. }
      destruct difficulty as [[d|]|]; cbn [snd m_points m_difficulty_points];
        try (split; [exact Hpoints|intros; assumption]).
      destruct (m_difficulty_points c !! height) as [sd|] eqn:Hd.
      * rewrite bool_decide_eq_true_2 by eauto. cbn [andb].
        destruct (decide (sd = d)) as [->|Hned].
        -- rewrite bool_decide_eq_true_2 by reflexivity. cbn [negb snd m_points m_difficulty_points].
           split; [exact Hpoints|]. intros stored Hk.
           destruct (decide (k = height)) as [->|Hother].
           ++ rewrite lookup_insert_eq. congruence.
           ++ rewrite lookup_insert_ne by congruence. exact Hk.
        -- rewrite bool_decide_eq_false_2 by congruence. cbn [negb snd m_points m_difficulty_points].
           split; [exact Hpoints|intros; assumption].
      * rewrite bool_decide_eq_false_2 by (intros [x Hx]; discriminate).
        cbn [andb snd m_points m_difficulty_points]. split; [exact Hpoints|].
        intros stored Hk. rewrite lookup_insert_ne by congruence. exact Hk.
    + rewrite bool_decide_eq_false_2 by congruence. cbn [negb snd]. split; intros; assumption.
  - rewrite bool_decide_eq_false_2 by (intros [x Hx]; discriminate).
    cbn [andb negb m_points m_difficulty_points].
    assert (Hpoints : forall stored, m_points c !! k = Some stored ->
              <[height := h]> (m_points c) !! k = Some stored).
    { intros stored Hk. rewrite lookup_insert_ne by congruence. exact Hk. }
    destruct difficulty as [[d|]|]; cbn [snd m_points m_difficulty_points];
      try (split; [exact Hpoints|intros; assumption]).
    destruct (m_difficulty_points c !! height) as [sd|] eqn:Hd.
    + rewrite bool_decide_eq_true_2 by eauto. cbn [andb].
      destruct (decide (sd = d)) as [->|Hned].
      * rewrite bool_decide_eq_true_2 by reflexivity. cbn [negb snd m_points m_difficulty_points].
        split; [exact Hpoints|]. intros stored Hk.
        destruct (decide (k = height)) as [->|Hother].
        -- rewrite lookup_insert_eq. congruence.
        -- rewrite lookup_insert_ne by congruence. exact Hk.
      * rewrite bool_decide_eq_false_2 by congruence. cbn [negb snd m_points m_difficulty_points].
        split; [exact Hpoints|intros; assumption].
    + rewrite bool_decide_eq_false_2 by (intros [x Hx]; discriminate).
      cbn [andb snd m_points m_difficulty_points]. split; [exact Hpoints|].
      intros stored Hk. rewrite lookup_insert_ne by congruence. exact Hk.
Qed.

(** The checkpoint at height 10 keeps its hash when another hash is put
    forward, and its difficulty when another difficulty is. *)
Lemma add_checkpoint_keeps_stored_entries_witness :
  m_points (snd (add_checkpoint sample_checkpoints 10 (Some 5) None)) !! 10 = Some 387
  /\ m_difficulty_points (snd (add_checkpoint sample_checkpoints 10 (Some 387) (Some (Some 4))))
       !! 10 = Some 174452.
Proof.
  split.
  - apply (proj1 (add_checkpoint_keeps_stored_entries sample_checkpoints 10 (Some 5) None 10)).
    vm_compute. reflexivity.
  - apply (proj2 (add_checkpoint_keeps_stored_entries sample_checkpoints 10 (Some 387)
                    (Some (Some 4)) 10)).
    vm_compute. reflexivity.
Defined.

(** X9.  A call for a new height whose difficulty string does not parse, or
    names another difficulty than the one stored for the height, returns
    false and still leaves the hash in the table: [check_block] accepts it
    from then on.  The difficulty table is unchanged. *)
Theorem add_checkpoint_rejected_difficulty_keeps_hash (c : checkpoints) (height : Z)
    (h : hash) (difficulty : option Z) :
  m_points c !! height = None ->
  (difficulty = None
   \/ exists stored, m_difficulty_points c !! height = Some stored
                     /\ Some stored <> difficulty) ->
  let c' := {| m_points := <[height := h]> (m_points c);
               m_difficulty_points := m_difficulty_points c |} in
  add_checkpoint c height (Some h) (Some difficulty) = (false, c')
  /\ fst (check_block c' height h) = true.
Proof.
  intros Hnew Hbad c'. split.
  - unfold add_checkpoint. rewrite Hnew.
    rewrite bool_decide_eq_false_2 by (intros [x Hx]; discriminate).
    cbn [andb negb m_points m_difficulty_points].
    destruct difficulty as [d|]; [|reflexivity].
    destruct Hbad as [Hd|(stored & Hd & Hne)]; [discriminate|]. rewrite Hd.
    rewrite bool_decide_eq_true_2 by eauto.
    rewrite bool_decide_eq_false_2 by congruence. reflexivity.
  - unfold check_block, c'. cbn [m_points]. rewrite lookup_insert_eq.
    rewrite bool_decide_eq_true_2 by discriminate. cbn [negb].
    rewrite bool_decide_eq_true_2 by reflexivity. reflexivity.
Qed.

(** A difficulty that does not parse is refused on an empty set, and the
    hash given with it stays at height 10. *)
Lemma add_checkpoint_rejected_difficulty_keeps_hash_witness :
  fst (add_checkpoint empty_checkpoints 10 (Some 5) (Some None)) = false
  /\ m_points (snd (add_checkpoint empty_checkpoints 10 (Some 5) (Some None))) !! 10
     = Some 5.
Proof.
  destruct (add_checkpoint_rejected_difficulty_keeps_hash empty_checkpoints 10 5 None)
    as [Hadd _]; [vm_compute; reflexivity|left; reflexivity|].
  split; [exact (f_equal fst Hadd)|].
  etransitivity; [exact (f_equal (fun r => m_points r.2 !! 10) Hadd)|].
  apply lookup_insert_eq.
Defined.

(** X10.  A call of [add_checkpoint] that returns true leaves
    [get_max_height] at the greater of its former value and the new
    height. *)
Theorem add_checkpoint_raises_max_height (c c' : checkpoints) (height : Z)
    (h : hash) (difficulty : option (option Z)) :
  0 <= height ->
  add_checkpoint c height (Some h) difficulty = (true, c') ->
  get_max_height c' = Z.max (get_max_height c) height.
Proof.
  intros Hpos Hadd. pose proof (add_checkpoint_cases c height (Some h) difficulty) as Hcases.
  cbv beta iota in Hcases.
  assert (Hpoints : m_points c' = <[height := h]> (m_points c)).
  { destruct (m_points c !! height) as [s0|].
    - destruct Hcases as [[_ Hrej]|[_ (ok & dp & Hacc)]]; [congruence|].
      rewrite Hacc in Hadd. inversion Hadd. reflexivity.
    - destruct Hcases as (ok & dp & Hacc). rewrite Hacc in Hadd. inversion Hadd. reflexivity. }
  assert (Hsome : exists top', rbegin_first c' = Some top').
  { destruct (rbegin_first c') as [top'|] eqn:Htop'; [eauto|].
    apply rbegin_first_none in Htop'. rewrite Hpoints in Htop'.
    destruct (insert_non_empty _ _ _ Htop'). }
  destruct Hsome as [top' Htop']. unfold get_max_height. rewrite Htop'.
  destruct (rbegin_first_some _ _ Htop') as [Hin' Hmax']. rewrite Hpoints in Hin', Hmax'.
  assert (Hup : height <= top').
  { apply Hmax'. rewrite lookup_insert_eq. eauto. }
  destruct (rbegin_first c) as [top|] eqn:Htop.
  - destruct (rbegin_first_some _ _ Htop) as [Hin Hmax].
    assert (Hold : top <= top').
    { apply Hmax'. destruct (decide (top = height)) as [->|Hother].
      - rewrite lookup_insert_eq. eauto.
      - rewrite lookup_insert_ne by congruence. exact Hin. }
    destruct (decide (top' = height)) as [Heq|Hother]; [lia|].
    rewrite lookup_insert_ne in Hin' by congruence. specialize (Hmax _ Hin'). lia.
  - apply rbegin_first_none in Htop. rewrite Htop in Hin'.
    destruct (decide (top' = height)) as [->|Hother]; [lia|].
    rewrite lookup_insert_ne, lookup_empty in Hin' by congruence. destruct Hin'; discriminate.
Qed.

(** Adding a checkpoint at height 20 to the sample checkpoints raises the
    greatest height to 20. *)
Lemma add_checkpoint_raises_max_height_witness :
  get_max_height (snd (add_checkpoint sample_checkpoints 20 (Some 5) None))
  = Z.max (get_max_height sample_checkpoints) 20.
Proof.
  apply (add_checkpoint_raises_max_height sample_checkpoints _ 20 5 None); [lia|].
  vm_compute. reflexivity.
Defined.

End CheckpointsFacts.

Module PruneFacts.
Import PruneKnownSpent MapFacts.

Section WithDatabase.
Context `{Database}.

(** What one iteration can add to the list of prune calls. *)
Lemma prune_entry_calls dry_run st amount spent_count :
  prune_calls (prune_entry dry_run st (amount, spent_count)) = prune_calls st
  \/ (prune_calls (prune_entry dry_run st (amount, spent_count))
        = prune_calls st ++ [(amount, db st)]
      /\ dry_run = false /\ amount <> 0
      /\ is_valid_decomposed_amount amount = false
      /\ get_num_outputs (db st) amount = spent_count).
Proof.
  unfold prune_entry.
  destruct (amount =? 0) eqn:Hz; cbn [orb]; [left; reflexivity|].
  destruct (is_valid_decomposed_amount amount) eqn:Hd; [left; reflexivity|].
  destruct (get_num_outputs (db st) amount >? spent_count) eqn:Hgt; [left; reflexivity|].
  destruct (get_num_outputs (db st) amount <? spent_count) eqn:Hlt; [left; reflexivity|].
  destruct dry_run; cbn [negb]; [left; reflexivity|].
  right. cbn. repeat split; try reflexivity; lia.
Qed.

Lemma prune_calls_fold dry_run known : forall st amount d',
  In (amount, d') (prune_calls (fold_left (prune_entry dry_run) known st)) ->
  In (amount, d') (prune_calls st)
  \/ (dry_run = false /\ amount <> 0
      /\ is_valid_decomposed_amount amount = false
      /\ exists spent_count,
           In (amount, spent_count) known /\ get_num_outputs d' amount = spent_count).
Proof.
  induction known as [|[a s] rest IH]; intros st amount d' Hin; cbn [fold_left] in Hin.
  - left; exact Hin.
  - destruct (IH _ _ _ Hin) as [Hold | (Hdry & Hnz & Hdec & spent & Hmem & Hcnt)].
    + destruct (prune_entry_calls dry_run st a s) as [Hsame | (Hadd & Hdry & Hnz & Hdec & Hcnt)].
      * left. rewrite <- Hsame. exact Hold.
      * rewrite Hadd in Hold. apply in_app_or in Hold as [Hold | Hnew].
        -- left; exact Hold.
        -- right. destruct Hnew as [Heq | []]. inversion Heq; subst.
           repeat split; try assumption. exists (get_num_outputs (db st) amount).
           split; [left; reflexivity | reflexivity].
    + right. repeat split; try assumption. exists spent. split; [right|]; assumption.
Qed.

(** An entry whose spent count exceeds the stored count never reaches
    [prune_outputs], eligible or not. *)
Lemma prune_entry_overspent dry_run st amount spent_count :
  get_num_outputs (db st) amount < spent_count ->
  db (prune_entry dry_run st (amount, spent_count)) = db st
  /\ prune_calls (prune_entry dry_run st (amount, spent_count)) = prune_calls st.
Proof.
  intros Hlt. unfold prune_entry.
  destruct ((amount =? 0) || is_valid_decomposed_amount amount); [split; reflexivity|].
  destruct (get_num_outputs (db st) amount >? spent_count) eqn:Hgt; [lia|].
  destruct (get_num_outputs (db st) amount <? spent_count) eqn:Hlt'; [split; reflexivity|lia].
Qed.

(** C10.  [prune_spent_outputs] calls [db->prune_outputs(amount)] only with
    dry-run off, for a nonzero amount that is not a valid decomposed amount,
    and on a database that stores exactly as many outputs of that amount as
    its known spent count.  An entry whose spent count exceeds the stored
    count leaves the database and the prune calls as they were, and, having
    passed the zero/decomposed filter, is reported through [MERROR].  An
    entry that meets all the conditions is pruned. *)
Theorem prune_only_when_fully_spent
    (d : BlockchainDB) (known_spent_outputs : list (Z * Z)) (verbose dry_run : bool) :
  (forall amount d',
      In (amount, d') (prune_calls (prune_spent_outputs d known_spent_outputs verbose dry_run)) ->
      dry_run = false /\ amount <> 0
      /\ is_valid_decomposed_amount amount = false
      /\ exists spent_count,
           In (amount, spent_count) known_spent_outputs
           /\ get_num_outputs d' amount = spent_count)
  /\ (forall st amount spent_count,
        get_num_outputs (db st) amount < spent_count ->
        let st' := prune_entry dry_run st (amount, spent_count) in
        db st' = db st /\ prune_calls st' = prune_calls st
        /\ (amount <> 0 -> is_valid_decomposed_amount amount = false ->
            reported st' = reported st ++ [amount]))
  /\ (forall st amount,
        dry_run = false -> amount <> 0 -> is_valid_decomposed_amount amount = false ->
        let st' := prune_entry dry_run st (amount, get_num_outputs (db st) amount) in
        db st' = prune_outputs (db st) amount
        /\ prune_calls st' = prune_calls st ++ [(amount, db st)]).
Proof.
  split; [|split].
  - intros amount d' Hin. unfold prune_spent_outputs in Hin.
    apply prune_calls_fold in Hin as [[] | Hok]. exact Hok.
  - intros st amount spent_count Hlt. cbn zeta.
    destruct (prune_entry_overspent dry_run st amount spent_count Hlt) as [Hdb Hcalls].
    repeat split; try assumption.
    intros Hnz Hdec. unfold prune_entry.
    destruct (Z.eqb_spec amount 0) as [|_]; [contradiction|]. rewrite Hdec. cbn [orb].
    destruct (get_num_outputs (db st) amount >? spent_count) eqn:Hgt; [lia|].
    destruct (get_num_outputs (db st) amount <? spent_count) eqn:Hlt'; [reflexivity|lia].
  - intros st amount Hdry Hnz Hdec. cbn zeta. unfold prune_entry.
    destruct (Z.eqb_spec amount 0) as [|_]; [contradiction|]. rewrite Hdec, Hdry.
    cbn [orb negb]. rewrite Z.gtb_ltb, !Z.ltb_irrefl. split; reflexivity.
Qed.

(** *** The dry run *)

Lemma prune_entry_dry st entry :
  db (prune_entry true st entry) = db st
  /\ prune_calls (prune_entry true st entry) = prune_calls st.
Proof.
  destruct entry as [a s]. unfold prune_entry.
  destruct ((a =? 0) || is_valid_decomposed_amount a); [split; reflexivity|].
  destruct (get_num_outputs (db st) a >? s); [split; reflexivity|].
  destruct (get_num_outputs (db st) a <? s); split; reflexivity.
Qed.

(** A step of the real run next to the same step of the dry run. *)
Lemma prune_entry_preview (dry real : run) (a s : Z) :
  get_num_outputs (db real) a = get_num_outputs (db dry) a ->
  counts real = counts dry -> reported real = reported dry ->
  counts (prune_entry false real (a, s)) = counts (prune_entry true dry (a, s))
  /\ reported (prune_entry false real (a, s)) = reported (prune_entry true dry (a, s))
  /\ (db (prune_entry false real (a, s)) = db real
      \/ db (prune_entry false real (a, s)) = prune_outputs (db real) a).
Proof.
  intros Hnum Hcounts Hrep. unfold prune_entry. rewrite Hnum, Hcounts, Hrep.
  destruct ((a =? 0) || is_valid_decomposed_amount a); [repeat split; left; reflexivity|].
  destruct (get_num_outputs (db dry) a >? s); [repeat split; left; reflexivity|].
  destruct (get_num_outputs (db dry) a <? s); [repeat split; left; reflexivity|].
  cbn. repeat split. right. reflexivity.
Qed.

Lemma prune_fold_preview (known : list (Z * Z)) : forall dry real : run,
  NoDup (map fst known) ->
  (forall d0 a a', a <> a' ->
     get_num_outputs (prune_outputs d0 a) a' = get_num_outputs d0 a') ->
  (forall a, In a (map fst known) ->
     get_num_outputs (db real) a = get_num_outputs (db dry) a) ->
  counts real = counts dry -> reported real = reported dry ->
  let dry' := fold_left (prune_entry true) known dry in
  let real' := fold_left (prune_entry false) known real in
  db dry' = db dry /\ prune_calls dry' = prune_calls dry
  /\ counts real' = counts dry' /\ reported real' = reported dry'.
Proof.
  induction known as [|[a s] rest IH]; intros dry real Hnodup Hind Hnum Hcounts Hrep;
    cbn [fold_left].
  - repeat split; assumption.
  - cbn [map fst] in Hnodup. apply NoDup_cons in Hnodup as [Hfresh Hnodup].
    destruct (prune_entry_dry dry (a, s)) as [Hdb Hcalls].
    destruct (prune_entry_preview dry real a s) as (Hc1 & Hr1 & Hdb1);
      [apply Hnum; left; reflexivity|assumption|assumption|].
    destruct (IH (prune_entry true dry (a, s)) (prune_entry false real (a, s)) Hnodup Hind)
      as (Hd & Hp & Hc & Hr); try assumption.
    + intros a' Hin. rewrite Hdb. destruct Hdb1 as [->| ->].
      * apply Hnum. right. exact Hin.
      * rewrite Hind; [apply Hnum; right; exact Hin|].
        intros ->. apply Hfresh. apply list_elem_of_In. exact Hin.
    + cbv zeta. rewrite Hd, Hp, Hdb, Hcalls. repeat split; assumption.
Qed.

(** X12.  When pruning one amount leaves the output counts of the other
    amounts alone, a dry run over a map of known spent counts leaves the
    database untouched, calls [prune_outputs] for nothing, and ends with
    the tallies and the reports of the real run. *)
Theorem dry_run_previews_the_run (d : BlockchainDB) (known_spent_outputs : list (Z * Z))
    (verbose : bool) :
  NoDup (map fst known_spent_outputs) ->
  (forall d0 a a', a <> a' ->
     get_num_outputs (prune_outputs d0 a) a' = get_num_outputs d0 a') ->
  let dry := prune_spent_outputs d known_spent_outputs verbose true in
  let real := prune_spent_outputs d known_spent_outputs verbose false in
  db dry = d /\ prune_calls dry = []
  /\ counts dry = counts real /\ reported dry = reported real.
Proof.
  intros Hnodup Hind. cbv zeta. unfold prune_spent_outputs.
  destruct (prune_fold_preview known_spent_outputs
              {| db := d; prune_calls := []; reported := []; counts := no_tallies |}
              {| db := d; prune_calls := []; reported := []; counts := no_tallies |}
              Hnodup Hind) as (Hd & Hp & Hc & Hr); try reflexivity.
  cbv zeta in *. cbn [db prune_calls] in Hd, Hp. repeat split; congruence.
Qed.

End WithDatabase.

(** On the example table: amount 11 holds 3 outputs, all 3 known spent, and
    is pruned; amount 12 holds 4 outputs with 5 claimed spent, and is
    reported and left alone. *)
Lemma prune_only_when_fully_spent_witness :
  (false = false /\ 11 <> 0
   /\ is_valid_decomposed_amount 11 = false
   /\ exists spent_count,
        In (11, spent_count) [(10, 0); (11, 3); (12, 5); (13, 0)]
        /\ get_num_outputs sample_outputs 11 = spent_count)
  /\ reported (prune_entry false sample_start (12, 5)) = [12]
  /\ prune_calls (prune_entry false sample_start (11, 3)) = [(11, sample_outputs)].
Proof.
  destruct (prune_only_when_fully_spent
              sample_outputs [(10, 0); (11, 3); (12, 5); (13, 0)] false false)
    as (Honly & Hover & Hprune).
  split; [|split].
  - apply (Honly 11 sample_outputs). vm_compute. left. reflexivity.
  - apply (Hover sample_start 12 5).
    + vm_compute. reflexivity.
    + discriminate.
    + vm_compute. reflexivity.
  - apply (Hprune sample_start 11); [reflexivity|discriminate|vm_compute; reflexivity].
Defined.

(** On the example table the dry run finds the 3 prunable outputs of
    amount 11, as the real run does. *)
Lemma dry_run_previews_the_run_witness :
  counts (prune_spent_outputs sample_outputs [(10, 0); (11, 3); (12, 5); (13, 0)] false true)
  = counts (prune_spent_outputs sample_outputs [(10, 0); (11, 3); (12, 5); (13, 0)]
              false false)
  /\ num_prunable_outputs
       (counts (prune_spent_outputs sample_outputs [(10, 0); (11, 3); (12, 5); (13, 0)]
                  false true)) = 3.
Proof.
  split; [|vm_compute; reflexivity].
  refine (proj1 (proj2 (proj2 (dry_run_previews_the_run sample_outputs
                   [(10, 0); (11, 3); (12, 5); (13, 0)] false _ _)))).
  - repeat constructor; cbn; intros Hin; inversion Hin; subst;
      repeat match goal with H : _ ∈ _ |- _ => inversion H; clear H; subst end.
  - intros d0 a a' _. reflexivity.
Defined.

(** *** The scan for spent outputs *)

Lemma wrap64_succ (n : nat) : wrap64 (wrap64 (Z.of_nat n) + 1) = wrap64 (Z.of_nat (n + 1)).
Proof.
  unfold wrap64. rewrite Zplus_mod_idemp_l. f_equal. lia.
Qed.

Lemma tallied_entry a outputs c s :
  tallied a outputs c s ->
  default (0, 0) (outputs !! a) = (wrap64 (Z.of_nat c), wrap64 (Z.of_nat s)).
Proof.
  unfold tallied. intros ->. destruct c, s; reflexivity.
Qed.

Lemma tallied_count_spend a b outputs c s :
  tallied a outputs c s ->
  tallied a (count_spend outputs b) c (if decide (b = a) then s + 1 else s).
Proof.
  intros Ht. unfold count_spend. cbv zeta. destruct (decide (b = a)) as [->|Hne].
  - rewrite (tallied_entry _ _ _ _ Ht). cbn [fst snd]. unfold tallied.
    rewrite lookup_insert_eq, wrap64_succ.
    replace ((s + 1) =? 0)%nat with false by (symmetry; apply Nat.eqb_neq; lia).
    rewrite andb_false_r. reflexivity.
  - unfold tallied. rewrite lookup_insert_ne by exact Hne. exact Ht.
Qed.

Lemma tallied_count_output a b outputs c s :
  tallied a outputs c s ->
  tallied a (count_output outputs b) (if decide (b = a) then c + 1 else c) s.
Proof.
  intros Ht. unfold count_output. cbv zeta. destruct (decide (b = a)) as [->|Hne].
  - rewrite (tallied_entry _ _ _ _ Ht). cbn [fst snd]. unfold tallied.
    rewrite lookup_insert_eq, wrap64_succ.
    replace ((c + 1) =? 0)%nat with false by (symmetry; apply Nat.eqb_neq; lia).
    reflexivity.
  - unfold tallied. rewrite lookup_insert_ne by exact Hne. exact Ht.
Qed.

Lemma tallied_scan_input a outputs c s i :
  a <> 0 -> tallied a outputs c s ->
  tallied a (scan_input outputs i) c (s + length (List.filter (spends_of a) [i])).
Proof.
  intros Hnz Ht. unfold scan_input. cbn [List.filter]. destruct i as [h| | |amount offsets];
    cbn [spends_of length]; rewrite ?Nat.add_0_r; try exact Ht.
  destruct (Z.eqb_spec amount 0) as [->|Hamount].
  - destruct (Z.eqb_spec 0 a) as [|_]; [congruence|]. cbn. rewrite Nat.add_0_r. exact Ht.
  - pose proof (tallied_count_spend a amount outputs c s Ht) as Hstep.
    destruct (decide (amount = a)) as [->|Hne].
    + rewrite Z.eqb_refl. exact Hstep.
    + destruct (Z.eqb_spec amount a) as [|_]; [contradiction|]. cbn. rewrite Nat.add_0_r.
      exact Hstep.
Qed.

Lemma tallied_inputs a (inputs : list txin_v) : forall outputs c s,
  a <> 0 -> tallied a outputs c s ->
  tallied a (fold_left scan_input inputs outputs) c
    (s + length (List.filter (spends_of a) inputs)).
Proof.
  induction inputs as [|i rest IH]; intros outputs c s Hnz Ht; cbn [fold_left].
  - cbn. rewrite Nat.add_0_r. exact Ht.
  - pose proof (IH _ _ _ Hnz (tallied_scan_input a outputs c s i Hnz Ht)) as Hrest.
    change (i :: rest) with ([i] ++ rest). rewrite List.filter_app, length_app, Nat.add_assoc.
    exact Hrest.
Qed.

Lemma tallied_scan_output a outputs c s miner v out :
  a <> 0 -> tallied a outputs c s ->
  tallied a (scan_output miner v outputs out)
    (c + if miner && (2 <=? v) then 0 else length (List.filter (counts_as a) [out])) s.
Proof.
  intros Hnz Ht. unfold scan_output. cbv zeta. cbn [List.filter]. unfold counts_as.
  destruct (miner && (2 <=? v)).
  - cbn. rewrite Nat.add_0_r. exact Ht.
  - destruct (Z.eqb_spec (amount out) 0) as [Hz|Hamount]; cbn [orb].
    + rewrite Hz. destruct (Z.eqb_spec 0 a) as [|_]; [congruence|]. cbn.
      rewrite Nat.add_0_r. exact Ht.
    + destruct (target out); cbn [negb andb]; rewrite ?andb_false_r; cbn [length];
        rewrite ?Nat.add_0_r; try exact Ht.
      rewrite andb_true_r.
      pose proof (tallied_count_output a (amount out) outputs c s Ht) as Hstep.
      destruct (decide (amount out = a)) as [Heq|Hne].
      * rewrite Heq, Z.eqb_refl. cbn [length]. rewrite Heq in Hstep. exact Hstep.
      * destruct (Z.eqb_spec (amount out) a) as [|_]; [contradiction|]. cbn.
        rewrite Nat.add_0_r. exact Hstep.
Qed.

Lemma tallied_outputs a miner v (outs : list tx_out) : forall outputs c s,
  a <> 0 -> tallied a outputs c s ->
  tallied a (fold_left (scan_output miner v) outs outputs)
    (c + if miner && (2 <=? v) then 0 else length (List.filter (counts_as a) outs)) s.
Proof.
  induction outs as [|out rest IH]; intros outputs c s Hnz Ht; cbn [fold_left].
  - destruct (miner && (2 <=? v)); cbn; rewrite Nat.add_0_r; exact Ht.
  - pose proof (IH _ _ _ Hnz (tallied_scan_output a outputs c s miner v out Hnz Ht)) as Hrest.
    destruct (miner && (2 <=? v)).
    + rewrite Nat.add_0_r in Hrest. exact Hrest.
    + change (out :: rest) with ([out] ++ rest).
      rewrite List.filter_app, length_app, Nat.add_assoc. exact Hrest.
Qed.

Lemma tallied_transaction a tx outputs c s :
  a <> 0 -> tallied a outputs c s ->
  tallied a (scan_transaction outputs tx) (c + counted_outputs_of a tx)
    (s + length (List.filter (spends_of a) (vin tx))).
Proof.
  intros Hnz Ht. unfold scan_transaction. cbv zeta.
  pose proof (tallied_outputs a
                ((length (vin tx) =? 1)%nat
                 && match vin tx with txin_gen _ :: _ => true | _ => false end)
                (version tx) (vout tx) _ _ _ Hnz
                (tallied_inputs a (vin tx) _ _ _ Hnz Ht)) as Hall.
  unfold counted_outputs_of.
  destruct (vin tx) as [|[h| | |amount offsets] [|second rest]]; cbn [length Nat.eqb andb] in Hall;
    exact Hall.
Qed.

Lemma tallied_transactions a (transactions : list (hash * transaction)) : forall outputs c s,
  a <> 0 -> tallied a outputs c s ->
  tallied a (fold_left (fun outputs entry => scan_transaction outputs entry.2)
               transactions outputs)
    (c + counted_outputs a transactions) (s + spends a transactions).
Proof.
  induction transactions as [|[txid tx] rest IH]; intros outputs c s Hnz Ht; cbn [fold_left].
  - unfold spends. cbn. rewrite !Nat.add_0_r. exact Ht.
  - pose proof (IH _ _ _ Hnz (tallied_transaction a tx outputs c s Hnz Ht)) as Hrest.
    unfold spends in *. cbn [map concat counted_outputs foldr snd].
    rewrite List.filter_app, length_app, !Nat.add_assoc. exact Hrest.
Qed.

Lemma scan_input_zero outputs i : outputs !! 0 = None -> scan_input outputs i !! 0 = None.
Proof.
  intros Hz. unfold scan_input. destruct i as [h| | |amount offsets]; try exact Hz.
  destruct (Z.eqb_spec amount 0) as [|Hne]; [exact Hz|].
  unfold count_spend. cbv zeta. rewrite lookup_insert_ne by exact Hne. exact Hz.
Qed.

Lemma scan_output_zero miner v outputs out :
  outputs !! 0 = None -> scan_output miner v outputs out !! 0 = None.
Proof.
  intros Hz. unfold scan_output. cbv zeta.
  destruct (Z.eqb_spec (if miner && (2 <=? v) then 0 else amount out) 0) as [|Hne];
    cbn [orb]; [exact Hz|].
  destruct (negb _); [exact Hz|].
  unfold count_output. cbv zeta. rewrite lookup_insert_ne by exact Hne. exact Hz.
Qed.

(** X11.  [scan_for_spent_outputs] never lists the amount 0; it lists every
    other amount that some [txin_to_key] input spends or some counted
    output carries, with the number of the inputs spending it, counted in
    64 bits; and it lists no other amount. *)
Theorem scan_counts_spending_inputs (transactions : list (hash * transaction)) (a : Z) :
  scan_for_spent_outputs transactions !! a
  = if (a =? 0) || ((spends a transactions =? 0)%nat
                    && (counted_outputs a transactions =? 0)%nat)
    then None
    else Some (wrap64 (Z.of_nat (spends a transactions))).
Proof.
  unfold scan_for_spent_outputs. cbv zeta. rewrite lookup_fmap.
  destruct (Z.eqb_spec a 0) as [->|Hnz]; cbn [orb].
  - rewrite (fold_left_invariant (fun o : gmap Z (Z * Z) => o !! 0 = None)); [reflexivity| |].
    + intros o [txid tx] Ho. unfold scan_transaction. cbv zeta. cbn [snd].
      apply fold_left_invariant; [intros; apply scan_output_zero; assumption|].
      apply fold_left_invariant; [intros; apply scan_input_zero; assumption|exact Ho].
    + apply lookup_empty.
  - pose proof (tallied_transactions a transactions ∅ 0 0 Hnz (lookup_empty a)) as Ht.
    unfold tallied in Ht. cbn [Nat.add] in Ht. rewrite Ht.
    destruct (spends a transactions =? 0)%nat, (counted_outputs a transactions =? 0)%nat;
      reflexivity.
Qed.

(** *** Known spent counts from a file *)

Lemma fgets_read_left (n : nat) : forall stream buffer unread,
  fgets_read n stream = (buffer, unread) -> (length unread <= length stream)%nat
  /\ (n <> O -> stream <> [] -> length unread < length stream)%nat.
Proof.
  induction n as [|n IH]; intros stream buffer unread Hread; cbn [fgets_read] in Hread.
  - inversion Hread; subst. split; [lia|]. intros Hn; contradiction.
  - destruct stream as [|ch rest]; [inversion Hread; subst; split; [cbn; lia|intros _ Hs; contradiction]|].
    destruct (Byte.eqb ch Byte.x0a).
    + inversion Hread; subst. cbn [length]. split; [lia|intros _ _; lia].
    + destruct (fgets_read n rest) as [more left'] eqn:Hrest. inversion Hread; subst.
      destruct (IH _ _ _ Hrest) as [Hle _]. cbn [length]. split; [lia|intros _ _; lia].
Qed.

(** The length of the file is fuel enough for the loop. *)
Lemma fgets_lines_fuel (fuel : nat) : forall fuel' stream,
  (length stream <= fuel)%nat -> (length stream <= fuel')%nat ->
  fgets_lines fuel stream = fgets_lines fuel' stream.
Proof.
  induction fuel as [|fuel IH]; intros fuel' stream Hf Hf'.
  - destruct stream; [|cbn in Hf; lia]. destruct fuel'; reflexivity.
  - destruct stream as [|ch rest]; [destruct fuel'; reflexivity|].
    destruct fuel' as [|fuel']; [cbn in Hf'; lia|].
    cbn [fgets_lines fgets]. destruct (fgets_read (256 - 1) (ch :: rest)) as [buffer unread] eqn:Hread.
    f_equal. destruct (fgets_read_left _ _ _ _ Hread) as [_ Hlt].
    assert (length unread < length (ch :: rest))%nat by (apply Hlt; [lia|discriminate]).
    cbn [length] in *. apply IH; lia.
Qed.

Section WithScanf.
Context `{Scanf}.

Lemma loaded_add lines amount outputs n :
  loaded lines (amount, outputs) -> amount <> INVALID_AMOUNT ->
  loaded lines (amount, add_outputs outputs amount n).
Proof.
  intros [Hamount Hkeys] Hvalid. unfold loaded. cbn [fst snd] in *. split; [exact Hamount|].
  intros a m. unfold add_outputs. destruct (decide (a = amount)) as [->|Hne].
  - rewrite lookup_insert_eq. intros Hm. inversion Hm; subst. split.
    + destruct Hamount as [|Hann]; [contradiction|exact Hann].
    + apply Z.mod_pos_bound. lia.
  - rewrite lookup_insert_ne by congruence. apply Hkeys.
Qed.

Lemma loaded_line lines st line :
  line ∈ lines -> loaded lines st -> loaded lines (load_line st line).
Proof.
  intros Hin Hst. destruct st as [amount outputs]. unfold load_line.
  destruct line as [|ch rest]; [exact Hst|].
  destruct (sscanf_amount (ch :: rest)) as [a|] eqn:Hscan.
  - destruct Hst as [_ Hkeys]. split; [|exact Hkeys]. cbn [fst].
    destruct (decide (a = INVALID_AMOUNT)) as [->|Hvalid]; [left; reflexivity|].
    right. split; [exact Hvalid|]. exists (ch :: rest). split; assumption.
  - destruct (Z.eqb_spec amount INVALID_AMOUNT) as [|Hvalid]; [exact Hst|].
    destruct (sscanf_offsets (ch :: rest)) as [[offset num_offsets]|].
    + destruct (num_offsets <? wrap64 (INVALID_AMOUNT - offset)).
      * apply loaded_add; assumption.
      * destruct (sscanf_offset (ch :: rest)); [apply loaded_add; assumption|exact Hst].
    + destruct (sscanf_offset (ch :: rest)); [apply loaded_add; assumption|exact Hst].
Qed.

Lemma loaded_lines lines (more : list (list Byte.byte)) : forall st,
  (forall line, line ∈ more -> line ∈ lines) ->
  loaded lines st -> loaded lines (fold_left load_line more st).
Proof.
  induction more as [|line more IH]; intros st Hsub Hst; cbn [fold_left]; [exact Hst|].
  apply IH.
  - intros l Hl. apply Hsub. right. exact Hl.
  - apply loaded_line; [apply Hsub; left|exact Hst].
Qed.

(** X13.  Every amount [load_outputs_from_file] returns was named by a
    header line of the file and is not [INVALID_AMOUNT], and its count fits
    64 bits: offsets in front of the first header, and a file that does not
    open, add nothing. *)
Theorem loaded_amounts_are_announced (file : option (list Byte.byte)) (a n : Z) :
  load_outputs_from_file file !! a = Some n ->
  a <> INVALID_AMOUNT
  /\ 0 <= n < 2 ^ 64
  /\ exists bytes line,
       file = Some bytes
       /\ line ∈ fgets_lines (length bytes) bytes
       /\ sscanf_amount line = Some a.
Proof.
  unfold load_outputs_from_file. destruct file as [bytes|].
  2:{ rewrite lookup_empty. discriminate. }
  intros Hn.
  destruct (loaded_lines (fgets_lines (length bytes) bytes) (fgets_lines (length bytes) bytes)
              (INVALID_AMOUNT, ∅)) as [_ Hkeys].
  - intros line Hline. exact Hline.
  - split; [left; reflexivity|]. intros a' n'. cbn [snd]. rewrite lookup_empty. discriminate.
  - destruct (Hkeys a n Hn) as [[Hvalid (line & Hline & Hscan)] Hrange].
    split; [exact Hvalid|]. split; [exact Hrange|]. exists bytes, line. repeat split; assumption.
Qed.

End WithScanf.

(** In the example file the amount 5 is announced by the second line and
    gets its four offsets; the offset in front of the header is dropped. *)
Lemma loaded_amounts_are_announced_witness :
  load_outputs_from_file (Some sample_file) !! 5 = Some 4
  /\ 5 <> INVALID_AMOUNT
  /\ 0 <= 4 < 2 ^ 64
  /\ exists bytes line,
       Some sample_file = Some bytes
       /\ line ∈ fgets_lines (length bytes) bytes
       /\ sscanf_amount line = Some 5.
Proof.
  split; [vm_compute; reflexivity|].
  apply (loaded_amounts_are_announced (Some sample_file) 5 4). vm_compute. reflexivity.
Defined.

(** *** The tool as a whole *)

Section WithBoth.
Context `{Database} `{Scanf}.

(** X25.  Run without an input file, the tool prunes an amount only when
    the database stores exactly as many outputs of it as the transactions
    of the database have [txin_to_key] inputs spending it (counted in 64
    bits), the amount being neither 0 nor a valid decomposed amount.  Run
    on an input file that does not open, it prunes nothing and still exits
    with status 0.  Without a database it exits with status 1. *)
Theorem main_prunes_what_the_scan_found_spent (d : BlockchainDB)
    (transactions : list (hash * transaction)) (opt_verbose opt_dry_run : bool) :
  (exists r,
      main (Some d) transactions None opt_verbose opt_dry_run = (0, Some r)
      /\ forall a d', In (a, d') (prune_calls r) ->
           opt_dry_run = false /\ a <> 0 /\ is_valid_decomposed_amount a = false
           /\ get_num_outputs d' a = wrap64 (Z.of_nat (spends a transactions))
           /\ (spends a transactions <> O \/ counted_outputs a transactions <> O))
  /\ (exists r,
        main (Some d) transactions (Some None) opt_verbose opt_dry_run = (0, Some r)
        /\ db r = d /\ prune_calls r = [] /\ reported r = [] /\ counts r = no_tallies)
  /\ main None transactions None opt_verbose opt_dry_run = (1, None).
Proof.
  split; [|split; [|reflexivity]].
  - eexists. split; [reflexivity|]. intros a d' Hin.
    unfold prune_spent_outputs in Hin.
    apply prune_calls_fold in Hin as [[]|(Hdry & Hnz & Hdec & spent & Hmem & Hcount)].
    split; [exact Hdry|]. split; [exact Hnz|]. split; [exact Hdec|].
    apply list_elem_of_In, elem_of_iteration in Hmem.
    unfold scan_for_spent_outputs in Hmem. cbv zeta in Hmem. rewrite lookup_fmap in Hmem.
    pose proof (tallied_transactions a transactions ∅ 0 0 Hnz (lookup_empty a)) as Ht.
    unfold tallied in Ht. cbn [Nat.add] in Ht. rewrite Ht in Hmem.
    destruct (counted_outputs a transactions) as [|c] eqn:Hc,
             (spends a transactions) as [|s] eqn:Hs; cbn [Nat.eqb andb fmap option_fmap option_map] in Hmem;
      try discriminate; cbn [snd] in Hmem; injection Hmem as <-;
      (split; [exact Hcount|]); first [left; discriminate|right; discriminate].
  - eexists. split; [reflexivity|]. unfold load_outputs_from_file, iteration.
    rewrite map_to_list_empty. repeat split.
Qed.

End WithBoth.

(** On the example transactions and a database with two outputs of amount
    70, the amount 70 is pruned and no other. *)
Lemma main_prunes_what_the_scan_found_spent_witness :
  exists r,
    main (Some sample_counts) sample_transactions None false false = (0, Some r)
    /\ map fst (prune_calls r) = [70].
Proof.
  destruct (main_prunes_what_the_scan_found_spent sample_counts
              sample_transactions false false) as [(r & Hrun & _) _].
  exists r. split; [exact Hrun|]. injection Hrun as <-. vm_compute. reflexivity.
Defined.

End PruneFacts.

(** ** The container writer *)

Module BootstrapFacts.
Import Bootstrap Packages.

Ltac writer :=
  unfold mbind, mret, Writer_bind, Writer_ret, get, modify, throw, undefined in *.

Lemma to_long_small z : - 2 ^ 63 <= z < 2 ^ 63 -> to_long z = z.
Proof. intros Hz. unfold to_long. rewrite Z.mod_small; lia. Qed.

Lemma wrap64_small z : 0 <= z < 2 ^ 64 -> wrap64 z = z.
Proof. intros Hz. unfold wrap64. apply Z.mod_small. lia. Qed.

Lemma wrap64_negative z : - 2 ^ 64 <= z < 0 -> wrap64 z = z + 2 ^ 64.
Proof.
  intros Hz. unfold wrap64.
  rewrite <- (Z.mod_add z 1 (2 ^ 64)) by lia. rewrite Z.mod_small; lia.
Qed.

Lemma wrap32_range z : 0 <= wrap32 z < 2 ^ 32.
Proof. unfold wrap32. apply Z.mod_pos_bound. lia. Qed.

Lemma le32_length v : length (le32 v) = 4%nat.
Proof. reflexivity. Qed.

(** What a write leaves in the file. *)
Lemma ofstream_write_cases d f :
  (failed f = true /\ ofstream_write d f = f)
  \/ (failed f = false /\ (length d <= room f)%nat
      /\ ofstream_write d f
         = {| written := written f ++ d; failed := false; room := room f - length d |})
  \/ (failed f = false /\ (room f < length d)%nat
      /\ ofstream_write d f
         = {| written := written f ++ take (room f) d; failed := true; room := 0 |}).
Proof.
  unfold ofstream_write. destruct (failed f) eqn:Hf; [left; split; reflexivity|].
  destruct (Nat.leb_spec (length d) (room f)).
  - right; left. repeat split; assumption.
  - right; right. repeat split; assumption.
Qed.

Lemma ofstream_write_good d f :
  failed (ofstream_write d f) = false ->
  failed f = false /\ written (ofstream_write d f) = written f ++ d.
Proof.
  destruct (ofstream_write_cases d f) as [[Hf Hw]|[(Hf & Hfit & Hw)|(Hf & Hshort & Hw)]];
    rewrite Hw; cbn [failed written]; intros Hgood; try congruence.
  split; [exact Hf|reflexivity].
Qed.

Lemma ofstream_write_fits d f :
  failed f = false -> (length d <= room f)%nat ->
  ofstream_write d f
  = {| written := written f ++ d; failed := false; room := room f - length d |}.
Proof.
  intros Hf Hfit. unfold ofstream_write. rewrite Hf.
  destruct (Nat.leb_spec (length d) (room f)); [reflexivity|lia].
Qed.

Section WithExternals.
Context `{Externals}.

(** C7.  The stop height of the export is the chain's current height minus
    one, lowered to the requested stop height when one is given (nonzero)
    and smaller: the minimum of the two.  The subtraction is the one of
    [uint64_t]; on a chain that has its genesis block it does not wrap. *)
Theorem determine_block_stop_is_min (s : BootstrapFile) (requested_block_stop : Z) :
  0 <= requested_block_stop ->
  let chain_height := get_current_blockchain_height (m_blockchain_storage s) in
  let top := wrap64 (chain_height - 1) in
  determine_block_stop requested_block_stop s
  = Ok Z (if requested_block_stop =? 0 then top else Z.min top requested_block_stop) s
  /\ (1 <= chain_height < 2 ^ 64 -> top = chain_height - 1).
Proof.
  intros Hreq chain_height top. split.
  - unfold determine_block_stop. writer. fold chain_height. fold top.
    destruct (Z.eqb_spec requested_block_stop 0) as [->|Hnz].
    + reflexivity.
    + destruct (Z.ltb_spec 0 requested_block_stop); [|lia]. cbn [andb].
      destruct (Z.ltb_spec requested_block_stop top); f_equal; lia.
  - intros Hh. unfold top, wrap64. apply Z.mod_small. lia.
Qed.

(** *** Transactions of a block *)

Lemma fetch_loop_resolved (ids : list hash) : forall acc s fetched,
  resolve_all (m_blockchain_storage s) ids = Some fetched ->
  fetch_loop ids acc s = Ok _ (acc ++ fetched) s.
Proof.
  induction ids as [|tx_id rest IH]; intros acc s fetched Hres; cbn in Hres |- *.
  - inversion Hres. rewrite app_nil_r. reflexivity.
  - writer. destruct (bool_decide (tx_id = null_hash)); [discriminate|].
    destruct (get_tx (m_blockchain_storage s) tx_id) as [tx|]; [|discriminate].
    destruct (resolve_all (m_blockchain_storage s) rest) as [more|] eqn:Hmore; [|discriminate].
    inversion Hres; subst. rewrite (IH _ _ more Hmore).
    rewrite <- app_assoc. reflexivity.
Qed.

Lemma fetch_loop_unresolved (ids : list hash) : forall acc s,
  Exists (unresolved (m_blockchain_storage s)) ids ->
  exists what, fetch_loop ids acc s = Throw _ what s.
Proof.
  induction ids as [|tx_id rest IH]; intros acc s Hex.
  - inversion Hex.
  - cbn. writer. destruct (bool_decide_reflect (tx_id = null_hash)) as [Hnull|Hnn].
    + eexists; reflexivity.
    + destruct (get_tx (m_blockchain_storage s) tx_id) as [tx|] eqn:Htx.
      * apply IH. inversion Hex as [? ? [Hbad|Hbad]|]; subst; [contradiction|congruence|assumption].
      * eexists; reflexivity.
Qed.

Lemma resolve_all_none b (ids : list hash) :
  resolve_all b ids = None <-> Exists (unresolved b) ids.
Proof.
  induction ids as [|tx_id rest IH]; cbn.
  - split; [discriminate|intros Hex; inversion Hex].
  - destruct (bool_decide_reflect (tx_id = null_hash)) as [Hnull|Hnn].
    + split; [intros _; left; left; exact Hnull|reflexivity].
    + destruct (get_tx b tx_id) as [tx|] eqn:Htx.
      * destruct (resolve_all b rest) as [more|].
        -- split; [discriminate|]. intros Hex.
           inversion Hex as [? ? [Hbad|Hbad]|? ? Hex']; subst;
             [contradiction|congruence|]. apply IH in Hex'. discriminate.
        -- split; [|reflexivity]. intros _. right. apply IH. reflexivity.
      * split; [|reflexivity]. intros _. left. right. exact Htx.
Qed.

(** [write_block] on a block with an unresolved transaction hash. *)
Lemma write_block_unresolved (blk : block) (s : BootstrapFile) :
  miner_tx_vin blk <> [] ->
  Exists (unresolved (m_blockchain_storage s)) (tx_hashes blk) ->
  exists what, write_block blk s = Throw _ what s.
Proof.
  intros Hvin Hex. unfold write_block.
  destruct (miner_tx_vin blk) as [|front rest]; [contradiction|].
  destruct front; writer; try (eexists; reflexivity).
  unfold fetch_transactions.
  destruct (fetch_loop_unresolved (tx_hashes blk) [] s Hex) as [what ->].
  eexists; reflexivity.
Qed.

(** [flush_chunk], step by step. *)
Lemma flush_chunk_unfold (s : BootstrapFile) :
  let payload := held s in
  let recorded := wrap32 (Z.of_nat (length payload)) in
  let f1 := ofstream_write (le32 recorded) (m_raw_data_file s) in
  let f2 := ofstream_write payload f1 in
  let s2 := set_file f2
              ((if m_max_chunk s <? recorded then set_max_chunk recorded else id)
                 (set_file f1 (set_stream [] (set_buffer payload s)))) in
  flush_chunk s
  = if wrap64 (to_long (tellp f2 - to_long (tellp f1))) =? recorded
    then Ok unit tt (set_stream [] (set_buffer [] s2))
    else Throw unit "Error writing chunk" s2.
Proof.
  cbv zeta. unfold flush_chunk, stream_flush, reset_output_stream, stream_flush,
    stream_flushed, write_binary, file_put, file_append, held. writer. cbn [dump_binary].
  unfold le32. cbn [dump_binary default].
  cbn [m_buffer m_output_stream m_raw_data_file m_max_chunk set_buffer set_stream set_file].
  destruct (m_max_chunk s <? wrap32 (Z.of_nat (length (m_buffer s ++ m_output_stream s))));
    cbn [m_buffer m_output_stream m_raw_data_file m_max_chunk set_buffer set_stream set_file
         set_max_chunk id];
    match goal with |- context [negb (?a =? ?b)] => destruct (a =? b) end; reflexivity.
Qed.


(** The comparison of [flush_chunk] against the bytes that reached the file. *)
Lemma flush_check_sound (f1 : ofstream) (payload : blobdata) (recorded : Z) :
  let f2 := ofstream_write payload f1 in
  Z.of_nat (length (written f1)) + Z.of_nat (length payload) < 2 ^ 63 ->
  recorded = wrap32 (Z.of_nat (length payload)) ->
  (wrap64 (to_long (tellp f2 - to_long (tellp f1))) =? recorded) = true ->
  Z.of_nat (length (written f2)) - Z.of_nat (length (written f1)) = recorded
  /\ (failed f2 = false -> Z.of_nat (length payload) = recorded
                           /\ written f2 = written f1 ++ payload).
Proof.
  intros f2 Hsize Hrec Hcheck. apply Z.eqb_eq in Hcheck.
  pose proof (wrap32_range (Z.of_nat (length payload))) as Hr. rewrite <- Hrec in Hr.
  destruct (ofstream_write_cases payload f1) as [[Hf Hw]|[(Hf & Hfit & Hw)|(Hf & Hshort & Hw)]];
    fold f2 in Hw.
  - rewrite Hw in *. unfold tellp in Hcheck. rewrite Hf in Hcheck.
    rewrite (to_long_small (-1)) in Hcheck by lia.
    replace (-1 - -1) with 0 in Hcheck by lia.
    rewrite to_long_small, wrap64_small in Hcheck by lia.
    split; [lia|]. intros Hgood. congruence.
  - rewrite Hw in *. unfold tellp in Hcheck. cbn [failed written] in *. rewrite Hf in Hcheck.
    rewrite length_app in *.
    rewrite (to_long_small (Z.of_nat (length (written f1)))) in Hcheck by lia.
    rewrite to_long_small, wrap64_small in Hcheck by lia.
    split; [lia|]. intros _. split; [lia|reflexivity].
  - exfalso. rewrite Hw in *. unfold tellp in Hcheck. cbn [failed written] in *.
    rewrite Hf in Hcheck.
    rewrite (to_long_small (Z.of_nat (length (written f1)))) in Hcheck by lia.
    rewrite to_long_small, wrap64_negative in Hcheck by lia. lia.
Qed.

Lemma flush_check_complete (f1 : ofstream) (payload : blobdata) (recorded : Z) :
  let f2 := ofstream_write payload f1 in
  Z.of_nat (length (written f1)) + Z.of_nat (length payload) < 2 ^ 63 ->
  recorded = wrap32 (Z.of_nat (length payload)) ->
  (wrap64 (to_long (tellp f2 - to_long (tellp f1))) =? recorded) = false ->
  Z.of_nat (length (written f2)) - Z.of_nat (length (written f1)) <> recorded
  \/ failed f2 = true.
Proof.
  intros f2 Hsize Hrec Hcheck. apply Z.eqb_neq in Hcheck.
  destruct (ofstream_write_cases payload f1) as [[Hf Hw]|[(Hf & Hfit & Hw)|(Hf & Hshort & Hw)]];
    fold f2 in Hw.
  - right. rewrite Hw. exact Hf.
  - left. rewrite Hw in *. unfold tellp in Hcheck. cbn [failed written] in *.
    rewrite Hf in Hcheck. rewrite length_app in *.
    rewrite (to_long_small (Z.of_nat (length (written f1)))) in Hcheck by lia.
    rewrite to_long_small, wrap64_small in Hcheck by lia. lia.
  - right. rewrite Hw. reflexivity.
Qed.

(** C4.  [flush_chunk] returns only when the bytes of the payload that
    reached the file are as many as the length it recorded in front of them;
    on a stream that is still good the file then ends with the 4-byte length
    of the payload followed by the payload itself.  When the two numbers
    differ it throws. *)
Theorem flush_chunk_length_matches_payload (s : BootstrapFile) :
  let payload := held s in
  let recorded := wrap32 (Z.of_nat (length payload)) in
  let f1 := ofstream_write (le32 recorded) (m_raw_data_file s) in
  let f2 := ofstream_write payload f1 in
  let payload_bytes_written :=
    Z.of_nat (length (written f2)) - Z.of_nat (length (written f1)) in
  Z.of_nat (length (written (m_raw_data_file s))) + 4 + Z.of_nat (length payload) < 2 ^ 63 ->
  (forall s', flush_chunk s = Ok unit tt s' ->
     m_raw_data_file s' = f2
     /\ payload_bytes_written = recorded
     /\ (failed f2 = false ->
         written f2 = written (m_raw_data_file s)
                      ++ le32 (Z.of_nat (length payload)) ++ payload)
     /\ held s' = [])
  /\ (payload_bytes_written <> recorded ->
      exists s', flush_chunk s = Throw unit "Error writing chunk" s').
Proof.
  intros payload recorded f1 f2 payload_bytes_written Hsize.
  assert (Hsize1 : Z.of_nat (length (written f1)) + Z.of_nat (length payload) < 2 ^ 63).
  { destruct (ofstream_write_cases (le32 recorded) (m_raw_data_file s))
      as [[Hf Hw]|[(Hf & Hfit & Hw)|(Hf & Hshort & Hw)]]; fold f1 in Hw; rewrite Hw;
      cbn [written]; rewrite ?length_app, ?length_take, ?le32_length; lia. }
  pose proof (flush_chunk_unfold s) as Hflush. cbv zeta in Hflush.
  fold payload recorded f1 f2 in Hflush.
  destruct (wrap64 (to_long (tellp f2 - to_long (tellp f1))) =? recorded) eqn:Hcheck.
  - destruct (flush_check_sound f1 payload recorded Hsize1 eq_refl Hcheck) as [Hw Hgood].
    split.
    + intros s' Hok. rewrite Hflush in Hok. inversion Hok; subst s'.
      split; [reflexivity|]. split; [exact Hw|]. split; [|reflexivity].
      intros Hf2. destruct (Hgood Hf2) as [Hlen _].
      unfold f2 in Hf2 |- *. destruct (ofstream_write_good _ _ Hf2) as [Hf1 ->].
      unfold f1 in Hf1 |- *. destruct (ofstream_write_good _ _ Hf1) as [_ ->].
      rewrite Hlen, <- app_assoc. reflexivity.
    + intros Hne. contradiction.
  - split.
    + intros s' Hok. rewrite Hflush in Hok. discriminate.
    + intros _. rewrite Hflush. eexists. reflexivity.
Qed.

(** *** Opening the file *)

Lemma write_binary_unfold v s : write_binary v s = Ok unit tt (file_append (le32 v) s).
Proof. reflexivity. Qed.

Lemma write_serialized_object_unfold {A : Type} `{Serializable A} (object : A) s :
  write_serialized_object object s
  = Ok unit tt
      (stream_put (t_serializable_object_to_blob object)
         (file_append
            (le32 (wrap32 (Z.of_nat (length (t_serializable_object_to_blob object))))) s)).
Proof. reflexivity. Qed.

Lemma held_stream_put d s : held (stream_put d s) = held s ++ d.
Proof.
  unfold held, stream_put, stream_flushed. destruct output_stream_buffered; cbn.
  - rewrite app_assoc. reflexivity.
  - rewrite app_nil_r, app_assoc. reflexivity.
Qed.

Lemma held_file_append d s : held (file_append d s) = held s.
Proof. reflexivity. Qed.

Lemma file_stream_put d s : m_raw_data_file (stream_put d s) = m_raw_data_file s.
Proof. unfold stream_put. destruct output_stream_buffered; reflexivity. Qed.

Lemma buffer_stream_put d s :
  m_buffer (stream_put d s)
  = if output_stream_buffered then m_buffer s else held s ++ d.
Proof.
  unfold stream_put, held. destruct output_stream_buffered; cbn; [reflexivity|].
  rewrite app_assoc. reflexivity.
Qed.

Lemma file_file_append d s :
  m_raw_data_file (file_append d s) = ofstream_write d (m_raw_data_file s).
Proof. reflexivity. Qed.

Lemma buffer_file_append d s : m_buffer (file_append d s) = m_buffer s.
Proof. reflexivity. Qed.

(** The file and the stream after [initialize_file_content], on a stream that holds
    nothing and a file just created. *)
Lemma initialize_file_content_new (first_block last_block : Z) (s : BootstrapFile) :
  let fi := t_serializable_object_to_blob
              {| major_version := 1; minor_version := 0; fi_header_size := header_size |} in
  let bi := t_serializable_object_to_blob
              {| first_block_height := first_block;
                 last_block_height_hint := last_block; reserved := 0 |} in
  let sizes := le32 blockchain_raw_magic ++ le32 (wrap32 (Z.of_nat (length fi)))
               ++ le32 (wrap32 (Z.of_nat (length bi))) in
  let padding := replicate (if output_stream_buffered then 1024
                            else 1024 - (length fi + length bi))%nat Byte.x00 in
  held s = [] ->
  written (m_raw_data_file s) = [] -> failed (m_raw_data_file s) = false ->
  (length fi + length bi <= 1024)%nat ->
  (1036 <= room (m_raw_data_file s))%nat ->
  let on_disk := sizes ++ (if output_stream_buffered then [] else fi ++ bi ++ padding) in
  exists s',
    initialize_file_content first_block last_block s = Ok unit tt s'
    /\ held s' = fi ++ bi ++ padding
    /\ m_raw_data_file s'
       = {| written := on_disk; failed := false;
            room := room (m_raw_data_file s) - length on_disk |}
    /\ m_height s' = m_height s
    /\ m_blockchain_storage s' = m_blockchain_storage s.
Proof.
  intros fi bi sizes padding Hheld Hwritten Hgood Hlen Hroom on_disk.
  unfold initialize_file_content. writer.
  rewrite write_binary_unfold, !write_serialized_object_unfold. fold fi bi.
  set (s3 := stream_put bi _).
  assert (Hheld3 : held s3 = fi ++ bi).
  { unfold s3. rewrite !held_stream_put, !held_file_append, held_stream_put,
      !held_file_append, Hheld. reflexivity. }
  assert (Hfile3 : m_raw_data_file s3
                   = {| written := sizes; failed := false;
                        room := room (m_raw_data_file s) - 12 |}).
  { unfold s3. rewrite !file_stream_put, !file_file_append, file_stream_put,
      !file_file_append.
    rewrite (ofstream_write_fits (le32 blockchain_raw_magic) (m_raw_data_file s))
      by first [assumption | rewrite le32_length; lia].
    rewrite (ofstream_write_fits (le32 (wrap32 (Z.of_nat (length fi)))) (Build_ofstream _ _ _))
      by first [reflexivity | cbn [room]; rewrite !le32_length; lia].
    rewrite (ofstream_write_fits (le32 (wrap32 (Z.of_nat (length bi)))) (Build_ofstream _ _ _))
      by first [reflexivity | cbn [room]; rewrite !le32_length; lia].
    cbn [written room]. rewrite Hwritten, !le32_length. unfold sizes. cbn [app].
    f_equal. lia. }
  assert (Hbuf3 : m_buffer s3 = if output_stream_buffered then [] else fi ++ bi).
  { unfold s3. rewrite buffer_stream_put. destruct output_stream_buffered eqn:Hb.
    - rewrite buffer_file_append, buffer_stream_put, Hb, !buffer_file_append.
      unfold held in Hheld. apply app_eq_nil in Hheld. tauto.
    - rewrite held_file_append, held_stream_put, !held_file_append, Hheld. reflexivity. }
  cbv beta. rewrite Hbuf3.
  match goal with
  | |- context [wrap64 ?x] =>
      assert (Hcount : wrap64 x
                       = Z.of_nat (if output_stream_buffered then 1024
                                   else 1024 - (length fi + length bi))%nat)
  end.
  { unfold header_size. destruct output_stream_buffered; cbn [length].
    - reflexivity.
    - rewrite length_app, wrap64_small; lia. }
  cbv zeta. rewrite Hcount.
  destruct (Z.leb_spec (2 ^ 63) (Z.of_nat (if output_stream_buffered then 1024
                                           else 1024 - (length fi + length bi))%nat)) as [Hbig|_].
  { destruct output_stream_buffered; lia. }
  rewrite Nat2Z.id. fold padding.
  eexists. split; [reflexivity|].
  unfold file_put. writer.
  split; [|split; [|split]].
  - rewrite held_file_append, held_stream_put, Hheld3, <- app_assoc. reflexivity.
  - rewrite file_file_append, file_stream_put, buffer_stream_put, Hfile3, Hbuf3, Hheld3.
    rewrite ofstream_write_fits.
    + cbn [written room]. unfold on_disk, sizes.
      destruct output_stream_buffered.
      * rewrite !app_nil_r. f_equal. rewrite !length_app, !le32_length. cbn [length]. lia.
      * rewrite <- (app_assoc fi bi padding). f_equal.
        rewrite !length_app, !le32_length. lia.
    + reflexivity.
    + cbn [room]. destruct output_stream_buffered; [cbn; lia|].
      rewrite !length_app. unfold padding. rewrite length_replicate. lia.
  - unfold s3, file_append, stream_put. destruct output_stream_buffered; reflexivity.
  - unfold s3, file_append, stream_put. destruct output_stream_buffered; reflexivity.
Qed.


Lemma open_writer_new (t : target) (start_block stop_block : Z) (s : BootstrapFile) :
  let fi := t_serializable_object_to_blob
              {| major_version := 1; minor_version := 0; fi_header_size := header_size |} in
  let bi := t_serializable_object_to_blob
              {| first_block_height := start_block;
                 last_block_height_hint := stop_block; reserved := 0 |} in
  let sizes := le32 blockchain_raw_magic ++ le32 (wrap32 (Z.of_nat (length fi)))
               ++ le32 (wrap32 (Z.of_nat (length bi))) in
  let padding := replicate (if output_stream_buffered then 1024
                            else 1024 - (length fi + length bi))%nat Byte.x00 in
  reachable t -> existing t = None -> held s = [] ->
  (length fi + length bi <= 1024)%nat -> (1036 <= space t)%nat ->
  let on_disk := sizes ++ (if output_stream_buffered then [] else fi ++ bi ++ padding) in
  exists s',
    open_writer t start_block stop_block s = Ok bool true s'
    /\ held s' = fi ++ bi ++ padding
    /\ m_raw_data_file s'
       = {| written := on_disk; failed := false; room := space t - length on_disk |}
    /\ m_height s' = 0
    /\ m_blockchain_storage s' = m_blockchain_storage s.
Proof.
  intros fi bi sizes padding [Hdir Hopens] Hnew Hheld Hlen Hroom on_disk.
  set (s1 := stream_flushed
               (set_file {| written := []; failed := false; room := space t |}
                  (set_height 0 (set_file ofstream_closed s)))).
  destruct (initialize_file_content_new start_block stop_block s1)
    as (s' & Hinit & Hheld' & Hfile & Hheight & Hchain);
    try reflexivity; try assumption.
  { unfold s1, held, stream_flushed. cbn. unfold held in Hheld. rewrite Hheld. reflexivity. }
  exists s'. split; [|repeat split; assumption].
  unfold open_writer. rewrite Hnew, Hopens.
  destruct Hdir as [-> | [-> | ->]];
    unfold reset_output_stream, stream_flush; writer;
    rewrite bool_decide_eq_true_2 by reflexivity;
    cbn [m_raw_data_file set_file failed negb];
    change (wrap64 (0 + 0)) with 0; fold s1; rewrite Hinit; reflexivity.
Qed.

Lemma open_writer_existing (t : target) (start_block stop_block : Z) (s : BootstrapFile)
    (bytes : blobdata) (num_blocks block_first : Z) :
  reachable t -> existing t = Some bytes ->
  count_blocks bytes = Some (num_blocks, block_first) ->
  open_writer t start_block stop_block s
  = Ok bool true
      (stream_flushed
         (set_file {| written := bytes; failed := false; room := space t |}
            (set_height (wrap64 (num_blocks + block_first)) (set_file ofstream_closed s)))).
Proof.
  intros [Hdir Hopens] Hold Hcount.
  unfold open_writer. rewrite Hold, Hopens, Hcount.
  destruct Hdir as [-> | [-> | ->]];
    unfold reset_output_stream, stream_flush; writer;
    rewrite bool_decide_eq_false_2 by discriminate; reflexivity.
Qed.

(** *** One block *)

Lemma db_lookup_some field height v s :
  field (m_blockchain_storage s) height = Some v ->
  db_lookup field height s = Ok Z v s.
Proof. intros Hv. unfold db_lookup. writer. rewrite Hv. reflexivity. Qed.

Lemma db_lookup_none field height s :
  field (m_blockchain_storage s) height = None ->
  db_lookup field height s = Throw Z "BLOCK_DNE" s.
Proof. intros Hv. unfold db_lookup. writer. rewrite Hv. reflexivity. Qed.

(** [write_block] appends the package of the block to the stream, whatever
    has been written before. *)
Lemma write_block_package (blk : block) (s : BootstrapFile) (bp : block_package) :
  package_of (m_blockchain_storage s) blk = Some bp ->
  write_block blk s = Ok unit tt (stream_put (t_serializable_object_to_blob bp) s).
Proof.
  unfold package_of, write_block. intros Hpkg.
  destruct (miner_tx_vin blk) as [|[height| | |amount] rest]; try discriminate.
  destruct (resolve_all (m_blockchain_storage s) (tx_hashes blk)) as [fetched|] eqn:Hres;
    [|discriminate].
  unfold fetch_transactions. writer.
  rewrite (fetch_loop_resolved _ [] s fetched Hres). cbn [app].
  destruct include_extra_block_data.
  - destruct (get_block_weight (m_blockchain_storage s) height) as [w|] eqn:Hw; [|discriminate].
    destruct (get_block_cumulative_difficulty (m_blockchain_storage s) height) as [d|] eqn:Hd;
      [|discriminate].
    destruct (get_block_already_generated_coins (m_blockchain_storage s) height) as [c|] eqn:Hc;
      [|discriminate].
    inversion Hpkg; subst bp.
    rewrite (db_lookup_some _ _ _ _ Hw), (db_lookup_some _ _ _ _ Hd),
      (db_lookup_some _ _ _ _ Hc).
    reflexivity.
  - inversion Hpkg; subst bp. reflexivity.
Qed.

Lemma write_block_returns (blk : block) (s s' : BootstrapFile) :
  write_block blk s = Ok unit tt s' ->
  exists bp, package_of (m_blockchain_storage s) blk = Some bp
             /\ s' = stream_put (t_serializable_object_to_blob bp) s.
Proof.
  unfold package_of, write_block. intros Hok.
  destruct (miner_tx_vin blk) as [|[height| | |amount] rest]; writer; try discriminate.
  unfold fetch_transactions in Hok.
  destruct (resolve_all (m_blockchain_storage s) (tx_hashes blk)) as [fetched|] eqn:Hres.
  - rewrite (fetch_loop_resolved _ [] s fetched Hres) in Hok. cbn [app] in Hok.
    destruct include_extra_block_data.
    + destruct (get_block_weight (m_blockchain_storage s) height) as [w|] eqn:Hw;
        [rewrite (db_lookup_some _ _ _ _ Hw) in Hok
        |rewrite (db_lookup_none _ _ _ Hw) in Hok; discriminate].
      destruct (get_block_cumulative_difficulty (m_blockchain_storage s) height) as [d|] eqn:Hd;
        [rewrite (db_lookup_some _ _ _ _ Hd) in Hok
        |rewrite (db_lookup_none _ _ _ Hd) in Hok; discriminate].
      destruct (get_block_already_generated_coins (m_blockchain_storage s) height) as [c|] eqn:Hc;
        [rewrite (db_lookup_some _ _ _ _ Hc) in Hok
        |rewrite (db_lookup_none _ _ _ Hc) in Hok; discriminate].
      eexists. split; [reflexivity|]. inversion Hok. reflexivity.
    + eexists. split; [reflexivity|]. inversion Hok. reflexivity.
  - apply resolve_all_none in Hres.
    destruct (fetch_loop_unresolved _ [] s Hres) as [what Hthrow].
    rewrite Hthrow in Hok. discriminate.
Qed.

(** *** A flush that goes through *)

Lemma wrap32_small z : 0 <= z < 2 ^ 32 -> wrap32 z = z.
Proof. intros Hz. unfold wrap32. apply Z.mod_small. lia. Qed.

Lemma chunk_length payload : length (chunk payload) = (4 + length payload)%nat.
Proof. unfold chunk. rewrite length_app, le32_length. reflexivity. Qed.

Lemma flush_chunk_good (s : BootstrapFile) :
  takes (m_raw_data_file s) [held s] ->
  exists s',
    flush_chunk s = Ok unit tt s'
    /\ held s' = []
    /\ written (m_raw_data_file s') = written (m_raw_data_file s) ++ chunk (held s)
    /\ failed (m_raw_data_file s') = false
    /\ room (m_raw_data_file s') = (room (m_raw_data_file s) - length (chunk (held s)))%nat
    /\ m_cur_height s' = m_cur_height s
    /\ m_height s' = m_height s
    /\ m_blockchain_storage s' = m_blockchain_storage s.
Proof.
  intros (Hgood & Hroom & Hsize & Hlong).
  cbn [map concat] in Hroom, Hlong. rewrite app_nil_r, chunk_length in Hroom, Hlong.
  apply Forall_inv in Hsize.
  pose proof (flush_chunk_unfold s) as Hflush. cbv zeta in Hflush.
  rewrite (wrap32_small (Z.of_nat (length (held s)))) in Hflush by lia.
  rewrite (ofstream_write_fits (le32 _) (m_raw_data_file s)) in Hflush
    by first [assumption | rewrite le32_length; lia].
  rewrite (ofstream_write_fits (held s) (Build_ofstream _ _ _)) in Hflush
    by first [reflexivity | cbn [room]; rewrite le32_length; lia].
  unfold tellp in Hflush. cbn [failed written] in Hflush.
  rewrite !length_app, le32_length in Hflush.
  rewrite (to_long_small (Z.of_nat _)) in Hflush by lia.
  rewrite to_long_small, wrap64_small in Hflush by lia.
  replace (Z.of_nat (length (written (m_raw_data_file s)) + 4 + length (held s))
           - Z.of_nat (length (written (m_raw_data_file s)) + 4))
    with (Z.of_nat (length (held s))) in Hflush by lia.
  rewrite Z.eqb_refl in Hflush.
  eexists. split; [exact Hflush|].
  destruct (m_max_chunk s <? Z.of_nat (length (held s)));
    cbn; unfold chunk; rewrite ?le32_length, <- ?app_assoc;
    repeat split; try reflexivity; lia.
Qed.


Lemma takes_head f payload payloads :
  takes f (payload :: payloads) -> takes f [payload].
Proof.
  intros (Hgood & Hroom & Hsize & Hlong). unfold takes. cbn [map concat] in *.
  rewrite !length_app in *. cbn [length] in *.
  repeat split; try assumption; try lia.
  constructor; [exact (Forall_inv Hsize)|constructor].
Qed.

Lemma takes_tail f f' payload payloads :
  takes f (payload :: payloads) ->
  written f' = written f ++ chunk payload -> failed f' = false ->
  room f' = (room f - length (chunk payload))%nat ->
  takes f' payloads.
Proof.
  intros (Hgood & Hroom & Hsize & Hlong) Hwritten Hgood' Hroom'. unfold takes.
  cbn [map concat] in *.
  rewrite length_app in *. rewrite Hwritten, Hroom', length_app.
  repeat split; try assumption; try lia. exact (Forall_inv_tail Hsize).
Qed.

(** *** The loop *)

Lemma cur_stream_put d s : m_cur_height (stream_put d s) = m_cur_height s.
Proof. unfold stream_put. destruct output_stream_buffered; reflexivity. Qed.

Lemma height_stream_put d s : m_height (stream_put d s) = m_height s.
Proof. unfold stream_put. destruct output_stream_buffered; reflexivity. Qed.

Lemma storage_stream_put d s :
  m_blockchain_storage (stream_put d s) = m_blockchain_storage s.
Proof. unfold stream_put. destruct output_stream_buffered; reflexivity. Qed.

Lemma held_set_cur_height h s : held (set_cur_height h s) = held s.
Proof. reflexivity. Qed.

(** One pass of the loop body on a block that has a package. *)
Lemma store_block_package (s : BootstrapFile) (bp : block_package) :
  let bd := t_serializable_object_to_blob bp in
  let flushes := m_cur_height s mod NUM_BLOCKS_PER_CHUNK =? 0 in
  NUM_BLOCKS_PER_CHUNK <> 0 ->
  package_of (m_blockchain_storage s)
    (block_at_height (m_blockchain_storage s) (m_cur_height s)) = Some bp ->
  (flushes = true -> takes (m_raw_data_file s) [held s ++ bd]) ->
  exists s',
    store_block s = Ok unit tt s'
    /\ held s' = (if flushes then [] else held s ++ bd)
    /\ written (m_raw_data_file s')
       = written (m_raw_data_file s) ++ (if flushes then chunk (held s ++ bd) else [])
    /\ failed (m_raw_data_file s') = failed (m_raw_data_file s)
    /\ room (m_raw_data_file s')
       = (room (m_raw_data_file s)
          - (if flushes then length (chunk (held s ++ bd)) else 0))%nat
    /\ m_cur_height s' = wrap64 (m_cur_height s + 1)
    /\ m_height s' = m_height s
    /\ m_blockchain_storage s' = m_blockchain_storage s.
Proof.
  intros bd flushes Hinterval Hpkg Htakes.
  unfold store_block. writer. fold (block_at_height (m_blockchain_storage s) (m_cur_height s)).
  rewrite (write_block_package _ _ _ Hpkg). fold bd.
  destruct (Z.eqb_spec NUM_BLOCKS_PER_CHUNK 0) as [|_]; [contradiction|].
  fold flushes. destruct flushes.
  - destruct (flush_chunk_good (stream_put bd s)) as (s1 & -> & Hheld & Hw & Hf & Hr & Hc & Hh & Hb).
    { rewrite held_stream_put, file_stream_put. apply Htakes. reflexivity. }
    eexists. split; [reflexivity|].
    rewrite held_stream_put, file_stream_put in *.
    rewrite cur_stream_put in Hc. rewrite height_stream_put in Hh.
    rewrite storage_stream_put in Hb.
    rewrite held_set_cur_height.
    cbn [set_cur_height m_raw_data_file m_cur_height m_height m_blockchain_storage].
    destruct (Htakes eq_refl) as (Hgood & _).
    repeat split; try assumption; try congruence.
  - eexists. split; [reflexivity|].
    rewrite held_set_cur_height.
    cbn [set_cur_height m_raw_data_file m_cur_height m_height m_blockchain_storage].
    rewrite held_stream_put, file_stream_put, cur_stream_put, height_stream_put,
      storage_stream_put, app_nil_r, Nat.sub_0_r.
    repeat split; reflexivity.
Qed.


(** The loop over the heights [m_cur_height s .. block_stop], when every
    block on the way has a package and the file takes the chunks: the
    chunks of [chunking] are appended to the file and its leftover stays in
    the stream. *)
Lemma store_loop_chunks (pkgs : list block_package) : forall (s : BootstrapFile)
    (fuel : nat) (block_stop : Z),
  let blobs := map t_serializable_object_to_blob pkgs in
  let plan := chunking (m_cur_height s) blobs (held s) in
  NUM_BLOCKS_PER_CHUNK <> 0 ->
  0 <= m_cur_height s ->
  Z.of_nat (length pkgs) = Z.max 0 (block_stop + 1 - m_cur_height s) ->
  block_stop + 1 < 2 ^ 64 ->
  (length pkgs <= fuel)%nat ->
  packages_from (m_blockchain_storage s) (m_cur_height s) pkgs ->
  takes (m_raw_data_file s) (fst plan) ->
  exists s',
    store_loop fuel block_stop s = Ok unit tt s'
    /\ held s' = snd plan
    /\ written (m_raw_data_file s')
       = written (m_raw_data_file s) ++ concat (map chunk (fst plan))
    /\ failed (m_raw_data_file s') = false
    /\ room (m_raw_data_file s')
       = (room (m_raw_data_file s) - length (concat (map chunk (fst plan))))%nat
    /\ m_cur_height s' = m_cur_height s + Z.of_nat (length pkgs)
    /\ m_height s' = m_height s
    /\ m_blockchain_storage s' = m_blockchain_storage s.
Proof.
  induction pkgs as [|bp rest IH]; intros s fuel block_stop blobs plan
    Hinterval Hcur Hstop Hmax Hfuel Hpkgs Htakes.
  - exists s. cbn [length] in Hstop. subst plan blobs.
    cbn [fst snd map concat chunking length]. split.
    + destruct fuel; cbn [store_loop];
        (destruct (Z.leb_spec (m_cur_height s) block_stop); [lia|reflexivity]).
    + rewrite app_nil_r, Nat.sub_0_r. destruct Htakes as (Hgood & _).
      repeat split; try reflexivity; try assumption. lia.
  - destruct fuel as [|fuel]; [cbn in Hfuel; lia|].
    cbn [length] in Hstop, Hfuel. unfold packages_from in Hpkgs.
    cbn [length heights_from] in Hpkgs. apply Forall2_cons in Hpkgs as [Hbp Hrest].
    fold (packages_from (m_blockchain_storage s) (m_cur_height s + 1) rest) in Hrest.
    cbn [store_loop]. destruct (Z.leb_spec (m_cur_height s) block_stop); [|lia].
    set (bd := t_serializable_object_to_blob bp).
    subst plan blobs. cbn [map chunking] in Htakes |- *. fold bd in Htakes |- *.
    destruct (store_block_package s bp Hinterval Hbp)
      as (s1 & Hstep & Hheld1 & Hw1 & Hf1 & Hr1 & Hc1 & Hh1 & Hb1).
    { fold bd. intros Hflush. rewrite Hflush in Htakes.
      destruct (chunking (m_cur_height s + 1) (map t_serializable_object_to_blob rest) [])
        as [chunks leftover]. cbn [fst] in Htakes. exact (takes_head _ _ _ Htakes). }
    fold bd in Hheld1, Hw1, Hr1.
    writer. rewrite Hstep.
    rewrite wrap64_small in Hc1 by lia.
    destruct (m_cur_height s mod NUM_BLOCKS_PER_CHUNK =? 0) eqn:Hflush.
    + destruct (chunking (m_cur_height s + 1) (map t_serializable_object_to_blob rest) [])
        as [chunks leftover] eqn:Hplan. cbn [fst snd] in Htakes |- *.
      destruct (IH s1 fuel block_stop) as (s' & Hloop & Hheld' & Hw' & Hf' & Hr' & Hc' & Hh' & Hb');
        try assumption; try lia.
      { rewrite Hb1, Hc1. exact Hrest. }
      { rewrite Hc1, Hheld1, Hplan. cbn [fst].
        pose proof Htakes as (Hgood & _).
        apply (takes_tail _ _ _ _ Htakes Hw1); [congruence|exact Hr1]. }
      rewrite Hc1, Hheld1, Hplan in Hheld', Hw', Hr'. cbn [fst snd] in Hheld', Hw', Hr'.
      exists s'. split; [exact Hloop|].
      cbn [map concat]. rewrite length_app, Hw', Hw1, Hr', Hr1, <- app_assoc.
      repeat split; try assumption; try congruence; cbn [length]; lia.
    + destruct (IH s1 fuel block_stop) as (s' & Hloop & Hheld' & Hw' & Hf' & Hr' & Hc' & Hh' & Hb');
        try assumption; try lia.
      { rewrite Hb1, Hc1. exact Hrest. }
      { rewrite Hc1, Hheld1. destruct Htakes as (Hgood & Hroom & Hsize & Hlong).
        rewrite app_nil_r in Hw1. rewrite Nat.sub_0_r in Hr1.
        unfold takes. rewrite Hw1, Hr1. repeat split; try assumption. congruence. }
      rewrite Hc1, Hheld1 in Hheld', Hw', Hr'.
      exists s'. split; [exact Hloop|].
      rewrite app_nil_r in Hw1. rewrite Nat.sub_0_r in Hr1.
      rewrite Hw', Hw1, Hr', Hr1.
      repeat split; try assumption; try congruence; cbn [length]; lia.
Qed.

(** *** What a run that returns has gone through *)

Lemma flush_chunk_returns (s s' : BootstrapFile) :
  flush_chunk s = Ok unit tt s' ->
  held s' = []
  /\ m_cur_height s' = m_cur_height s
  /\ m_height s' = m_height s
  /\ m_blockchain_storage s' = m_blockchain_storage s.
Proof.
  rewrite flush_chunk_unfold.
  match goal with |- context [if ?c then _ else _] => destruct c end; [|discriminate].
  intros Hok. inversion Hok; subst s'.
  destruct (m_max_chunk s <? wrap32 (Z.of_nat (length (held s)))); repeat split; reflexivity.
Qed.

Lemma store_block_returns (s s' : BootstrapFile) :
  store_block s = Ok unit tt s' ->
  (exists bp, package_of (m_blockchain_storage s)
                (block_at_height (m_blockchain_storage s) (m_cur_height s)) = Some bp)
  /\ m_cur_height s' = wrap64 (m_cur_height s + 1)
  /\ m_height s' = m_height s
  /\ m_blockchain_storage s' = m_blockchain_storage s.
Proof.
  unfold store_block. writer.
  fold (block_at_height (m_blockchain_storage s) (m_cur_height s)).
  destruct (write_block _ s) as [[] s1| | |] eqn:Hwrite; try discriminate.
  apply write_block_returns in Hwrite as (bp & Hpkg & ->).
  destruct (NUM_BLOCKS_PER_CHUNK =? 0); [discriminate|].
  destruct (m_cur_height s mod NUM_BLOCKS_PER_CHUNK =? 0).
  - destruct (flush_chunk _) as [[] s2| | |] eqn:Hflush; try discriminate.
    apply flush_chunk_returns in Hflush as (_ & Hc & Hh & Hb).
    rewrite cur_stream_put in Hc. rewrite height_stream_put in Hh.
    rewrite storage_stream_put in Hb.
    intros Hok. inversion Hok; subst s'. cbn. rewrite Hc, Hh, Hb.
    split; [exists bp; exact Hpkg|]. repeat split; reflexivity.
  - intros Hok. inversion Hok; subst s'. cbn.
    rewrite cur_stream_put, height_stream_put, storage_stream_put.
    split; [exists bp; exact Hpkg|]. repeat split; reflexivity.
Qed.

Lemma store_loop_returns (fuel : nat) (block_stop : Z) : forall s s',
  store_loop fuel block_stop s = Ok unit tt s' ->
  0 <= m_cur_height s -> block_stop < 2 ^ 64 ->
  (forall h, m_cur_height s <= h <= block_stop ->
     exists bp, package_of (m_blockchain_storage s)
                  (block_at_height (m_blockchain_storage s) h) = Some bp)
  /\ m_height s' = m_height s
  /\ m_blockchain_storage s' = m_blockchain_storage s.
Proof.
  induction fuel as [|fuel IH]; intros s s' Hloop Hcur Hmax; cbn [store_loop] in Hloop;
    destruct (Z.leb_spec (m_cur_height s) block_stop) as [Hle|Hgt]; try discriminate.
  - inversion Hloop; subst s'. split; [intros h Hh; lia|split; reflexivity].
  - writer. destruct (store_block s) as [[] s1| | |] eqn:Hstep; try discriminate.
    apply store_block_returns in Hstep as ([bp Hbp] & Hc1 & Hh1 & Hb1).
    destruct (Z.eq_dec (m_cur_height s) (2 ^ 64 - 1)) as [Hlast|Hnot].
    + split.
      * intros h Hh. assert (h = m_cur_height s) as -> by lia. exists bp. exact Hbp.
      * assert (Hz : m_cur_height s1 = 0).
        { rewrite Hc1, Hlast. reflexivity. }
        destruct (IH s1 s' Hloop) as (_ & Hh' & Hb'); [lia|assumption|].
        split; congruence.
    + rewrite wrap64_small in Hc1 by lia.
      destruct (IH s1 s' Hloop) as (Hall & Hh' & Hb'); [lia|assumption|].
      split; [|split; congruence].
      intros h Hh. destruct (Z.eq_dec h (m_cur_height s)) as [->|Hne].
      * exists bp. exact Hbp.
      * rewrite <- Hb1. apply Hall. lia.
  - inversion Hloop; subst s'. split; [intros h Hh; lia|split; reflexivity].
Qed.


Lemma initialize_file_content_returns (first_block last_block : Z) (s s' : BootstrapFile) :
  initialize_file_content first_block last_block s = Ok unit tt s' ->
  m_height s' = m_height s /\ m_blockchain_storage s' = m_blockchain_storage s.
Proof.
  unfold initialize_file_content. writer.
  rewrite write_binary_unfold, !write_serialized_object_unfold. cbv beta zeta.
  match goal with |- context [if ?c then _ else _] => destruct c end; [discriminate|].
  unfold stream_write, file_put. writer. intros Hok. inversion Hok; subst s'.
  unfold file_append. cbn [set_file m_height m_blockchain_storage].
  rewrite !height_stream_put, !storage_stream_put. cbn [set_file m_height m_blockchain_storage].
  rewrite !height_stream_put, !storage_stream_put. split; reflexivity.
Qed.

Lemma open_writer_returns (t : target) (start_block stop_block : Z) (s s' : BootstrapFile)
    (opened : bool) :
  open_writer t start_block stop_block s = Ok bool opened s' ->
  m_blockchain_storage s' = m_blockchain_storage s.
Proof.
  unfold open_writer.
  assert (Hbody : forall k : Writer bool,
            (forall s1 o, k s1 = Ok bool o s' -> m_blockchain_storage s' = m_blockchain_storage s1) ->
            forall o,
            match parent_path t with
            | ParentIsFile => fun s0 => Ok bool false s0
            | ParentAbsent false => fun s0 => Ok bool false s0
            | _ => k
            end s = Ok bool o s' -> m_blockchain_storage s' = m_blockchain_storage s).
  { intros k Hk o. destruct (parent_path t) as [| | |[]]; intros Hok;
      try (inversion Hok; reflexivity); exact (Hk _ _ Hok). }
  intros Hok. refine (Hbody _ _ opened Hok). clear Hok Hbody.
  intros s1 o. unfold reset_output_stream, stream_flush. writer.
  destruct (existing t) as [bytes|].
  - destruct (count_blocks bytes) as [[n first]|]; [|discriminate].
    cbn [set_file m_raw_data_file failed]. destruct (opens t); cbn [negb].
    + rewrite bool_decide_eq_false_2 by discriminate.
      intros Hok. inversion Hok. reflexivity.
    + intros Hok. inversion Hok. reflexivity.
  - cbn [set_file m_raw_data_file failed]. destruct (opens t); cbn [negb].
    + rewrite bool_decide_eq_true_2 by reflexivity.
      destruct (initialize_file_content _ _ _) as [[] s2| | |] eqn:Hinit; try discriminate.
      apply initialize_file_content_returns in Hinit as [_ Hb].
      intros Hok. inversion Hok; subst. rewrite Hb. reflexivity.
    + intros Hok. inversion Hok. reflexivity.
Qed.

Lemma determine_block_stop_value (requested_block_stop : Z) (s : BootstrapFile) :
  let top := wrap64 (get_current_blockchain_height (m_blockchain_storage s) - 1) in
  determine_block_stop requested_block_stop s
  = Ok Z (if (0 <? requested_block_stop) && (requested_block_stop <? top)
          then requested_block_stop else top) s.
Proof.
  cbv zeta. unfold determine_block_stop. writer.
  match goal with |- context [if ?c then _ else _] => destruct c end; reflexivity.
Qed.

(** A run of [store_blockchain_raw] that returns has found a package for
    every block from the height it started at to the stop height. *)
Lemma store_blockchain_raw_returns (fuel : nat) (b : Blockchain) (t : target)
    (start_block requested_block_stop : Z) (s s' : BootstrapFile) :
  let top := wrap64 (get_current_blockchain_height b - 1) in
  let block_stop := if (0 <? requested_block_stop) && (requested_block_stop <? top)
                    then requested_block_stop else top in
  store_blockchain_raw fuel b t start_block requested_block_stop s = Ok bool true s' ->
  0 <= start_block ->
  forall h, Z.max start_block (m_height s') <= h <= block_stop ->
    exists bp, package_of b (block_at_height b h) = Some bp.
Proof.
  intros top block_stop Hrun Hstart h Hh.
  unfold store_blockchain_raw in Hrun. writer.
  rewrite determine_block_stop_value in Hrun.
  cbn [set_storage m_blockchain_storage] in Hrun. fold top block_stop in Hrun.
  destruct (open_writer t start_block block_stop (set_storage b s)) as [opened s1| | |] eqn:Hopen;
    try discriminate.
  apply open_writer_returns in Hopen. cbn [set_storage m_blockchain_storage] in Hopen.
  destruct opened; cbn [negb] in Hrun; [|discriminate].
  destruct (store_loop fuel block_stop _) as [[] s2| | |] eqn:Hloop; try discriminate.
  apply store_loop_returns in Hloop as (Hall & Hh2 & Hb2).
  - cbn [set_cur_height m_cur_height m_height m_blockchain_storage] in Hall, Hh2, Hb2.
    rewrite Hopen in Hall.
    assert (Hfinal : m_height s' = m_height s2).
    { destruct (NUM_BLOCKS_PER_CHUNK =? 0); [discriminate|].
      unfold close in Hrun. writer.
      destruct (negb (m_cur_height s2 mod NUM_BLOCKS_PER_CHUNK =? 0)).
      - destruct (flush_chunk s2) as [[] s3| | |] eqn:Hflush; try discriminate.
        apply flush_chunk_returns in Hflush as (_ & _ & Hh3 & _).
        destruct (failed (m_raw_data_file s3)); inversion Hrun; subst; exact Hh3.
      - destruct (failed (m_raw_data_file s2)); inversion Hrun; subst; reflexivity. }
    apply Hall. rewrite <- Hh2, <- Hfinal. exact Hh.
  - cbn [set_cur_height m_cur_height]. lia.
  - assert (Htop : 0 <= top < 2 ^ 64) by (apply Z.mod_pos_bound; lia).
    unfold block_stop.
    destruct ((0 <? requested_block_stop) && (requested_block_stop <? top)) eqn:Hreq; [|lia].
    apply andb_true_iff in Hreq as [_ Hlt]. apply Z.ltb_lt in Hlt. lia.
Qed.

(** *** The whole export *)

Lemma takes_app f f' payloads more :
  takes f (payloads ++ more) ->
  written f' = written f ++ concat (map chunk payloads) -> failed f' = false ->
  room f' = (room f - length (concat (map chunk payloads)))%nat ->
  takes f payloads /\ takes f' more.
Proof.
  intros (Hgood & Hroom & Hsize & Hlong) Hwritten Hgood' Hroom'.
  rewrite map_app, concat_app, length_app in Hroom, Hlong.
  apply Forall_app in Hsize as [Hsize1 Hsize2].
  split; unfold takes.
  - repeat split; try assumption; lia.
  - rewrite Hwritten, Hroom', length_app. repeat split; try assumption; lia.
Qed.

Lemma determine_block_stop_of (requested_block_stop : Z) (s : BootstrapFile) :
  determine_block_stop requested_block_stop s
  = Ok Z (block_stop_of (m_blockchain_storage s) requested_block_stop) s.
Proof. apply determine_block_stop_value. Qed.

Lemma block_stop_of_range b requested_block_stop :
  requested_block_stop < 2 ^ 64 -> block_stop_of b requested_block_stop < 2 ^ 64.
Proof.
  intros Hreq. unfold block_stop_of. cbv zeta.
  assert (Htop : 0 <= wrap64 (get_current_blockchain_height b - 1) < 2 ^ 64)
    by (apply Z.mod_pos_bound; lia).
  match goal with |- context [if ?c then _ else _] => destruct c end; lia.
Qed.

(** [store_blockchain_raw] from the state [open_writer] leaves. *)
Lemma store_blockchain_raw_after_open (pkgs : list block_package)
    (b : Blockchain) (t : target) (s0 s1 : BootstrapFile) (fuel : nat)
    (start_block requested_block_stop : Z) :
  let block_stop := block_stop_of b requested_block_stop in
  let first := Z.max start_block (m_height s1) in
  let blobs := map t_serializable_object_to_blob pkgs in
  let plan := export_plan first blobs (held s1) in
  open_writer t start_block block_stop (set_storage b s0) = Ok bool true s1 ->
  NUM_BLOCKS_PER_CHUNK <> 0 ->
  0 <= first ->
  Z.of_nat (length pkgs) = Z.max 0 (block_stop + 1 - first) ->
  block_stop + 1 < 2 ^ 64 ->
  (length pkgs <= fuel)%nat ->
  packages_from b first pkgs ->
  takes (m_raw_data_file s1) (fst plan) ->
  exists s',
    store_blockchain_raw fuel b t start_block requested_block_stop s0 = Ok bool true s'
    /\ written (m_raw_data_file s')
       = written (m_raw_data_file s1) ++ concat (map chunk (fst plan))
    /\ held s' = snd plan
    /\ m_height s' = m_height s1.
Proof.
  intros block_stop first blobs plan Hopen Hinterval Hfirst Hcount Hmax Hfuel Hpkgs Htakes.
  pose proof (open_writer_returns _ _ _ _ _ _ Hopen) as Hchain.
  cbn [set_storage m_blockchain_storage] in Hchain.
  set (s2 := set_cur_height first s1).
  unfold plan, export_plan in Htakes |- *. unfold blobs in Htakes |- *.
  rewrite length_map in Htakes |- *.
  set (loop := chunking first (map t_serializable_object_to_blob pkgs) (held s1)) in *.
  assert (Hloop_takes : takes (m_raw_data_file s1) (fst loop)).
  { destruct (negb _) in Htakes; cbn [fst] in Htakes; [|exact Htakes].
    destruct Htakes as (Hgood & Hroom & Hsize & Hlong).
    rewrite map_app, concat_app, length_app in Hroom, Hlong.
    apply Forall_app in Hsize as [Hsize1 _].
    unfold takes. repeat split; try assumption; lia. }
  destruct (store_loop_chunks pkgs s2 fuel block_stop)
    as (s3 & Hloop & Hheld3 & Hw3 & Hf3 & Hr3 & Hc3 & Hh3 & Hb3);
    try assumption.
  { cbn [s2 set_cur_height m_blockchain_storage]. rewrite Hchain. exact Hpkgs. }
  unfold store_blockchain_raw. writer. rewrite determine_block_stop_of.
  cbn [set_storage m_blockchain_storage]. fold block_stop. rewrite Hopen. cbn [negb].
  fold first. fold s2. rewrite Hloop.
  destruct (Z.eqb_spec NUM_BLOCKS_PER_CHUNK 0) as [|_]; [contradiction|].
  change (m_cur_height s2) with first in Hc3, Hheld3, Hw3, Hr3.
  change (held s2) with (held s1) in Hheld3, Hw3, Hr3. fold loop in Hheld3, Hw3, Hr3.
  change (m_raw_data_file s2) with (m_raw_data_file s1) in Hw3, Hr3.
  change (m_height s2) with (m_height s1) in Hh3.
  rewrite Hc3. unfold close. writer.
  destruct (negb ((first + Z.of_nat (length pkgs)) mod NUM_BLOCKS_PER_CHUNK =? 0)).
  - cbn [fst snd] in Htakes |- *.
    destruct (takes_app _ _ _ _ Htakes Hw3 Hf3 Hr3) as [_ Hlast].
    rewrite <- Hheld3 in Hlast.
    destruct (flush_chunk_good s3 Hlast) as (s4 & -> & Hheld4 & Hw4 & Hf4 & _ & _ & Hh4 & _).
    rewrite Hf4. exists s4. split; [reflexivity|].
    rewrite Hw4, Hw3, Hheld3, map_app, concat_app. cbn [map concat].
    rewrite app_nil_r, <- app_assoc. repeat split; try assumption. congruence.
  - rewrite Hf3. exists s3. split; [reflexivity|]. repeat split; assumption.
Qed.

Lemma held_stream_flushed s : held (stream_flushed s) = held s.
Proof. unfold held, stream_flushed. cbn. rewrite app_nil_r. reflexivity. Qed.

(** The export onto a file that exists: the chunks follow the bytes that
    were there. *)
Lemma export_to_existing_file (pkgs : list block_package) (b : Blockchain) (t : target)
    (s0 : BootstrapFile) (fuel : nat) (start_block requested_block_stop : Z)
    (bytes : blobdata) (num_blocks block_first : Z) :
  let block_stop := block_stop_of b requested_block_stop in
  let first := Z.max start_block (wrap64 (num_blocks + block_first)) in
  let plan := export_plan first (map t_serializable_object_to_blob pkgs) (held s0) in
  reachable t -> existing t = Some bytes ->
  count_blocks bytes = Some (num_blocks, block_first) ->
  NUM_BLOCKS_PER_CHUNK <> 0 ->
  0 <= start_block ->
  Z.of_nat (length pkgs) = Z.max 0 (block_stop + 1 - first) ->
  block_stop + 1 < 2 ^ 64 ->
  (length pkgs <= fuel)%nat ->
  packages_from b first pkgs ->
  takes {| written := bytes; failed := false; room := space t |} (fst plan) ->
  exists s',
    store_blockchain_raw fuel b t start_block requested_block_stop s0 = Ok bool true s'
    /\ written (m_raw_data_file s') = bytes ++ concat (map chunk (fst plan))
    /\ held s' = snd plan.
Proof.
  intros block_stop first plan Hreach Hold Hcount Hinterval Hstart Hlen Hmax Hfuel
    Hpkgs Htakes.
  pose proof (open_writer_existing t start_block block_stop (set_storage b s0) bytes
                num_blocks block_first Hreach Hold Hcount) as Hopen.
  pose proof (store_blockchain_raw_after_open pkgs b t s0 _ fuel start_block
                requested_block_stop Hopen Hinterval) as Hrest.
  cbv zeta in Hrest. rewrite held_stream_flushed in Hrest.
  change (held (set_file _ (set_height _ (set_file _ (set_storage b s0)))))
    with (held s0) in Hrest.
  cbn [stream_flushed set_stream set_buffer set_file set_height m_height
       m_raw_data_file written] in Hrest.
  fold block_stop first plan in Hrest.
  destruct Hrest as (s' & Hrun & Hwritten & Hheld & _); try assumption; [lia|].
  exists s'. split; [exact Hrun|]. split; [exact Hwritten|exact Hheld].
Qed.


(** The export onto a new file: the chunks follow what [open_writer] put in
    the file, and the chunking starts from the header records and the
    padding that the stream still holds. *)
Lemma export_to_new_file (pkgs : list block_package) (b : Blockchain) (t : target)
    (s0 : BootstrapFile) (fuel : nat) (start_block requested_block_stop : Z) :
  let block_stop := block_stop_of b requested_block_stop in
  let fi := t_serializable_object_to_blob
              {| major_version := 1; minor_version := 0; fi_header_size := header_size |} in
  let bi := t_serializable_object_to_blob
              {| first_block_height := start_block;
                 last_block_height_hint := block_stop; reserved := 0 |} in
  let sizes := le32 blockchain_raw_magic ++ le32 (wrap32 (Z.of_nat (length fi)))
               ++ le32 (wrap32 (Z.of_nat (length bi))) in
  let padding := replicate (if output_stream_buffered then 1024
                            else 1024 - (length fi + length bi))%nat Byte.x00 in
  let on_disk := sizes ++ (if output_stream_buffered then [] else fi ++ bi ++ padding) in
  let plan := export_plan start_block (map t_serializable_object_to_blob pkgs)
                (fi ++ bi ++ padding) in
  reachable t -> existing t = None -> held s0 = [] ->
  (length fi + length bi <= 1024)%nat -> (1036 <= space t)%nat ->
  NUM_BLOCKS_PER_CHUNK <> 0 ->
  0 <= start_block ->
  Z.of_nat (length pkgs) = Z.max 0 (block_stop + 1 - start_block) ->
  block_stop + 1 < 2 ^ 64 ->
  (length pkgs <= fuel)%nat ->
  packages_from b start_block pkgs ->
  takes {| written := on_disk; failed := false; room := space t - length on_disk |}
    (fst plan) ->
  exists s',
    store_blockchain_raw fuel b t start_block requested_block_stop s0 = Ok bool true s'
    /\ written (m_raw_data_file s') = on_disk ++ concat (map chunk (fst plan))
    /\ held s' = snd plan.
Proof.
  intros block_stop fi bi sizes padding on_disk plan Hreach Hnew Hheld0 Hsize Hspace
    Hinterval Hstart Hlen Hmax Hfuel Hpkgs Htakes.
  destruct (open_writer_new t start_block block_stop (set_storage b s0) Hreach Hnew)
    as (s1 & Hopen & Hheld1 & Hfile1 & Hheight1 & _); try assumption.
  fold fi bi sizes padding on_disk in Hheld1, Hfile1.
  pose proof (store_blockchain_raw_after_open pkgs b t s0 s1 fuel start_block
                requested_block_stop Hopen Hinterval) as Hrest.
  cbv zeta in Hrest. rewrite Hheld1, Hfile1, Hheight1 in Hrest.
  rewrite (Z.max_l start_block 0) in Hrest by lia. cbn [written] in Hrest.
  fold block_stop plan in Hrest.
  destruct Hrest as (s' & Hrun & Hwritten & Hheld & _); try assumption.
  exists s'. split; [exact Hrun|]. split; [exact Hwritten|exact Hheld].
Qed.

(** Whatever the stream holds when the loop starts ends up at the front of
    the first chunk, or of the leftover when no chunk is flushed. *)
Lemma chunking_front (blobs : list blobdata) : forall h pending,
  (exists payload payloads,
      fst (chunking h blobs pending) = (pending ++ payload) :: payloads)
  \/ (fst (chunking h blobs pending) = []
      /\ snd (chunking h blobs pending) = pending ++ concat blobs).
Proof.
  induction blobs as [|bd rest IH]; intros h pending; cbn [chunking concat].
  - right. cbn. rewrite app_nil_r. split; reflexivity.
  - destruct (h mod NUM_BLOCKS_PER_CHUNK =? 0).
    + left. destruct (chunking (h + 1) rest []) as [chunks leftover].
      exists bd, chunks. reflexivity.
    + destruct (IH (h + 1) (pending ++ bd)) as [(payload & payloads & Hfront)|[Hnone Hleft]].
      * left. exists (bd ++ payload), payloads. rewrite Hfront, <- app_assoc. reflexivity.
      * right. rewrite Hnone, Hleft, <- app_assoc. split; reflexivity.
Qed.

(** With a chunk a block nothing is left over once a block has been written. *)
Lemma chunking_every_block (blobs : list blobdata) : forall h pending,
  NUM_BLOCKS_PER_CHUNK = 1 -> blobs <> [] -> snd (chunking h blobs pending) = [].
Proof.
  induction blobs as [|bd rest IH]; intros h pending Hone Hsome; [contradiction|].
  cbn [chunking]. rewrite Hone, Z.mod_1_r. cbn [Z.eqb].
  destruct rest as [|bd' rest'].
  - reflexivity.
  - specialize (IH (h + 1) [] Hone ltac:(discriminate)).
    destruct (chunking (h + 1) (bd' :: rest') []) as [chunks leftover]. exact IH.
Qed.

Lemma export_plan_front (blobs : list blobdata) (h : Z) (pending : blobdata) :
  (exists payload payloads,
      fst (export_plan h blobs pending) = (pending ++ payload) :: payloads)
  \/ (fst (export_plan h blobs pending) = []
      /\ snd (export_plan h blobs pending) = pending ++ concat blobs).
Proof.
  unfold export_plan. cbv zeta.
  destruct (chunking_front blobs h pending) as [(payload & payloads & Hfront)|[Hnone Hleft]];
    destruct (negb _); cbn [fst snd].
  - left. exists payload, (payloads ++ [snd (chunking h blobs pending)]).
    rewrite Hfront. reflexivity.
  - left. exists payload, payloads. exact Hfront.
  - left. exists (concat blobs), []. rewrite Hnone, Hleft. reflexivity.
  - right. split; assumption.
Qed.

(** On a new file the header records are part of the first chunk: the
    export leaves the 12 (or 1036) bytes of [open_writer] in the file, and
    the payload of the chunk that follows them starts with the two records
    and the padding; when it flushes nothing they stay in the stream. *)
Lemma new_file_first_chunk_holds_header (pkgs : list block_package) (b : Blockchain)
    (t : target) (s0 : BootstrapFile) (fuel : nat) (start_block requested_block_stop : Z) :
  let block_stop := block_stop_of b requested_block_stop in
  let fi := t_serializable_object_to_blob
              {| major_version := 1; minor_version := 0; fi_header_size := header_size |} in
  let bi := t_serializable_object_to_blob
              {| first_block_height := start_block;
                 last_block_height_hint := block_stop; reserved := 0 |} in
  let sizes := le32 blockchain_raw_magic ++ le32 (wrap32 (Z.of_nat (length fi)))
               ++ le32 (wrap32 (Z.of_nat (length bi))) in
  let padding := replicate (if output_stream_buffered then 1024
                            else 1024 - (length fi + length bi))%nat Byte.x00 in
  let on_disk := sizes ++ (if output_stream_buffered then [] else fi ++ bi ++ padding) in
  let plan := export_plan start_block (map t_serializable_object_to_blob pkgs)
                (fi ++ bi ++ padding) in
  reachable t -> existing t = None -> held s0 = [] ->
  (length fi + length bi <= 1024)%nat -> (1036 <= space t)%nat ->
  NUM_BLOCKS_PER_CHUNK <> 0 ->
  0 <= start_block ->
  Z.of_nat (length pkgs) = Z.max 0 (block_stop + 1 - start_block) ->
  block_stop + 1 < 2 ^ 64 ->
  (length pkgs <= fuel)%nat ->
  packages_from b start_block pkgs ->
  takes {| written := on_disk; failed := false; room := space t - length on_disk |}
    (fst plan) ->
  exists s',
    store_blockchain_raw fuel b t start_block requested_block_stop s0 = Ok bool true s'
    /\ ((exists payload payloads,
            written (m_raw_data_file s')
            = on_disk ++ chunk ((fi ++ bi ++ padding) ++ payload)
              ++ concat (map chunk payloads))
        \/ (written (m_raw_data_file s') = on_disk
            /\ held s' = (fi ++ bi ++ padding)
                         ++ concat (map t_serializable_object_to_blob pkgs))).
Proof.
  intros block_stop fi bi sizes padding on_disk plan Hreach Hnew Hheld0 Hsize Hspace
    Hinterval Hstart Hlen Hmax Hfuel Hpkgs Htakes.
  destruct (export_to_new_file pkgs b t s0 fuel start_block requested_block_stop
              Hreach Hnew Hheld0 Hsize Hspace Hinterval Hstart Hlen Hmax Hfuel Hpkgs Htakes)
    as (s' & Hrun & Hwritten & Hheld).
  fold block_stop fi bi sizes padding on_disk plan in Hwritten, Hheld.
  exists s'. split; [exact Hrun|].
  destruct (export_plan_front (map t_serializable_object_to_blob pkgs) start_block
              (fi ++ bi ++ padding)) as [(payload & payloads & Hfront)|[Hnone Hleft]];
    fold plan in Hfront || fold plan in Hnone, Hleft.
  - left. exists payload, payloads. rewrite Hwritten, Hfront. reflexivity.
  - right. rewrite Hwritten, Hheld, Hnone, Hleft. cbn [map concat].
    rewrite app_nil_r. split; reflexivity.
Qed.

(** The blob of the last block is at the end of the leftover of [chunking]
    when the height of that block is not a multiple of the interval. *)
Lemma chunking_leftover_last (init : list blobdata) (bd : blobdata) : forall h pending,
  negb ((h + Z.of_nat (length init)) mod NUM_BLOCKS_PER_CHUNK =? 0) = true ->
  exists before, snd (chunking h (init ++ [bd]) pending) = before ++ bd.
Proof.
  induction init as [|bd0 rest IH]; intros h pending Hlast; cbn [app chunking length] in *.
  - rewrite Z.add_0_r in Hlast. apply negb_true_iff in Hlast. rewrite Hlast.
    exists pending. reflexivity.
  - replace (h + Z.of_nat (S (length rest))) with (h + 1 + Z.of_nat (length rest)) in Hlast
      by lia.
    destruct (h mod NUM_BLOCKS_PER_CHUNK =? 0).
    + destruct (IH (h + 1) [] Hlast) as [before Hbefore].
      destruct (chunking (h + 1) (rest ++ [bd]) []) as [chunks leftover].
      exists before. exact Hbefore.
    + exact (IH (h + 1) (pending ++ bd0) Hlast).
Qed.

(** The flush after the loop is skipped exactly when the height after the
    last block is a multiple of the interval; the leftover of the loop then
    stays in the stream, the last block included when its own height is not
    a multiple. *)
Lemma export_plan_leaves_last_block (init : list blobdata) (bd : blobdata)
    (h : Z) (pending : blobdata) :
  (h + Z.of_nat (length (init ++ [bd]))) mod NUM_BLOCKS_PER_CHUNK = 0 ->
  (h + Z.of_nat (length init)) mod NUM_BLOCKS_PER_CHUNK <> 0 ->
  exists before, snd (export_plan h (init ++ [bd]) pending) = before ++ bd.
Proof.
  intros Hnext Hlast. unfold export_plan. cbv zeta. rewrite Hnext. cbn [Z.eqb negb].
  apply chunking_leftover_last. apply negb_true_iff. apply Z.eqb_neq. exact Hlast.
Qed.

(** *** The claims about blocks and their order *)



Lemma package_of_resolved b blk bp :
  package_of b blk = Some bp -> ~ Exists (unresolved b) (tx_hashes blk).
Proof.
  unfold package_of. destruct (miner_tx_vin blk) as [|[height| | |amount] rest]; try discriminate.
  destruct (resolve_all b (tx_hashes blk)) eqn:Hres; [|discriminate].
  intros _ Hex. apply resolve_all_none in Hex. congruence.
Qed.

Lemma store_loop_unresolved (fuel : nat) (block_stop : Z) (s : BootstrapFile) :
  let blk := block_at_height (m_blockchain_storage s) (m_cur_height s) in
  m_cur_height s <= block_stop ->
  miner_tx_vin blk <> [] ->
  Exists (unresolved (m_blockchain_storage s)) (tx_hashes blk) ->
  exists what, store_loop (S fuel) block_stop s = Throw unit what s.
Proof.
  intros blk Hle Hvin Hex. cbn [store_loop].
  destruct (Z.leb_spec (m_cur_height s) block_stop); [|lia].
  unfold store_block. writer.
  fold (block_at_height (m_blockchain_storage s) (m_cur_height s)). fold blk.
  destruct (write_block_unresolved blk s Hvin Hex) as [what ->].
  exists what. reflexivity.
Qed.

(** C8.  A transaction hash of the block that is the null hash, or that the
    block store does not resolve, makes [write_block] throw before anything
    is appended; the loop of [store_blockchain_raw] passes the exception on
    at once, and so a call of [store_blockchain_raw] that returns has met
    no such hash in any block from its first height to the stop height. *)
Theorem unresolved_transaction_aborts_export :
  (forall (s : BootstrapFile) (blk : block),
      miner_tx_vin blk <> [] ->
      Exists (unresolved (m_blockchain_storage s)) (tx_hashes blk) ->
      exists what, write_block blk s = Throw unit what s)
  /\ (forall (fuel : nat) (block_stop : Z) (s : BootstrapFile),
        m_cur_height s <= block_stop ->
        miner_tx_vin (block_at_height (m_blockchain_storage s) (m_cur_height s)) <> [] ->
        Exists (unresolved (m_blockchain_storage s))
          (tx_hashes (block_at_height (m_blockchain_storage s) (m_cur_height s))) ->
        exists what, store_loop (S fuel) block_stop s = Throw unit what s)
  /\ (forall (fuel : nat) (b : Blockchain) (t : target)
             (start_block requested_block_stop : Z) (s s' : BootstrapFile),
        store_blockchain_raw fuel b t start_block requested_block_stop s = Ok bool true s' ->
        0 <= start_block ->
        let top := wrap64 (get_current_blockchain_height b - 1) in
        let block_stop := if (0 <? requested_block_stop) && (requested_block_stop <? top)
                          then requested_block_stop else top in
        forall h, Z.max start_block (m_height s') <= h <= block_stop ->
          ~ Exists (unresolved b) (tx_hashes (block_at_height b h))).
Proof.
  split; [|split].
  - intros s blk. exact (write_block_unresolved blk s).
  - exact store_loop_unresolved.
  - intros fuel b t start_block requested_block_stop s s' Hrun Hstart top block_stop h Hh.
    destruct (store_blockchain_raw_returns fuel b t start_block requested_block_stop s s'
                Hrun Hstart h Hh) as [bp Hbp].
    exact (package_of_resolved _ _ _ Hbp).
Qed.


(** *** The claims about the header *)


(** C2, on the code.  What [open_writer] leaves in a new file is the magic
    and the two record sizes, 12 bytes, followed, when the stream does not
    buffer, by the two records padded to 1024 bytes: 1036 bytes or 12, not
    1024, and the sizes stand before both records.  The records and the
    padding are still held by the stream, so the first chunk starts with
    them. *)
Theorem header_region_is_not_1024 (t : target) (start_block stop_block : Z)
    (s : BootstrapFile) :
  let fi := t_serializable_object_to_blob
              {| major_version := 1; minor_version := 0; fi_header_size := header_size |} in
  let bi := t_serializable_object_to_blob
              {| first_block_height := start_block;
                 last_block_height_hint := stop_block; reserved := 0 |} in
  let sizes := le32 blockchain_raw_magic ++ le32 (wrap32 (Z.of_nat (length fi)))
               ++ le32 (wrap32 (Z.of_nat (length bi))) in
  let padding := replicate (if output_stream_buffered then 1024
                            else 1024 - (length fi + length bi))%nat Byte.x00 in
  reachable t -> existing t = None -> held s = [] ->
  (length fi + length bi <= 1024)%nat -> (1036 <= space t)%nat ->
  exists s',
    open_writer t start_block stop_block s = Ok bool true s'
    /\ written (m_raw_data_file s')
       = sizes ++ (if output_stream_buffered then [] else fi ++ bi ++ padding)
    /\ length (written (m_raw_data_file s'))
       = (if output_stream_buffered then 12 else 1036)%nat
    /\ held s' = fi ++ bi ++ padding.
Proof.
  intros fi bi sizes padding Hreach Hnew Hheld Hlen Hroom.
  destruct (open_writer_new t start_block stop_block s Hreach Hnew Hheld Hlen Hroom)
    as (s' & Hopen & Hheld' & Hfile & _).
  fold fi bi sizes padding in Hheld', Hfile.
  exists s'. split; [exact Hopen|]. split; [rewrite Hfile; reflexivity|].
  split; [|exact Hheld'].
  rewrite Hfile. cbn [written]. unfold sizes, padding.
  destruct output_stream_buffered;
    rewrite !length_app, ?length_replicate, !le32_length; cbn [length]; lia.
Qed.

(** *** What a run leaves of the file *)

Lemma appends_refl s : appends_to s s.
Proof. exists []. rewrite app_nil_r. reflexivity. Qed.

Lemma appends_same_file s s' : m_raw_data_file s' = m_raw_data_file s -> appends_to s s'.
Proof. intros Hf. exists []. rewrite Hf, app_nil_r. reflexivity. Qed.

Lemma appends_trans s1 s2 s3 : appends_to s1 s2 -> appends_to s2 s3 -> appends_to s1 s3.
Proof.
  intros [a Ha] [b Hb]. exists (a ++ b). rewrite Hb, Ha, app_assoc. reflexivity.
Qed.

Lemma ofstream_write_appends d f : exists added, written (ofstream_write d f) = written f ++ added.
Proof.
  destruct (ofstream_write_cases d f) as [[_ ->]|[(_ & _ & ->)|(_ & _ & ->)]]; cbn [written].
  - exists []. rewrite app_nil_r. reflexivity.
  - eexists. reflexivity.
  - eexists. reflexivity.
Qed.

Lemma file_append_appends d s : appends_to s (file_append d s).
Proof. unfold appends_to, file_append. cbn [set_file m_raw_data_file]. apply ofstream_write_appends. Qed.

(** The lookups of [write_block] leave the writer as it is, whether they
    return or throw. *)
Lemma fetch_loop_state (ids : list hash) : forall acc s s',
  state_after (fetch_loop ids acc s) = Some s' -> s' = s.
Proof.
  induction ids as [|tx_id rest IH]; intros acc s s' Hs; cbn [fetch_loop] in Hs.
  - inversion Hs. reflexivity.
  - destruct (bool_decide (tx_id = null_hash)); [inversion Hs; reflexivity|].
    writer. destruct (get_tx (m_blockchain_storage s) tx_id); [|inversion Hs; reflexivity].
    exact (IH _ _ _ Hs).
Qed.

Lemma db_lookup_state field height s s' :
  state_after (db_lookup field height s) = Some s' -> s' = s.
Proof.
  unfold db_lookup. writer. destruct (field _ _); intros Hs; inversion Hs; reflexivity.
Qed.

Lemma write_block_state (blk : block) (s s' : BootstrapFile) :
  state_after (write_block blk s) = Some s' ->
  (exists what, write_block blk s = Throw unit what s /\ s' = s)
  \/ (exists bp, package_of (m_blockchain_storage s) blk = Some bp
                 /\ write_block blk s = Ok unit tt s'
                 /\ s' = stream_put (t_serializable_object_to_blob bp) s).
Proof.
  intros Hs. destruct (write_block blk s) as [[] s1|what s1| |] eqn:Hw; try discriminate.
  - inversion Hs; subst s1. right. apply write_block_returns in Hw as (bp & Hbp & ->).
    exists bp. repeat split; try assumption. 
  - inversion Hs; subst s1. left. exists what.
    assert (Heq : s' = s); [|subst s'; split; reflexivity].
    revert Hw. unfold write_block.
    destruct (miner_tx_vin blk) as [|[height| | |amount] rest]; writer;
      try discriminate; try (intros Hw; inversion Hw; reflexivity).
    unfold fetch_transactions.
    destruct (fetch_loop (tx_hashes blk) [] s) as [fetched s2|what2 s2| |] eqn:Hf;
      try discriminate.
    + assert (s2 = s) as -> by (apply (fetch_loop_state (tx_hashes blk) []); rewrite Hf; reflexivity).
      destruct include_extra_block_data; [|discriminate].
      destruct (db_lookup get_block_weight height s) as [w s3|w3 s3| |] eqn:H1; try discriminate.
      2:{ intros Hw; inversion Hw; subst. apply (db_lookup_state get_block_weight height). rewrite H1. reflexivity. }
      assert (s3 = s) as -> by (apply (db_lookup_state get_block_weight height); rewrite H1; reflexivity).
      destruct (db_lookup get_block_cumulative_difficulty height s) as [d s4|w4 s4| |] eqn:H2; try discriminate.
      2:{ intros Hw; inversion Hw; subst. apply (db_lookup_state get_block_cumulative_difficulty height). rewrite H2. reflexivity. }
      assert (s4 = s) as -> by (apply (db_lookup_state get_block_cumulative_difficulty height); rewrite H2; reflexivity).
      destruct (db_lookup get_block_already_generated_coins height s) as [c s5|w5 s5| |] eqn:H3; try discriminate.
      intros Hw; inversion Hw; subst. apply (db_lookup_state get_block_already_generated_coins height). rewrite H3. reflexivity.
    + intros Hw; inversion Hw; subst. apply (fetch_loop_state (tx_hashes blk) []). rewrite Hf. reflexivity.
Qed.

(** X14.  [write_block] does no file I/O: whether it returns or throws, the
    file, the largest chunk size and the current height are as before.
    When it throws the stream holds what it held; when it returns the
    serialised package of the block has been added to the stream. *)
Theorem write_block_only_fills_the_stream (blk : block) (s s' : BootstrapFile) :
  state_after (write_block blk s) = Some s' ->
  m_raw_data_file s' = m_raw_data_file s
  /\ m_max_chunk s' = m_max_chunk s
  /\ m_cur_height s' = m_cur_height s
  /\ ((exists what, write_block blk s = Throw unit what s') -> held s' = held s)
  /\ (write_block blk s = Ok unit tt s' ->
      exists bp, package_of (m_blockchain_storage s) blk = Some bp
                 /\ held s' = held s ++ t_serializable_object_to_blob bp).
Proof.
  intros Hs. destruct (write_block_state blk s s' Hs) as [(what & Hw & ->)|(bp & Hbp & Hw & ->)].
  - repeat split; try reflexivity. rewrite Hw. discriminate.
  - rewrite file_stream_put, cur_stream_put. repeat split.
    + unfold stream_put. destruct output_stream_buffered; reflexivity.
    + intros [what Hthrow]. rewrite Hw in Hthrow. discriminate.
    + intros _. exists bp. split; [exact Hbp|apply held_stream_put].
Qed.

Lemma flush_chunk_appends s s' : state_after (flush_chunk s) = Some s' -> appends_to s s'.
Proof.
  rewrite flush_chunk_unfold.
  match goal with |- context [if ?c then _ else _] => destruct c end;
    cbn [state_after]; intros Hs; inversion Hs; subst s'; clear Hs;
    unfold appends_to; cbn [set_stream set_buffer set_file m_raw_data_file];
    destruct (ofstream_write_appends (le32 (wrap32 (Z.of_nat (length (held s))))) (m_raw_data_file s))
      as [a Ha];
    destruct (ofstream_write_appends (held s)
                (ofstream_write (le32 (wrap32 (Z.of_nat (length (held s))))) (m_raw_data_file s)))
      as [b Hb];
    exists (a ++ b); rewrite Hb, Ha, app_assoc; reflexivity.
Qed.

Lemma store_block_appends s s' : state_after (store_block s) = Some s' -> appends_to s s'.
Proof.
  unfold store_block. writer.
  destruct (write_block _ s) as [[] s1|what s1| |] eqn:Hw; cbn [state_after]; try discriminate.
  2:{ intros Hs. inversion Hs; subst.
      match type of Hw with write_block ?blk _ = _ =>
        destruct (write_block_state blk s s') as [(w & _ & ->)|(bp & _ & Hok & _)];
          [rewrite Hw; reflexivity|apply appends_refl|congruence]
      end. }
  assert (H1 : appends_to s s1).
  { match type of Hw with write_block ?blk _ = _ =>
      destruct (write_block_state blk s s1) as [(w & Hthrow & _)|(bp & _ & _ & ->)];
        [rewrite Hw; reflexivity|congruence|]
    end.
    apply appends_same_file. apply file_stream_put. }
  destruct (NUM_BLOCKS_PER_CHUNK =? 0); [discriminate|].
  destruct (m_cur_height s mod NUM_BLOCKS_PER_CHUNK =? 0).
  - destruct (flush_chunk s1) as [[] s2|what s2| |] eqn:Hf; cbn [state_after]; try discriminate;
      intros Hs; inversion Hs; subst; (eapply appends_trans; [exact H1|]).
    + eapply appends_trans; [apply flush_chunk_appends; rewrite Hf; reflexivity|].
      apply appends_same_file. reflexivity.
    + apply flush_chunk_appends. rewrite Hf. reflexivity.
  - intros Hs. inversion Hs; subst. eapply appends_trans; [exact H1|].
    apply appends_same_file. reflexivity.
Qed.

Lemma store_loop_appends (fuel : nat) (block_stop : Z) : forall s s',
  state_after (store_loop fuel block_stop s) = Some s' -> appends_to s s'.
Proof.
  induction fuel as [|fuel IH]; intros s s'; cbn [store_loop];
    destruct (m_cur_height s <=? block_stop); cbn [state_after]; try discriminate;
    try (intros Hs; inversion Hs; apply appends_refl).
  writer. destruct (store_block s) as [[] s1|what s1| |] eqn:Hb; cbn [state_after];
    try discriminate.
  - intros Hs. eapply appends_trans; [apply store_block_appends; rewrite Hb; reflexivity|].
    apply IH. exact Hs.
  - intros Hs. inversion Hs; subst. apply store_block_appends. rewrite Hb. reflexivity.
Qed.

(** X15.  An export onto a file that exists only appends: however the run
    ends, by returning true or false or by an exception from any block,
    the bytes the file held are still at its front. *)
Theorem export_never_rewrites_existing_bytes (fuel : nat) (b : Blockchain) (t : target)
    (start_block requested_block_stop : Z) (s0 s' : BootstrapFile)
    (bytes : blobdata) (num_blocks block_first : Z) :
  reachable t -> existing t = Some bytes ->
  count_blocks bytes = Some (num_blocks, block_first) ->
  state_after (store_blockchain_raw fuel b t start_block requested_block_stop s0) = Some s' ->
  exists added, written (m_raw_data_file s') = bytes ++ added.
Proof.
  intros Hreach Hold Hcount. unfold store_blockchain_raw. writer.
  rewrite determine_block_stop_of. cbn [set_storage m_blockchain_storage].
  rewrite (open_writer_existing t _ _ _ bytes num_blocks block_first Hreach Hold Hcount).
  cbn [negb].
  match goal with |- context [store_loop fuel ?bs ?s1] =>
    set (s1' := s1); set (stop := bs);
    assert (Hstart : written (m_raw_data_file s1') = bytes) by reflexivity
  end.
  clearbody s1' stop.
  destruct (store_loop fuel stop s1') as [[] s2|what s2| |] eqn:Hloop; cbn [state_after];
    try discriminate.
  2:{ intros Hs. injection Hs as ->.
      destruct (store_loop_appends fuel stop s1' s') as [added Hadd]; [rewrite Hloop; reflexivity|].
      exists added. rewrite Hadd, Hstart. reflexivity. }
  destruct (store_loop_appends fuel stop s1' s2) as [added Hadd]; [rewrite Hloop; reflexivity|].
  rewrite Hstart in Hadd.
  destruct (NUM_BLOCKS_PER_CHUNK =? 0); [discriminate|].
  unfold close. writer.
  destruct (negb (m_cur_height s2 mod NUM_BLOCKS_PER_CHUNK =? 0)).
  - destruct (flush_chunk s2) as [[] s3|what s3| |] eqn:Hf; cbn [state_after]; try discriminate.
    + destruct (flush_chunk_appends s2 s3) as [more Hmore]; [rewrite Hf; reflexivity|].
      destruct (failed (m_raw_data_file s3)); intros Hs; injection Hs as ->;
        exists (added ++ more); rewrite Hmore, Hadd, app_assoc; reflexivity.
    + destruct (flush_chunk_appends s2 s3) as [more Hmore]; [rewrite Hf; reflexivity|].
      intros Hs; injection Hs as ->.
      exists (added ++ more); rewrite Hmore, Hadd, app_assoc; reflexivity.
  - destruct (failed (m_raw_data_file s2)); intros Hs; injection Hs as ->;
      exists added; exact Hadd.
Qed.

(** *** Runs that write no block *)

Lemma store_loop_never_passes_the_top (fuel : nat) : forall s s',
  0 <= m_cur_height s < 2 ^ 64 ->
  store_loop fuel (2 ^ 64 - 1) s <> Ok unit tt s'.
Proof.
  induction fuel as [|fuel IH]; intros s s' Hcur Hloop; cbn [store_loop] in Hloop;
    destruct (Z.leb_spec (m_cur_height s) (2 ^ 64 - 1)) as [_|Hgt]; try lia; try discriminate.
  writer. destruct (store_block s) as [[] s1| | |] eqn:Hstep; try discriminate.
  apply store_block_returns in Hstep as (_ & Hc1 & _). revert Hloop. apply IH. rewrite Hc1.
  apply Z.mod_pos_bound. lia.
Qed.

(** The height [open_writer] leaves in [m_height] is a [uint64_t]. *)
Lemma open_writer_height (t : target) (start_block stop_block : Z) (s s' : BootstrapFile) :
  open_writer t start_block stop_block s = Ok bool true s' ->
  0 <= m_height s' < 2 ^ 64.
Proof.
  unfold open_writer.
  destruct (parent_path t) as [| | |[]]; try discriminate;
    unfold reset_output_stream, stream_flush; writer;
    (destruct (existing t) as [bytes|];
     [destruct (count_blocks bytes) as [[n first]|]; [|discriminate]|]);
    cbn [set_file m_raw_data_file failed]; destruct (opens t); cbn [negb]; try discriminate;
    rewrite ?(bool_decide_eq_false_2 (Some _ = None)) by discriminate;
    rewrite ?(bool_decide_eq_true_2 (None = None)) by reflexivity;
    try (intros Hok; inversion Hok; cbn; apply Z.mod_pos_bound; lia);
    (destruct (initialize_file_content _ _ _) as [[] s2| | |] eqn:Hinit; try discriminate;
     apply initialize_file_content_returns in Hinit as [Hh _];
     intros Hok; inversion Hok; subst; rewrite Hh; cbn; apply Z.mod_pos_bound; lia).
Qed.

(** X16.  On a chain of height 0 with no stop height requested, the stop
    height is the [uint64_t] value of 0 - 1, which no height exceeds: the
    export never returns true, however long the loop is let run. *)
Theorem export_of_empty_chain_never_succeeds (fuel : nat) (b : Blockchain) (t : target)
    (start_block : Z) (s0 s' : BootstrapFile) :
  get_current_blockchain_height b = 0 ->
  0 <= start_block < 2 ^ 64 ->
  store_blockchain_raw fuel b t start_block 0 s0 <> Ok bool true s'.
Proof.
  intros Hempty Hstart Hrun. unfold store_blockchain_raw in Hrun. writer.
  rewrite determine_block_stop_value in Hrun. cbn [set_storage m_blockchain_storage] in Hrun.
  rewrite Hempty, Z.ltb_irrefl in Hrun. cbn [andb] in Hrun.
  change (wrap64 (0 - 1)) with (2 ^ 64 - 1) in Hrun.
  destruct (open_writer t start_block (2 ^ 64 - 1) (set_storage b s0)) as [opened s1| | |] eqn:Hopen;
    try discriminate.
  destruct opened; cbn [negb] in Hrun; [|discriminate].
  apply open_writer_height in Hopen.
  destruct (store_loop fuel (2 ^ 64 - 1) _) as [[] s2| | |] eqn:Hloop; try discriminate.
  revert Hloop. apply store_loop_never_passes_the_top.
  cbn [set_cur_height m_cur_height]. lia.
Qed.

(** X17.  An export onto a file that already holds every block up to the
    stop height writes no block, returns true, and still appends an empty
    chunk, four zero bytes, unless the next height is a multiple of the
    chunking interval. *)
Theorem export_of_up_to_date_file (fuel : nat) (b : Blockchain) (t : target)
    (start_block requested_block_stop : Z) (s0 : BootstrapFile)
    (bytes : blobdata) (num_blocks block_first : Z) :
  let first := Z.max start_block (wrap64 (num_blocks + block_first)) in
  reachable t -> existing t = Some bytes ->
  count_blocks bytes = Some (num_blocks, block_first) ->
  NUM_BLOCKS_PER_CHUNK <> 0 ->
  0 <= start_block < 2 ^ 64 ->
  block_stop_of b requested_block_stop < first ->
  held s0 = [] ->
  (4 <= space t)%nat -> Z.of_nat (length bytes) + 4 < 2 ^ 63 ->
  exists s',
    store_blockchain_raw fuel b t start_block requested_block_stop s0 = Ok bool true s'
    /\ written (m_raw_data_file s')
       = bytes ++ (if first mod NUM_BLOCKS_PER_CHUNK =? 0 then [] else le32 0)
    /\ held s' = [].
Proof.
  intros first Hreach Hold Hcount Hinterval Hstart Hdone Hheld Hspace Hlong.
  assert (Hfirst : first < 2 ^ 64).
  { unfold first. pose proof (Z.mod_pos_bound (num_blocks + block_first) (2 ^ 64)) as Hm.
    unfold wrap64. lia. }
  destruct (export_to_existing_file [] b t s0 fuel start_block requested_block_stop
              bytes num_blocks block_first Hreach Hold Hcount Hinterval)
    as (s' & Hrun & Hw & Hh).
  - lia.
  - fold first. cbn [length]. lia.
  - fold first. lia.
  - cbn [length]. lia.
  - constructor.
  - fold first. unfold export_plan. cbn [map length chunking fst snd]. rewrite Z.add_0_r, Hheld.
    destruct (first mod NUM_BLOCKS_PER_CHUNK =? 0); cbn [negb fst app].
    + unfold takes. cbn. repeat split; try lia. constructor.
    + unfold takes. cbn [failed room written].
      change (length (concat (map chunk [[]]))) with 4%nat.
      repeat split; try lia. constructor; [cbn; lia|constructor].
  - exists s'. split; [exact Hrun|]. fold first in Hw, Hh.
    unfold export_plan in Hw, Hh. cbn [map length chunking fst snd] in Hw, Hh.
    rewrite Z.add_0_r, Hheld in Hw, Hh.
    destruct (first mod NUM_BLOCKS_PER_CHUNK =? 0); cbn [negb fst snd map concat] in Hw, Hh.
    + split; assumption.
    + split; [|exact Hh]. rewrite Hw. reflexivity.
Qed.


(** *** The transactions of a package *)

Lemma resolve_all_some b (ids : list hash) : forall fetched,
  resolve_all b ids = Some fetched <-> fetched_in_order b ids fetched.
Proof.
  unfold fetched_in_order.
  induction ids as [|tx_id rest IH]; intros fetched; cbn [resolve_all].
  - split.
    + intros Hres. inversion Hres. constructor.
    + intros Hall. inversion Hall. reflexivity.
  - destruct (bool_decide_reflect (tx_id = null_hash)) as [Hnull|Hnn].
    { split; [discriminate|]. intros Hall. inversion Hall as [|? ? ? ? [Hne _]]; subst.
      contradiction. }
    destruct (get_tx b tx_id) as [tx|] eqn:Htx.
    + destruct (resolve_all b rest) as [more|] eqn:Hmore.
      * split.
        -- intros Hres. inversion Hres; subst. constructor; [split; assumption|].
           apply IH. reflexivity.
        -- intros Hall. inversion Hall as [|? tx' ? more' [_ Htx'] Hrest]; subst.
           apply IH in Hrest. congruence.
      * split; [discriminate|]. intros Hall.
        inversion Hall as [|? tx' ? more' _ Hrest]; subst. apply IH in Hrest. discriminate.
    + split; [discriminate|]. intros Hall.
      inversion Hall as [|? tx' ? more' [_ Htx'] _]; subst. congruence.
Qed.

(** X19.  [fetch_transactions] returns a list exactly when every hash is
    non-null and known to the database; the list then holds the
    transaction of every hash, in the order of the hashes, and the writer
    is as it was. *)
Theorem fetch_transactions_in_hash_order (ids : list hash) (s s' : BootstrapFile)
    (fetched : list transaction) :
  fetch_transactions ids s = Ok (list transaction) fetched s'
  <-> s' = s /\ fetched_in_order (m_blockchain_storage s) ids fetched.
Proof.
  unfold fetch_transactions. split.
  - intros Hok. destruct (resolve_all (m_blockchain_storage s) ids) as [found|] eqn:Hres.
    + rewrite (fetch_loop_resolved ids [] s found Hres) in Hok. cbn [app] in Hok.
      inversion Hok; subst. split; [reflexivity|]. apply resolve_all_some. exact Hres.
    + apply resolve_all_none in Hres.
      destruct (fetch_loop_unresolved ids [] s Hres) as [what Hthrow].
      rewrite Hthrow in Hok. discriminate.
  - intros [-> Hall]. apply resolve_all_some in Hall.
    rewrite (fetch_loop_resolved ids [] s fetched Hall). reflexivity.
Qed.

(** *** The largest chunk *)

Lemma flush_chunk_max (s s' : BootstrapFile) :
  flush_chunk s = Ok unit tt s' ->
  m_max_chunk s' = Z.max (m_max_chunk s) (wrap32 (Z.of_nat (length (held s)))).
Proof.
  rewrite flush_chunk_unfold.
  match goal with |- context [if ?c then _ else _] => destruct c end; [|discriminate].
  intros Hok. inversion Hok; subst s'. cbn [set_stream set_buffer set_file m_max_chunk].
  destruct (Z.ltb_spec (m_max_chunk s) (wrap32 (Z.of_nat (length (held s))))); cbn; lia.
Qed.

Lemma max_stream_put d s : m_max_chunk (stream_put d s) = m_max_chunk s.
Proof. unfold stream_put. destruct output_stream_buffered; reflexivity. Qed.

(** One pass of the loop body that returns. *)
Lemma store_block_step (s s' : BootstrapFile) :
  store_block s = Ok unit tt s' ->
  exists bp,
    package_of (m_blockchain_storage s)
      (block_at_height (m_blockchain_storage s) (m_cur_height s)) = Some bp
    /\ let payload := held s ++ t_serializable_object_to_blob bp in
       let flushes := m_cur_height s mod NUM_BLOCKS_PER_CHUNK =? 0 in
       held s' = (if flushes then [] else payload)
       /\ m_max_chunk s'
          = (if flushes then Z.max (m_max_chunk s) (wrap32 (Z.of_nat (length payload)))
             else m_max_chunk s).
Proof.
  unfold store_block. writer.
  fold (block_at_height (m_blockchain_storage s) (m_cur_height s)).
  destruct (write_block _ s) as [[] s1| | |] eqn:Hwrite; try discriminate.
  apply write_block_returns in Hwrite as (bp & Hpkg & ->).
  destruct (NUM_BLOCKS_PER_CHUNK =? 0); [discriminate|].
  intros Hok. exists bp. split; [exact Hpkg|]. cbv zeta.
  destruct (m_cur_height s mod NUM_BLOCKS_PER_CHUNK =? 0).
  - destruct (flush_chunk _) as [[] s2| | |] eqn:Hflush; try discriminate.
    pose proof (flush_chunk_max _ _ Hflush) as Hmax.
    apply flush_chunk_returns in Hflush as (Hheld & _).
    rewrite held_stream_put, max_stream_put in Hmax.
    inversion Hok; subst s'. rewrite held_set_cur_height. split; [exact Hheld|exact Hmax].
  - inversion Hok; subst s'. rewrite held_set_cur_height, held_stream_put.
    split; [reflexivity|]. cbn [set_cur_height m_max_chunk]. apply max_stream_put.
Qed.

(** X20.  When the loop over the heights returns, [m_max_chunk] is the
    largest of its former value and the recorded sizes of the chunks the
    loop has flushed, and the stream holds the packages not flushed yet. *)
Theorem store_loop_tracks_largest_chunk (pkgs : list block_package) :
  forall (s s' : BootstrapFile) (fuel : nat) (block_stop : Z),
  let plan := chunking (m_cur_height s) (map t_serializable_object_to_blob pkgs) (held s) in
  0 <= m_cur_height s ->
  Z.of_nat (length pkgs) = Z.max 0 (block_stop + 1 - m_cur_height s) ->
  block_stop + 1 < 2 ^ 64 ->
  packages_from (m_blockchain_storage s) (m_cur_height s) pkgs ->
  store_loop fuel block_stop s = Ok unit tt s' ->
  m_max_chunk s' = largest (m_max_chunk s) (fst plan)
  /\ held s' = snd plan.
Proof.
  induction pkgs as [|bp rest IH]; intros s s' fuel block_stop plan Hcur Hstop Hmax Hpkgs Hloop.
  - cbn [length] in Hstop. subst plan. cbn [map chunking fst snd largest fold_left].
    destruct fuel; cbn [store_loop] in Hloop;
      (destruct (Z.leb_spec (m_cur_height s) block_stop); [lia|]);
      inversion Hloop; split; reflexivity.
  - cbn [length] in Hstop. unfold packages_from in Hpkgs.
    cbn [length heights_from] in Hpkgs. apply Forall2_cons in Hpkgs as [Hbp Hrest].
    fold (packages_from (m_blockchain_storage s) (m_cur_height s + 1) rest) in Hrest.
    destruct fuel as [|fuel]; cbn [store_loop] in Hloop;
      (destruct (Z.leb_spec (m_cur_height s) block_stop); [|lia]); [discriminate|].
    writer. destruct (store_block s) as [[] s1| | |] eqn:Hstep; try discriminate.
    pose proof (store_block_returns _ _ Hstep) as (_ & Hc1 & _ & Hb1).
    apply store_block_step in Hstep as (bp' & Hbp' & Hheld1 & Hmax1).
    assert (bp' = bp) as -> by congruence.
    rewrite wrap64_small in Hc1 by lia.
    specialize (IH s1 s' fuel block_stop). cbv zeta in IH.
    rewrite Hc1, Hb1 in IH. destruct IH as [Hlargest Hheld]; try assumption; try lia.
    subst plan. cbn [map chunking].
    destruct (m_cur_height s mod NUM_BLOCKS_PER_CHUNK =? 0).
    + rewrite Hheld1 in Hlargest, Hheld. rewrite Hmax1 in Hlargest.
      destruct (chunking (m_cur_height s + 1) (map t_serializable_object_to_blob rest) [])
        as [chunks leftover]. cbn [fst snd] in *. split; [exact Hlargest|exact Hheld].
    + rewrite Hheld1 in Hlargest, Hheld. rewrite Hmax1 in Hlargest. split; assumption.
Qed.

End WithExternals.

End BootstrapFacts.

(** ** Reading back what the writer appends *)

Module ReaderFacts.
Import Bootstrap Packages Reader BootstrapFacts.

Lemma Z_of_byte_of_Z z : Z_of_byte (byte_of_Z z) = z mod 256.
Proof.
  unfold Z_of_byte, byte_of_Z.
  assert (Hrange : 0 <= z mod 256 < 256) by (apply Z.mod_pos_bound; lia).
  destruct (Byte.of_N (Z.to_N (z mod 256))) as [b|] eqn:Hb; cbn [default from_option id].
  - apply Byte.to_of_N in Hb. rewrite Hb. apply Z2N.id. lia.
  - apply Byte.of_N_None_iff in Hb. lia.
Qed.

Lemma parse_u32_le32 (v : Z) (rest : blobdata) :
  0 <= v < 2 ^ 32 -> parse_u32 (le32 v ++ rest) = Some (v, rest).
Proof.
  intros Hv. unfold le32. cbn [dump_binary default from_option id app parse_u32].
  rewrite !Z_of_byte_of_Z. f_equal. f_equal.
  pose proof (Z.div_mod v 256 ltac:(lia)).
  pose proof (Z.div_mod (v / 256) 256 ltac:(lia)).
  pose proof (Z.div_mod (v / 256 / 256) 256 ltac:(lia)).
  pose proof (Z.mod_pos_bound v 256 ltac:(lia)).
  pose proof (Z.mod_pos_bound (v / 256) 256 ltac:(lia)).
  pose proof (Z.mod_pos_bound (v / 256 / 256) 256 ltac:(lia)).
  change (2 ^ 8) with 256. change (2 ^ 16) with (256 * 256).
  change (2 ^ 24) with (256 * 256 * 256).
  rewrite <- !Z.div_div by lia.
  assert (0 <= v / 256 / 256 / 256 < 256).
  { split; [repeat apply Z.div_pos; lia|].
    repeat (apply Z.div_lt_upper_bound; [lia|]). lia. }
  rewrite (Z.mod_small (v / 256 / 256 / 256)) by lia. lia.
Qed.

Section WithExternals.
Context `{Externals}.
Context {fi_lossless : Lossless file_info} {bi_lossless : Lossless blocks_info}
        {bp_lossless : Lossless block_package}.

Lemma payload_of_length (group : list block_package) :
  (length group <= length (payload_of group))%nat.
Proof.
  induction group as [|bp rest IH]; [reflexivity|].
  unfold payload_of in *. cbn [map concat length]. rewrite length_app.
  pose proof (blob_not_empty bp) as Hne.
  destruct (t_serializable_object_to_blob bp); [contradiction|cbn [length]; lia].
Qed.

Lemma decode_payload_group (group : list block_package) : forall fuel,
  (length group <= fuel)%nat -> decode_payload fuel (payload_of group) = Some group.
Proof.
  induction group as [|bp rest IH]; intros fuel Hfuel.
  - destruct fuel; reflexivity.
  - unfold payload_of. cbn [map concat]. fold (payload_of rest).
    pose proof (blob_not_empty bp) as Hne.
    destruct (t_serializable_object_to_blob bp ++ payload_of rest) as [|b0 bytes] eqn:Hbytes.
    { apply app_eq_nil in Hbytes as [Hnil _]. contradiction. }
    destruct fuel as [|fuel]; [cbn in Hfuel; lia|]. cbn [decode_payload].
    rewrite <- Hbytes, parse_blob.
    assert (Hshorter : (length (payload_of rest)
                        <? length (t_serializable_object_to_blob bp ++ payload_of rest))%nat
                       = true).
    { apply Nat.ltb_lt. rewrite length_app.
      destruct (t_serializable_object_to_blob bp); [contradiction|cbn [length]; lia]. }
    rewrite Hshorter, IH by (cbn [length] in Hfuel; lia). reflexivity.
Qed.

(** Chunks of packages read back as the packages. *)
Lemma read_chunks_groups (groups : list (list block_package)) : forall fuel,
  (length groups <= fuel)%nat ->
  Forall (fun group => Z.of_nat (length (payload_of group)) < 2 ^ 32) groups ->
  read_chunks fuel (concat (map (fun group => chunk (payload_of group)) groups))
  = Read (concat groups).
Proof.
  induction groups as [|group rest IH]; intros fuel Hfuel Hsizes.
  - destruct fuel; reflexivity.
  - destruct fuel as [|fuel]; [cbn in Hfuel; lia|].
    cbn [map concat]. unfold chunk at 1. rewrite <- app_assoc.
    set (bytes := payload_of group ++ _).
    assert (Hparse : parse_u32 (le32 (Z.of_nat (length (payload_of group))) ++ bytes)
                     = Some (Z.of_nat (length (payload_of group)), bytes)).
    { apply parse_u32_le32. split; [lia|exact (Forall_inv Hsizes)]. }
    unfold le32 in Hparse |- *. cbn [dump_binary default from_option id app] in Hparse |- *.
    cbn [read_chunks]. rewrite Hparse, Nat2Z.id.
    assert (Hfits : (length (payload_of group) <=? length bytes)%nat = true).
    { apply Nat.leb_le. unfold bytes. rewrite length_app. lia. }
    rewrite Hfits. unfold bytes at 2 3. rewrite take_app_length, drop_app_length.
    rewrite decode_payload_group.
    + rewrite IH; [reflexivity|cbn [length] in Hfuel; lia|exact (Forall_inv_tail Hsizes)].
    + unfold bytes. rewrite length_app. pose proof (payload_of_length group). lia.
Qed.

Lemma chunks_length (groups : list (list block_package)) :
  (length groups
   <= length (concat (map (fun group => chunk (payload_of group)) groups)))%nat.
Proof.
  induction groups as [|group rest IH]; [reflexivity|].
  cbn [map concat length]. rewrite length_app, chunk_length. lia.
Qed.

Lemma container_file_chunks (first_height last_height_hint : Z)
    (groups : list (list block_package)) :
  container_file first_height last_height_hint groups
  = container_header first_height last_height_hint
    ++ concat (map (fun group => chunk (payload_of group)) groups).
Proof. reflexivity. Qed.

(** A file of the documented layout reads back as the packages of its
    chunks. *)
Lemma read_blocks_container (first_height last_height_hint : Z)
    (groups : list (list block_package)) :
  let fi := t_serializable_object_to_blob
              {| major_version := 1; minor_version := 0; fi_header_size := header_size |} in
  let bi := t_serializable_object_to_blob
              {| first_block_height := first_height;
                 last_block_height_hint := last_height_hint; reserved := 0 |} in
  (4 + length fi + length bi <= 1024)%nat ->
  Forall (fun group => Z.of_nat (length (payload_of group)) < 2 ^ 32) groups ->
  read_blocks (container_file first_height last_height_hint groups) = Read (concat groups).
Proof.
  intros fi bi Hheader Hsizes. rewrite container_file_chunks.
  set (chunks := concat _).
  assert (Hlen : length (container_header first_height last_height_hint) = 1024%nat).
  { unfold container_header. cbv zeta. fold fi bi.
    rewrite length_app, length_replicate, !length_app.
    change (length (default [] (dump_binary blockchain_raw_magic))) with 4%nat.
    change (Z.to_nat header_size) with 1024%nat. lia. }
  unfold read_blocks, open_for_read.
  assert (Hmagic : parse_u32 (container_header first_height last_height_hint ++ chunks)
                   = Some (blockchain_raw_magic,
                           fi ++ bi
                           ++ replicate (1024 - (4 + length fi + length bi)) Byte.x00
                           ++ chunks)).
  { unfold container_header. cbv zeta. fold fi bi. fold (le32 blockchain_raw_magic).
    rewrite !length_app, le32_length. change (Z.to_nat header_size) with 1024%nat.
    rewrite <- !app_assoc. rewrite parse_u32_le32 by (unfold blockchain_raw_magic; lia).
    rewrite Nat.add_assoc. reflexivity. }
  rewrite Hmagic, Z.eqb_refl. cbn [negb]. unfold fi at 1. rewrite parse_blob.
  cbn [major_version Z.eqb Pos.eqb negb]. unfold bi at 1. rewrite parse_blob.
  replace (Z.to_nat header_size)
    with (length (container_header first_height last_height_hint)) by exact Hlen.
  rewrite drop_app_length.
  apply read_chunks_groups; [apply chunks_length|exact Hsizes].
Qed.

Lemma payload_of_app (g1 g2 : list block_package) :
  payload_of (g1 ++ g2) = payload_of g1 ++ payload_of g2.
Proof. unfold payload_of. rewrite map_app, concat_app. reflexivity. Qed.

(** The payloads [chunking] cuts are those of the groups [grouping] makes. *)
Lemma chunking_grouping (pkgs : list block_package) : forall h pending,
  chunking h (map t_serializable_object_to_blob pkgs) (payload_of pending)
  = (map payload_of (fst (grouping h pkgs pending)),
     payload_of (snd (grouping h pkgs pending))).
Proof.
  induction pkgs as [|bp rest IH]; intros h pending; cbn [map chunking grouping].
  - reflexivity.
  - assert (Hone : payload_of pending ++ t_serializable_object_to_blob bp
                   = payload_of (pending ++ [bp])).
    { rewrite payload_of_app. unfold payload_of at 3. cbn [map concat].
      rewrite app_nil_r. reflexivity. }
    rewrite Hone. destruct (h mod NUM_BLOCKS_PER_CHUNK =? 0).
    + change (@nil Byte.byte) with (payload_of []). rewrite IH.
      destruct (grouping (h + 1) rest []) as [groups leftover]. reflexivity.
    + apply IH.
Qed.

Lemma grouping_concat (pkgs : list block_package) : forall h pending,
  concat (fst (grouping h pkgs pending)) ++ snd (grouping h pkgs pending)
  = pending ++ pkgs.
Proof.
  induction pkgs as [|bp rest IH]; intros h pending; cbn [grouping].
  - cbn. rewrite app_nil_r. reflexivity.
  - destruct (h mod NUM_BLOCKS_PER_CHUNK =? 0).
    + specialize (IH (h + 1) []).
      destruct (grouping (h + 1) rest []) as [groups leftover]. cbn [fst snd concat] in *.
      rewrite <- !app_assoc, IH. reflexivity.
    + rewrite IH, <- app_assoc. reflexivity.
Qed.

(** Resuming on a file of the documented layout: the export appends its
    chunks, and the file reads back as the packages that were there
    followed by those of the chunks flushed, in the order of the heights. *)
Theorem resumed_export_reads_back (pkgs : list block_package) (b : Blockchain)
    (t : target) (s0 : BootstrapFile) (fuel : nat) (start_block requested_block_stop : Z)
    (first_height last_height_hint : Z) (stored : list (list block_package))
    (num_blocks block_first : Z) :
  let bytes := container_file first_height last_height_hint stored in
  let block_stop := block_stop_of b requested_block_stop in
  let first := Z.max start_block (wrap64 (num_blocks + block_first)) in
  let groups := grouping first pkgs [] in
  let flushed :=
    if negb ((first + Z.of_nat (length pkgs)) mod NUM_BLOCKS_PER_CHUNK =? 0)
    then fst groups ++ [snd groups] else fst groups in
  let fi := t_serializable_object_to_blob
              {| major_version := 1; minor_version := 0; fi_header_size := header_size |} in
  let bi := t_serializable_object_to_blob
              {| first_block_height := first_height;
                 last_block_height_hint := last_height_hint; reserved := 0 |} in
  (4 + length fi + length bi <= 1024)%nat ->
  Forall (fun group => Z.of_nat (length (payload_of group)) < 2 ^ 32) stored ->
  reachable t -> existing t = Some bytes -> held s0 = [] ->
  count_blocks bytes = Some (num_blocks, block_first) ->
  NUM_BLOCKS_PER_CHUNK <> 0 ->
  0 <= start_block ->
  Z.of_nat (length pkgs) = Z.max 0 (block_stop + 1 - first) ->
  block_stop + 1 < 2 ^ 64 ->
  (length pkgs <= fuel)%nat ->
  packages_from b first pkgs ->
  takes {| written := bytes; failed := false; room := space t |} (map payload_of flushed) ->
  exists s',
    store_blockchain_raw fuel b t start_block requested_block_stop s0 = Ok bool true s'
    /\ read_blocks (written (m_raw_data_file s')) = Read (concat stored ++ concat flushed)
    /\ (held s' = [] -> concat flushed = pkgs).
Proof.
  intros bytes block_stop first groups flushed fi bi Hheader Hstored Hreach Hold Hheld
    Hcount Hinterval Hstart Hlen Hmax Hfuel Hpkgs Htakes.
  assert (Hplan : export_plan first (map t_serializable_object_to_blob pkgs) (held s0)
                  = (map payload_of flushed,
                     if negb ((first + Z.of_nat (length pkgs)) mod NUM_BLOCKS_PER_CHUNK =? 0)
                     then [] else payload_of (snd groups))).
  { unfold export_plan. rewrite Hheld, length_map. cbv zeta.
    pose proof (chunking_grouping pkgs first []) as Hcut.
    change (payload_of []) with (@nil Byte.byte) in Hcut. rewrite Hcut.
    fold groups. unfold flushed. destruct (negb _); cbn [fst snd].
    - rewrite map_app. reflexivity.
    - reflexivity. }
  destruct (export_to_existing_file pkgs b t s0 fuel start_block requested_block_stop
              bytes num_blocks block_first Hreach Hold Hcount Hinterval Hstart Hlen Hmax
              Hfuel Hpkgs) as (s' & Hrun & Hwritten & Hleft).
  { fold first. rewrite Hplan. exact Htakes. }
  fold first in Hwritten, Hleft. rewrite Hplan in Hwritten, Hleft. cbn [fst snd] in Hwritten, Hleft.
  exists s'. split; [exact Hrun|]. split.
  - rewrite Hwritten. unfold bytes. rewrite container_file_chunks, <- app_assoc.
    rewrite map_map, <- concat_app, <- map_app, <- container_file_chunks.
    rewrite read_blocks_container, concat_app; [reflexivity|exact Hheader|].
    apply Forall_app. split; [exact Hstored|].
    destruct Htakes as (_ & _ & Hsizes & _). rewrite Forall_map in Hsizes. exact Hsizes.
  - intros Hempty. rewrite Hleft in Hempty.
    pose proof (grouping_concat pkgs first []) as Hall. fold groups in Hall.
    unfold flushed. destruct (negb _).
    + rewrite concat_app. cbn [concat]. rewrite app_nil_r. exact Hall.
    + assert (Hnone : snd groups = []).
      { pose proof (payload_of_length (snd groups)) as Hshort. rewrite Hempty in Hshort.
        destruct (snd groups); [reflexivity|cbn in Hshort; lia]. }
      rewrite Hnone, app_nil_r in Hall. exact Hall.
Qed.

End WithExternals.

End ReaderFacts.


(** ** The writer on the small chains *)

Module SampleFacts.
Import Bootstrap Packages Reader Sample BootstrapFacts.

(** On the chain of four blocks: a requested stop of 1 is kept, and without
    one the export stops at height 3. *)
Lemma determine_block_stop_is_min_witness :
  determine_block_stop 1 (fresh four_blocks)
  = Ok Z 1 (fresh four_blocks)
  /\ determine_block_stop 0 (fresh four_blocks)
     = Ok Z 3 (fresh four_blocks).
Proof.
  split.
  - destruct (determine_block_stop_is_min (fresh four_blocks) 1) as [Hstop _];
      [lia|exact Hstop].
  - destruct (determine_block_stop_is_min (fresh four_blocks) 0) as [Hstop _];
      [lia|exact Hstop].
Defined.

(** One package in the stream, an empty file with room: the chunk is the
    length 10 followed by the ten bytes of the package. *)
Lemma flush_chunk_length_matches_payload_witness :
  let s := @stream_put _ every_block (t_serializable_object_to_blob (package_at 0 []))
             (ready two_blocks 0) in
  exists s',
    flush_chunk s = Ok unit tt s'
    /\ written (m_raw_data_file s')
       = le32 10 ++ t_serializable_object_to_blob (package_at 0 [])
    /\ held s' = [].
Proof.
  intros s.
  assert (exists s', flush_chunk s = Ok unit tt s') as [s' Hrun]
    by (eexists; vm_compute; reflexivity).
  destruct (flush_chunk_length_matches_payload s) as [Hok _];
    [vm_compute; reflexivity|].
  destruct (Hok s' Hrun) as (Hfile & _ & Hchunk & Hheld).
  exists s'. split; [exact Hrun|]. split; [|exact Hheld].
  rewrite Hfile. apply Hchunk. vm_compute. reflexivity.
Defined.


(** The bytes in a new file when [open_writer] returns: 1036, or 12 over
    a stream that buffers. *)
Lemma header_region_is_not_1024_witness :
  (exists s',
      @open_writer _ every_block (new_file 5000) 0 1 (fresh two_blocks) = Ok bool true s'
      /\ length (written (m_raw_data_file s')) = 1036%nat)
  /\ (exists s',
        @open_writer _ every_block_buffered (new_file 5000) 0 1 (fresh two_blocks)
        = Ok bool true s'
        /\ length (written (m_raw_data_file s')) = 12%nat).
Proof.
  split.
  - destruct (@header_region_is_not_1024 _ every_block (new_file 5000) 0 1
                (fresh two_blocks)) as (s' & Hopen & _ & Hlen & _);
      try reflexivity; try (vm_compute; lia).
    { split; [right; left; reflexivity|reflexivity]. }
    exists s'. split; assumption.
  - destruct (@header_region_is_not_1024 _ every_block_buffered (new_file 5000) 0 1
                (fresh two_blocks)) as (s' & Hopen & _ & Hlen & _);
      try reflexivity; try (vm_compute; lia).
    { split; [right; left; reflexivity|reflexivity]. }
    exists s'. split; assumption.
Defined.

(** A block listing the null hash, a block listing a hash the pool does not
    know, and an export that returns. *)
Lemma unresolved_transaction_aborts_export_witness :
  (exists what,
      @write_block _ every_block (block_at 1 [41; 0]) (ready null_hash_block 1)
      = Throw unit what (ready null_hash_block 1))
  /\ (exists what,
        @store_loop _ every_block 1 1 (ready unknown_hash_block 1)
        = Throw unit what (ready unknown_hash_block 1))
  /\ ~ Exists (@unresolved sample_cryptonote four_blocks)
         (tx_hashes (@block_at_height sample_cryptonote four_blocks 3)).
Proof.
  destruct (@unresolved_transaction_aborts_export _ every_block) as (Hblock & Hloop & Hrun).
  split; [|split].
  - apply Hblock; [discriminate|]. right. left. left. reflexivity.
  - apply Hloop; [vm_compute; discriminate|discriminate|].
    right. left. right. reflexivity.
  - assert (exists s', @store_blockchain_raw _ every_block 20 four_blocks (new_file 5000) 0 0
                         (fresh four_blocks) = Ok bool true s')
      as [s' Hok] by (eexists; vm_compute; reflexivity).
    assert (Hheight : m_height s' = 0).
    { vm_compute in Hok. inversion Hok. reflexivity. }
    refine (Hrun 20%nat four_blocks (new_file 5000) 0 0 (fresh four_blocks) s' Hok _ 3 _);
      [lia|].
    rewrite Hheight. vm_compute. split; discriminate.
Defined.


(** C1, on the code.  Two blocks exported to a new file, a chunk a block:
    the export succeeds, and reading the file the way the design document
    lays it out is rejected at the header; walking the chunks from any of
    the offsets 12, 1024, 1028 and 1036 does not give the two packages
    back either, the first chunk starting with the header records. *)
Theorem new_file_does_not_read_back :
  let packages := [package_at 0 []; package_at 1 []] in
  let file := file_after (export every_block two_blocks (new_file 5000) 0 0) in
  let file_buffered :=
    file_after (export every_block_buffered two_blocks (new_file 5000) 0 0) in
  (exists s', export every_block two_blocks (new_file 5000) 0 0 = Ok bool true s')
  /\ (exists s', export every_block_buffered two_blocks (new_file 5000) 0 0 = Ok bool true s')
  /\ read_blocks file = Rejected VersionError
  /\ read_blocks file_buffered = Rejected VersionError
  /\ read_blocks file <> Read packages
  /\ read_blocks file_buffered <> Read packages
  /\ Forall (fun offset => read_chunks 5000 (drop offset file) <> Read packages
                           /\ read_chunks 5000 (drop offset file_buffered) <> Read packages)
       [12; 1024; 1028; 1036]%nat.
Proof.
  cbv zeta.
  split; [eexists; vm_compute; reflexivity|].
  split; [eexists; vm_compute; reflexivity|].
  split; [vm_compute; reflexivity|].
  split; [vm_compute; reflexivity|].
  split; [vm_compute; discriminate|].
  split; [vm_compute; discriminate|].
  repeat constructor; vm_compute; discriminate.
Qed.



(** *** Runs that write no block, and what they leave of the file *)

(** The block of height 0 written by a writer that holds nothing: the
    package is in the stream and the file is as it was. *)
Lemma write_block_only_fills_the_stream_witness :
  exists s',
    @write_block _ every_block (block_at 0 []) (ready two_blocks 0) = Ok unit tt s'
    /\ m_raw_data_file s' = m_raw_data_file (ready two_blocks 0)
    /\ held s' = t_serializable_object_to_blob (package_at 0 []).
Proof.
  assert (exists s', @write_block _ every_block (block_at 0 []) (ready two_blocks 0)
                     = Ok unit tt s') as [s' Hrun]
    by (eexists; vm_compute; reflexivity).
  destruct (@write_block_only_fills_the_stream _ every_block (block_at 0 [])
              (ready two_blocks 0) s') as (Hfile & _ & _ & _ & Hok).
  { rewrite Hrun. reflexivity. }
  destruct (Hok Hrun) as (bp & Hbp & Hheld).
  exists s'. split; [exact Hrun|]. split; [exact Hfile|].
  rewrite Hheld. vm_compute in Hbp. injection Hbp as <-. vm_compute. reflexivity.
Defined.

(** The four-block chain exported onto the file that holds its first two
    blocks: the file still starts with the bytes it held. *)
Lemma export_never_rewrites_existing_bytes_witness :
  exists s' added,
    @store_blockchain_raw _ every_block 20 four_blocks (old_file two_block_container 5000)
      0 0 (fresh four_blocks) = Ok bool true s'
    /\ written (m_raw_data_file s') = two_block_container ++ added.
Proof.
  assert (exists s', @store_blockchain_raw _ every_block 20 four_blocks
                       (old_file two_block_container 5000) 0 0 (fresh four_blocks)
                     = Ok bool true s') as [s' Hrun]
    by (eexists; vm_compute; reflexivity).
  destruct (@export_never_rewrites_existing_bytes _ every_block 20 four_blocks
              (old_file two_block_container 5000) 0 0 (fresh four_blocks) s'
              two_block_container 2 0) as [added Hadd].
  - split; [right; left; reflexivity|reflexivity].
  - reflexivity.
  - vm_compute. reflexivity.
  - rewrite Hrun. reflexivity.
  - exists s', added. split; [exact Hrun|exact Hadd].
Defined.

(** The chain without blocks never exports. *)
Lemma export_of_empty_chain_never_succeeds_witness :
  get_current_blockchain_height no_blocks = 0
  /\ forall s', @store_blockchain_raw _ every_block 20 no_blocks (new_file 5000) 0 0
                  (fresh no_blocks) <> Ok bool true s'.
Proof.
  split; [reflexivity|]. intros s'.
  apply (@export_of_empty_chain_never_succeeds _ every_block 20 no_blocks (new_file 5000) 0
           (fresh no_blocks) s'); [reflexivity|lia].
Defined.

(** The one-block chain exported onto the file that holds its block, with a
    chunk every other block: four zero bytes are appended. *)
Lemma export_of_up_to_date_file_witness :
  exists s',
    @store_blockchain_raw _ every_other_block 20 one_block
      (old_file one_block_container 5000) 0 0 (fresh one_block) = Ok bool true s'
    /\ written (m_raw_data_file s') = one_block_container ++ le32 0.
Proof.
  destruct (@export_of_up_to_date_file _ every_other_block 20 one_block
              (old_file one_block_container 5000) 0 0 (fresh one_block)
              one_block_container 1 0) as (s' & Hrun & Hwritten & _).
  - split; [right; left; reflexivity|reflexivity].
  - reflexivity.
  - vm_compute. reflexivity.
  - vm_compute. discriminate.
  - lia.
  - vm_compute. reflexivity.
  - reflexivity.
  - cbn. lia.
  - vm_compute. reflexivity.
  - exists s'. split; [exact Hrun|]. rewrite Hwritten. reflexivity.
Defined.


(** The two transactions of the last of the four blocks. *)
Lemma fetch_transactions_in_hash_order_witness :
  fetch_transactions [42; 43] (fresh four_blocks)
  = Ok (list transaction) [49; 50] (fresh four_blocks).
Proof.
  apply (proj2 (@fetch_transactions_in_hash_order _ [42; 43] (fresh four_blocks)
                  (fresh four_blocks) [49; 50])).
  split; [reflexivity|].
  repeat constructor; try discriminate; vm_compute; reflexivity.
Defined.

(** The loop over the four blocks with a chunk every other block: the
    chunks hold 10 and 22 bytes. *)
Lemma store_loop_tracks_largest_chunk_witness :
  exists s',
    @store_loop _ every_other_block 5 3 (ready four_blocks 0) = Ok unit tt s'
    /\ m_max_chunk s' = 22.
Proof.
  assert (exists s', @store_loop _ every_other_block 5 3 (ready four_blocks 0) = Ok unit tt s')
    as [s' Hrun] by (eexists; vm_compute; reflexivity).
  destruct (@store_loop_tracks_largest_chunk _ every_other_block
              [package_at 0 []; package_at 1 [41]; package_at 2 []; package_at 3 [42; 43]]
              (ready four_blocks 0) s' 5%nat 3) as [Hlargest _].
  - vm_compute. discriminate.
  - reflexivity.
  - vm_compute. reflexivity.
  - repeat constructor.
  - exact Hrun.
  - exists s'. split; [exact Hrun|]. rewrite Hlargest. vm_compute. reflexivity.
Defined.

End SampleFacts.
(** ** The daemonizer and the depth walk *)

Module PosixForkFacts.
Import PosixFork.

(** [lowest_from] walks over descriptors that are open. *)
Lemma lowest_from_spec (fuel : nat) : forall (n : nat) (table : gmap nat description),
  (forall m, (m < n)%nat -> is_Some (table !! m)) ->
  (size table <= n + fuel)%nat ->
  table !! lowest_from fuel n table = None
  /\ forall m, (m < lowest_from fuel n table)%nat -> is_Some (table !! m).
Proof.
  induction fuel as [|fuel IH]; intros n table Hbelow Hsize; cbn [lowest_from].
  - split; [|exact Hbelow].
    destruct (table !! n) as [d|] eqn:Hn; [exfalso|reflexivity].
    assert (Hsub : (set_seq 0 (S n) : gset nat) ⊆ dom table).
    { intros m Hm. apply elem_of_set_seq in Hm. apply elem_of_dom.
      destruct (decide (m = n)) as [->|Hne]; [eauto|apply Hbelow; lia]. }
    apply subseteq_size in Hsub. rewrite size_set_seq in Hsub.
    pose proof (size_dom (D := gset nat) table) as Hdom.
    lia.
  - destruct (table !! n) as [d|] eqn:Hn; [|split; assumption].
    apply IH; [|lia]. intros m Hm.
    destruct (decide (m = n)) as [->|Hne]; [eauto|apply Hbelow; lia].
Qed.

(** [lowest_free] is the least descriptor that is not open. *)
Lemma lowest_free_least (table : gmap nat description) (n : nat) :
  table !! n = None -> (forall m, (m < n)%nat -> is_Some (table !! m)) ->
  lowest_free table = n.
Proof.
  intros Hfree Hbelow.
  destruct (lowest_from_spec (size table) 0 table) as [Hnone Hsome]; [lia|lia|].
  fold (lowest_free table) in Hnone, Hsome.
  destruct (Nat.lt_trichotomy (lowest_free table) n) as [Hlt|[Heq|Hgt]]; [|exact Heq|].
  - destruct (Hbelow _ Hlt) as [d Hd]. congruence.
  - destruct (Hsome _ Hgt) as [d Hd]. congruence.
Qed.

(** The table [redirect_streams] leaves when all its calls go through. *)
Lemma redirect_streams_value (sys : system) (p : process) :
  let closed := sys_close STDERR_FILENO
                  (sys_close STDOUT_FILENO (sys_close STDIN_FILENO (fds p))) in
  let reading := <[0%nat := dev_null O_RDONLY]> closed in
  let writing := <[1%nat := dev_null O_WRONLY]> reading in
  redirect_streams sys p
  = if negb (null_opens_for_reading sys)
    then Quits "Unable to open /dev/null for reading" (with_fds closed p)
    else if negb (null_opens_for_writing sys)
         then Quits "Unable to open /dev/null for writing" (with_fds reading p)
         else if negb (dup_goes_through sys)
              then Quits "Unable to dup output descriptor" (with_fds writing p)
              else Returns (with_fds (<[2%nat := dev_null O_WRONLY]> writing) p).
Proof.
  intros t1 t2 t3. unfold redirect_streams, sys_open, sys_dup, quit. fold t1.
  assert (H0 : t1 !! 0%nat = None).
  { unfold t1, sys_close, STDERR_FILENO, STDOUT_FILENO, STDIN_FILENO.
    do 2 (rewrite lookup_delete_ne by lia). apply lookup_delete_eq. }
  assert (H1 : t1 !! 1%nat = None).
  { unfold t1, sys_close, STDERR_FILENO, STDOUT_FILENO, STDIN_FILENO.
    rewrite lookup_delete_ne by lia. apply lookup_delete_eq. }
  assert (H2 : t1 !! 2%nat = None).
  { unfold t1, sys_close, STDERR_FILENO. apply lookup_delete_eq. }
  assert (Hl1 : lowest_free t1 = 0%nat).
  { apply lowest_free_least; [exact H0|intros m Hm; lia]. }
  assert (Hl2 : lowest_free t2 = 1%nat).
  { apply lowest_free_least.
    - unfold t2. rewrite lookup_insert_ne by lia. exact H1.
    - intros m Hm. assert (m = 0%nat) as -> by lia. unfold t2.
      rewrite lookup_insert_eq. eauto. }
  assert (Hl3 : lowest_free t3 = 2%nat).
  { apply lowest_free_least.
    - unfold t3, t2. rewrite !lookup_insert_ne by lia. exact H2.
    - intros m Hm. unfold t3, t2. destruct m as [|[|m]]; [| |lia].
      + rewrite lookup_insert_ne by lia. rewrite lookup_insert_eq. eauto.
      + rewrite lookup_insert_eq. eauto. }
  assert (Hout : t3 !! STDOUT_FILENO = Some (dev_null O_WRONLY)).
  { unfold t3, STDOUT_FILENO. apply lookup_insert_eq. }
  destruct (null_opens_for_reading sys); cbn [negb]; [|reflexivity].
  rewrite Hl1. fold t2. cbn [Z.of_nat Z.ltb Z.compare].
  destruct (null_opens_for_writing sys); cbn [negb]; [|reflexivity].
  rewrite Hl2. fold t3. cbn [Z.of_nat Pos.of_succ_nat Z.ltb Z.compare].
  rewrite Hout. destruct (dup_goes_through sys); cbn [negb]; [|reflexivity].
  rewrite Hl3. reflexivity.
Qed.

(** X21.  When [redirect_streams] returns, descriptor 0 is [/dev/null] open
    for reading and descriptors 1 and 2 are [/dev/null] open for writing,
    whatever the process had open before, and every other descriptor is as
    it was; it returns exactly when the two [open] calls and the [dup]
    call go through, and throws otherwise. *)
Theorem redirect_streams_to_dev_null (sys : system) (p : process) :
  (forall p', redirect_streams sys p = Returns p' ->
     fds p' !! STDIN_FILENO = Some (dev_null O_RDONLY)
     /\ fds p' !! STDOUT_FILENO = Some (dev_null O_WRONLY)
     /\ fds p' !! STDERR_FILENO = Some (dev_null O_WRONLY)
     /\ forall n, (3 <= n)%nat -> fds p' !! n = fds p !! n)
  /\ ((exists p', redirect_streams sys p = Returns p')
      <-> null_opens_for_reading sys = true /\ null_opens_for_writing sys = true
          /\ dup_goes_through sys = true)
  /\ (forall status p', redirect_streams sys p <> Exits status p').
Proof.
  rewrite redirect_streams_value. cbv zeta.
  destruct (null_opens_for_reading sys), (null_opens_for_writing sys),
    (dup_goes_through sys); cbn [negb];
    try (split; [discriminate|]; split; [|discriminate];
         split; [intros [p' Hp]; discriminate|intros (Hr & Hw & Hd); discriminate]).
  split; [|split; [|discriminate]].
  - intros p' Hp. inversion Hp; subst p'. cbn [with_fds fds].
    unfold STDIN_FILENO, STDOUT_FILENO, STDERR_FILENO, sys_close.
    repeat split.
    + rewrite !lookup_insert_ne by lia. apply lookup_insert_eq.
    + rewrite lookup_insert_ne by lia. apply lookup_insert_eq.
    + apply lookup_insert_eq.
    + intros n Hn. rewrite !lookup_insert_ne, !lookup_delete_ne by lia. reflexivity.
  - split; [intros _; repeat split|intros _; eexists; reflexivity].
Qed.

(** In the sample daemon process the error stream ends on /dev/null opened
    for writing, and descriptor 5 keeps what it was open on. *)
Lemma redirect_streams_to_dev_null_witness :
  exists p',
    redirect_streams in_the_daemon started = Returns p'
    /\ fds p' !! 2%nat = Some (dev_null O_WRONLY)
    /\ fds p' !! 5%nat = Some (inherited 9).
Proof.
  destruct (redirect_streams_to_dev_null in_the_daemon started) as (Hfds & Hreturns & _).
  destruct (proj2 Hreturns) as [p' Hrun]; [repeat split|].
  destruct (Hfds p' Hrun) as (_ & _ & Herr & Hrest).
  exists p'. split; [exact Hrun|]. split; [exact Herr|].
  rewrite Hrest by lia. vm_compute. reflexivity.
Defined.



End PosixForkFacts.

Module DepthFacts.
Import BlockchainDepth.

Section WithSource.
Context `{Source}.

Lemma any_of_match_found pubkey tx_hash (outs : list tx_out) : forall new_txids found new_txids',
  any_of_match pubkey tx_hash outs new_txids = Some (found, new_txids') ->
  new_txids' = new_txids ++ (if found then [tx_hash] else [])
  /\ (found = true -> exists out, out ∈ outs /\ target out = txout_to_key pubkey).
Proof.
  induction outs as [|out rest IH]; intros new_txids found new_txids' Hany;
    cbn [any_of_match] in Hany.
  - inversion Hany; subst. rewrite app_nil_r. split; [reflexivity|discriminate].
  - destruct (target out) as [| |key|key] eqn:Htarget; try discriminate.
    destruct (Z.eqb_spec key pubkey) as [->|Hne].
    + inversion Hany; subst. split; [reflexivity|]. intros _. exists out.
      split; [left|exact Htarget].
    + destruct (IH _ _ _ Hany) as [Hnew Hfound]. split; [exact Hnew|].
      intros Ht. destruct (Hfound Ht) as (o & Ho & Hk). exists o. split; [right|]; assumption.
Qed.

Lemma scan_block_txs_added pubkey (hashes : list hash) : forall new_txids new_txids',
  scan_block_txs pubkey hashes new_txids = Some new_txids' ->
  exists added, new_txids' = new_txids ++ added
    /\ forall h', h' ∈ added ->
         h' ∈ hashes
         /\ exists tx2 out, get_tx h' = Some tx2 /\ out ∈ vout tx2
                            /\ target out = txout_to_key pubkey.
Proof.
  induction hashes as [|block_txid rest IH]; intros new_txids new_txids' Hscan;
    cbn [scan_block_txs] in Hscan.
  - inversion Hscan; subst. exists []. rewrite app_nil_r. split; [reflexivity|].
    intros h' Hin. inversion Hin.
  - destruct (get_tx block_txid) as [tx2|] eqn:Htx; [|discriminate].
    destruct (any_of_match pubkey block_txid (vout tx2) new_txids) as [[found mid]|] eqn:Hany;
      [|discriminate].
    destruct (any_of_match_found _ _ _ _ _ _ Hany) as [-> Hfound].
    destruct found.
    + inversion Hscan; subst. exists [block_txid]. split; [reflexivity|].
      intros h' Hin. apply list_elem_of_singleton in Hin as ->.
      destruct (Hfound eq_refl) as (out & Hout & Hkey).
      split; [left|]. exists tx2, out. repeat split; assumption.
    + rewrite app_nil_r in Hscan. destruct (IH _ _ Hscan) as (added & -> & Hadded).
      exists added. split; [reflexivity|]. intros h' Hin.
      destruct (Hadded h' Hin) as [Hmem Hpays]. split; [right|]; assumption.
Qed.

Lemma scan_offsets_added amount (offsets : list Z) : forall new_txids new_txids',
  scan_offsets amount offsets new_txids = Some new_txids' ->
  exists added, new_txids' = new_txids ++ added
    /\ forall h', h' ∈ added ->
         exists offset height pubkey b,
           offset ∈ offsets /\ get_output_key amount offset = Some (height, pubkey)
           /\ get_block_at height = Some b /\ pays pubkey b h'.
Proof.
  induction offsets as [|offset rest IH]; intros new_txids new_txids' Hscan;
    cbn [scan_offsets] in Hscan.
  - inversion Hscan; subst. exists []. rewrite app_nil_r. split; [reflexivity|].
    intros h' Hin. inversion Hin.
  - destruct (get_output_key amount offset) as [[height pubkey]|] eqn:Hkey; [|discriminate].
    destruct (get_block_at height) as [b|] eqn:Hblock; [|discriminate].
    destruct (any_of_match pubkey (get_transaction_hash (miner_tx b)) (vout (miner_tx b))
                new_txids) as [[found mid]|] eqn:Hany; [|discriminate].
    destruct (any_of_match_found _ _ _ _ _ _ Hany) as [-> Hfound].
    destruct found.
    + inversion Hscan; subst. eexists. split; [reflexivity|].
      intros h' Hin. apply list_elem_of_singleton in Hin as ->.
      exists offset, height, pubkey, b. split; [left|]. split; [exact Hkey|].
      split; [exact Hblock|]. left. split; [reflexivity|]. apply Hfound. reflexivity.
    + rewrite app_nil_r in Hscan.
      destruct (scan_block_txs pubkey (tx_hashes b) new_txids) as [mid|] eqn:Htxs;
        [|discriminate].
      destruct (scan_block_txs_added _ _ _ _ Htxs) as (added1 & -> & Hadded1).
      destruct (IH _ _ Hscan) as (added2 & -> & Hadded2).
      exists (added1 ++ added2). split; [rewrite app_assoc; reflexivity|].
      intros h' Hin. apply elem_of_app in Hin as [Hin|Hin].
      * destruct (Hadded1 h' Hin) as [Hmem Hpays].
        exists offset, height, pubkey, b. split; [left|]. split; [exact Hkey|].
        split; [exact Hblock|]. right. split; assumption.
      * destruct (Hadded2 h' Hin) as (o & ht & pk & b' & Ho & Hk & Hb & Hp).
        exists o, ht, pk, b'. split; [right; exact Ho|]. repeat split; assumption.
Qed.

Lemma scan_inputs_added (inputs : list txin_v) : forall coinbase new_txids coinbase' new_txids',
  scan_inputs inputs (coinbase, new_txids) = Some (coinbase', new_txids') ->
  (coinbase' = true -> coinbase = true \/ exists height, txin_gen height ∈ inputs)
  /\ exists added, new_txids' = new_txids ++ added
       /\ forall h', h' ∈ added ->
            exists amount key_offsets offset height pubkey b,
              txin_to_key amount key_offsets ∈ inputs
              /\ offset ∈ relative_output_offsets_to_absolute key_offsets
              /\ get_output_key amount offset = Some (height, pubkey)
              /\ get_block_at height = Some b /\ pays pubkey b h'.
Proof.
  induction inputs as [|input rest IH]; intros coinbase new_txids coinbase' new_txids' Hscan;
    cbn [scan_inputs] in Hscan.
  - inversion Hscan; subst. split; [intros Hc; left; exact Hc|].
    exists []. rewrite app_nil_r. split; [reflexivity|]. intros h' Hin. inversion Hin.
  - destruct input as [height| | |amount key_offsets]; try discriminate; cbn [fst snd] in Hscan.
    + inversion Hscan; subst. split; [intros _; right; exists height; left|].
      exists []. rewrite app_nil_r. split; [reflexivity|]. intros h' Hin. inversion Hin.
    + destruct (scan_offsets amount (relative_output_offsets_to_absolute key_offsets) new_txids)
        as [mid|] eqn:Hoffsets; [|discriminate].
      destruct (scan_offsets_added _ _ _ _ Hoffsets) as (added1 & -> & Hadded1).
      destruct (IH _ _ _ _ Hscan) as (Hcoinbase & added2 & -> & Hadded2).
      split.
      * intros Hc. destruct (Hcoinbase Hc) as [Hold|[height Hgen]]; [left; exact Hold|].
        right. exists height. right. exact Hgen.
      * exists (added1 ++ added2). split; [rewrite app_assoc; reflexivity|].
        intros h' Hin. apply elem_of_app in Hin as [Hin|Hin].
        -- destruct (Hadded1 h' Hin) as (o & ht & pk & b & Ho & Hk & Hb & Hp).
           exists amount, key_offsets, o, ht, pk, b. split; [left|]. repeat split; assumption.
        -- destruct (Hadded2 h' Hin) as (a & ks & o & ht & pk & b & Hi & Ho & Hk & Hb & Hp).
           exists a, ks, o, ht, pk, b. split; [right; exact Hi|]. repeat split; assumption.
Qed.

Lemma scan_txids_added (txids : list hash) : forall coinbase new_txids coinbase' new_txids',
  scan_txids txids (coinbase, new_txids) = Some (coinbase', new_txids') ->
  (coinbase' = true -> coinbase = true \/ exists h, h ∈ txids /\ has_coinbase_input h)
  /\ exists added, new_txids' = new_txids ++ added
       /\ forall h', h' ∈ added -> exists h, h ∈ txids /\ refers h h'.
Proof.
  induction txids as [|txid rest IH]; intros coinbase new_txids coinbase' new_txids' Hscan;
    cbn [scan_txids] in Hscan.
  - inversion Hscan; subst. split; [intros Hc; left; exact Hc|].
    exists []. rewrite app_nil_r. split; [reflexivity|]. intros h' Hin. inversion Hin.
  - destruct (get_tx txid) as [tx|] eqn:Htx; [|discriminate].
    destruct (scan_inputs (vin tx) (coinbase, new_txids)) as [[c1 mid]|] eqn:Hinputs;
      [|discriminate].
    destruct (scan_inputs_added _ _ _ _ _ Hinputs) as (Hc1 & added1 & -> & Hadded1).
    destruct (IH _ _ _ _ Hscan) as (Hc2 & added2 & -> & Hadded2).
    split.
    + intros Hc. destruct (Hc2 Hc) as [Hmid|(h & Hh & Hgen)].
      * destruct (Hc1 Hmid) as [Hold|[height Hgen]]; [left; exact Hold|].
        right. exists txid. split; [left|]. exists tx, height. split; assumption.
      * right. exists h. split; [right|]; assumption.
    + exists (added1 ++ added2). split; [rewrite app_assoc; reflexivity|].
      intros h' Hin. apply elem_of_app in Hin as [Hin|Hin].
      * destruct (Hadded1 h' Hin) as (a & ks & o & ht & pk & b & Hi & Ho & Hk & Hb & Hp).
        exists txid. split; [left|]. exists tx, a, ks, o, ht, pk, b.
        repeat split; try assumption.
      * destruct (Hadded2 h' Hin) as (h & Hh & Href). exists h. split; [right|]; assumption.
Qed.

Lemma wrap64_add_succ depth (n : nat) :
  wrap64 (wrap64 (depth + 1) + Z.of_nat n) = wrap64 (depth + Z.of_nat (S n)).
Proof.
  unfold wrap64. rewrite Zplus_mod_idemp_l. f_equal. lia.
Qed.

(** X23.  A depth the walk reports is the length of a chain of references:
    from one of the transactions it started with there are that many steps,
    each to a transaction holding an output the former may spend, to a
    transaction with a coinbase input; the walk has then taken fewer
    rounds than its fuel. *)
Theorem reported_depth_is_a_chain_to_a_coinbase (fuel : nat) :
  forall (depth : Z) (txids : list hash) (found : Z),
  walk fuel depth txids = Depth found ->
  exists (n : nat) (h : hash),
    (n < fuel)%nat /\ h ∈ txids /\ leads_to_coinbase n h
    /\ found = (if n is O then depth else wrap64 (depth + Z.of_nat n)).
Proof.
  induction fuel as [|fuel IH]; intros depth txids found Hwalk; cbn [walk] in Hwalk;
    [discriminate|].
  destruct (scan_txids txids (false, [])) as [[coinbase new_txids]|] eqn:Hscan;
    [|discriminate].
  destruct (scan_txids_added _ _ _ _ _ Hscan) as (Hcoinbase & added & Hnew & Hadded).
  cbn [app] in Hnew. subst new_txids. destruct coinbase.
  - inversion Hwalk; subst. destruct (Hcoinbase eq_refl) as [Hf|(h & Hh & Hgen)]; [discriminate|].
    exists 0%nat, h. split; [lia|]. split; [exact Hh|]. split; [exact Hgen|reflexivity].
  - destruct (IH _ _ _ Hwalk) as (n & h' & Hn & Hh' & Hchain & Hfound).
    destruct (Hadded h' Hh') as (h & Hh & Href).
    exists (S n), h. split; [lia|]. split; [exact Hh|].
    split; [exists h'; split; assumption|].
    rewrite Hfound. destruct n as [|n].
    + reflexivity.
    + apply wrap64_add_succ.
Qed.

(** X24.  Once no transaction of a round has a coinbase input and none
    leads to another transaction, the [while] loop goes on for ever with an
    empty list: no number of rounds ends the walk. *)
Theorem walk_without_references_never_ends (fuel : nat) (depth : Z) (txids : list hash) :
  scan_txids txids (false, []) = Some (false, []) ->
  walk fuel depth txids = StillWalking.
Proof.
  intros Hscan.
  assert (Hempty : forall rounds d, walk rounds d [] = StillWalking).
  { induction rounds as [|rounds IH]; intros d; cbn [walk scan_txids]; [reflexivity|apply IH]. }
  destruct fuel as [|fuel]; cbn [walk]; [reflexivity|]. rewrite Hscan. apply Hempty.
Qed.

End WithSource.

(** The transaction 300 spends an output of the transaction 200, which
    spends the coinbase 100: depth 2. *)
Lemma reported_depth_is_a_chain_to_a_coinbase_witness :
  walk 5 0 [300] = Depth 2
  /\ exists (n : nat) (h : hash),
       (n < 5)%nat /\ h ∈ [300] /\ leads_to_coinbase n h
       /\ 2 = (if n is O then 0 else wrap64 (0 + Z.of_nat n)).
Proof.
  split; [vm_compute; reflexivity|].
  apply (reported_depth_is_a_chain_to_a_coinbase 5 0 [300] 2). vm_compute. reflexivity.
Defined.

(** The transaction 400 has no input: the walk from it does not end. *)
Lemma walk_without_references_never_ends_witness :
  walk 1000 0 [400] = StillWalking.
Proof.
  apply (walk_without_references_never_ends 1000 0 [400]). vm_compute. reflexivity.
Defined.

End DepthFacts.
